(** * GPU-driven culling and indirect drawing: the two techniques of demo.cpp

    A shallow embedding of [src/demo.cpp]: the two culling compute shaders,
    the shared vertex shader, the buffer objects they communicate through,
    and the host's per-frame sequence of OpenGL calls.

    - Shader scalars are IEEE binary32 values ([spec_float] with 24 bits of
      precision), unsigned integers are [Z] with their 32-bit wrap-around
      written out.
    - Buffer objects are word-addressed finite maps with a fixed capacity; a
      store outside the capacity is a fault ([None]).
    - A dispatch runs its work-items in the order of a schedule.  The only
      interaction between work-items is the atomic counter, and the stores
      of different work-items go to different words, so a schedule is the
      order in which the work-items take their turn at the counter;
      theorems hold for every schedule that is a permutation of the
      dispatched work-items.
    - The host code is a state transformer over the OpenGL state that logs
      every call; the frame is written call by call as [main] has it. *)

From Stdlib Require Import ZArith SpecFloat.
From stdpp Require Import gmap strings list fin_maps.

Open Scope Z_scope.

(* ===================================================================== *)
(** ** Scalars: binary32 floats and 32-bit unsigned integers *)
(* ===================================================================== *)

Module F32.
Definition prec : Z := 24.
Definition emax : Z := 128.

Definition add : spec_float -> spec_float -> spec_float := SFadd prec emax.
Definition sub : spec_float -> spec_float -> spec_float := SFsub prec emax.
Definition mul : spec_float -> spec_float -> spec_float := SFmul prec emax.
Definition div : spec_float -> spec_float -> spec_float := SFdiv prec emax.
Definition neg : spec_float -> spec_float := SFopp.
Definition abs : spec_float -> spec_float := SFabs.

(** [a <= b] and [a >= b] of GLSL; both are false on NaN. *)
Definition le (a b : spec_float) : bool := SFleb a b.
Definition ge (a b : spec_float) : bool := SFleb b a.

(** The literal [m * 2^e]. *)
Definition lit (m e : Z) : spec_float := binary_normalize prec emax m e false.

Definition zero : spec_float := S754_zero false.
Definition one : spec_float := lit 1 0.
Definition two : spec_float := lit 2 0.
Definition half : spec_float := lit 1 (-1).
End F32.

Abbreviation float := spec_float.

Definition uint32_modulus : Z := 2 ^ 32.

(** Conversion of a host integer to a GLSL/GL [uint]. *)
Definition to_uint (z : Z) : Z := z mod uint32_modulus.

#[global] Instance spec_float_eq_dec : EqDecision spec_float.
Proof. solve_decision. Defined.

(* ===================================================================== *)
(** ** Vectors and matrices *)
(* ===================================================================== *)

Record vec2 := Vec2 { vec2_x : float; vec2_y : float }.

Record vec4 := Vec4 { vec4_x : float; vec4_y : float; vec4_z : float; vec4_w : float }.

(** Column-major, as in GLSL and GLM: [col0 .. col3]. *)
Record mat4 := Mat4 { col0 : vec4; col1 : vec4; col2 : vec4; col3 : vec4 }.

#[global] Instance vec2_eq_dec : EqDecision vec2.
Proof. solve_decision. Defined.

#[global] Instance vec4_eq_dec : EqDecision vec4.
Proof. solve_decision. Defined.

Definition vec4_scale (v : vec4) (s : float) : vec4 :=
  Vec4 (F32.mul (vec4_x v) s) (F32.mul (vec4_y v) s) (F32.mul (vec4_z v) s) (F32.mul (vec4_w v) s).

Definition vec4_add (a b : vec4) : vec4 :=
  Vec4 (F32.add (vec4_x a) (vec4_x b)) (F32.add (vec4_y a) (vec4_y b))
       (F32.add (vec4_z a) (vec4_z b)) (F32.add (vec4_w a) (vec4_w b)).

(** [m * v]: the linear combination of the columns of [m]. *)
Definition mat4_mul_vec4 (m : mat4) (v : vec4) : vec4 :=
  vec4_add
    (vec4_add
       (vec4_add (vec4_scale (col0 m) (vec4_x v)) (vec4_scale (col1 m) (vec4_y v)))
       (vec4_scale (col2 m) (vec4_z v)))
    (vec4_scale (col3 m) (vec4_w v)).

(** Component-wise [a * b + c] on [vec2]. *)
Definition vec2_mul (a b : vec2) : vec2 :=
  Vec2 (F32.mul (vec2_x a) (vec2_x b)) (F32.mul (vec2_y a) (vec2_y b)).

Definition vec2_add (a b : vec2) : vec2 :=
  Vec2 (F32.add (vec2_x a) (vec2_x b)) (F32.add (vec2_y a) (vec2_y b)).

(** [glm::ortho(left, right, bottom, top, zNear, zFar)] with GLM's default
    clip conventions: the identity with the three scale entries and the
    three translation entries of the last column replaced. *)
Definition ortho (left right bottom top zNear zFar : float) : mat4 :=
  Mat4
    (Vec4 (F32.div F32.two (F32.sub right left)) F32.zero F32.zero F32.zero)
    (Vec4 F32.zero (F32.div F32.two (F32.sub top bottom)) F32.zero F32.zero)
    (Vec4 F32.zero F32.zero
          (F32.div (F32.neg F32.two) (F32.sub zFar zNear)) F32.zero)
    (Vec4 (F32.div (F32.neg (F32.add right left)) (F32.sub right left))
          (F32.div (F32.neg (F32.add top bottom)) (F32.sub top bottom))
          (F32.div (F32.neg (F32.add zFar zNear)) (F32.sub zFar zNear))
          F32.one).

(* ===================================================================== *)
(** ** Global configuration and data records *)
(* ===================================================================== *)

Definition MAX_ELEMENTS : Z := 1000000.

Inductive RenderMode := MICRO_BATCH_INDIRECT | INSTANCED_INDIRECT.

#[global] Instance RenderMode_eq_dec : EqDecision RenderMode.
Proof. solve_decision. Defined.

Module InstanceData.
Record t := mk {
position : vec2;
size : vec2;
color : vec4
}.
End InstanceData.

Module DrawElementsIndirectCommand.
Record t := mk {
count : Z;
instanceCount : Z;
firstIndex : Z;
baseVertex : Z;
baseInstance : Z
}.

#[global] Instance eq_dec : EqDecision t.
Proof. solve_decision. Defined.
End DrawElementsIndirectCommand.

(** The quad mesh uploaded once: four corners, two triangles. *)
Definition quad_vertices : list vec2 :=
  [ Vec2 (F32.neg F32.half) (F32.neg F32.half);
    Vec2 F32.half (F32.neg F32.half);
    Vec2 F32.half F32.half;
    Vec2 (F32.neg F32.half) F32.half ].

Definition quad_indices : list Z := [0; 1; 2; 2; 3; 0].

(* ===================================================================== *)
(** ** Buffer objects *)
(* ===================================================================== *)

(** The four buffer objects created by [main]. *)
Inductive Buffer :=
  instance_ssbo | visible_id_ssbo | command_buffer | counter_buffer.

#[global] Instance Buffer_eq_dec : EqDecision Buffer.
Proof. solve_decision. Defined.

(** Allocated size in 32-bit words, from the [glBufferData] calls:
    [MAX_ELEMENTS * sizeof(GLuint)] bytes, [MAX_ELEMENTS * sizeof(GLuint) * 5]
    bytes and [sizeof(GLuint)] bytes.  The instance store is kept as typed
    records and has no word view. *)
Definition capacity (b : Buffer) : Z :=
  match b with
  | instance_ssbo => 0
  | visible_id_ssbo => MAX_ELEMENTS
  | command_buffer => MAX_ELEMENTS * 5
  | counter_buffer => 1
  end.

(** A shader store: buffer, word index, value. *)
Definition Store : Type := Buffer * Z * Z.

(** Contents of the buffer objects.  A word that was never written is
    absent (the buffers are allocated with a null data pointer).
    [store_log] records the shader stores in the order they happen. *)
Record Memory := mkMemory {
  instances : list InstanceData.t;
  visible_id_words : gmap Z Z;
  command_words : gmap Z Z;
  counter_words : gmap Z Z;
  store_log : list Store
}.

Definition words (b : Buffer) (m : Memory) : gmap Z Z :=
  match b with
  | instance_ssbo => ∅
  | visible_id_ssbo => visible_id_words m
  | command_buffer => command_words m
  | counter_buffer => counter_words m
  end.

Definition set_words (b : Buffer) (ws : gmap Z Z) (m : Memory) : Memory :=
  match b with
  | instance_ssbo => m
  | visible_id_ssbo =>
      mkMemory (instances m) ws (command_words m) (counter_words m) (store_log m)
  | command_buffer =>
      mkMemory (instances m) (visible_id_words m) ws (counter_words m) (store_log m)
  | counter_buffer =>
      mkMemory (instances m) (visible_id_words m) (command_words m) ws (store_log m)
  end.

Definition log_store (e : Store) (m : Memory) : Memory :=
  mkMemory (instances m) (visible_id_words m) (command_words m)
           (counter_words m) (store_log m ++ [e]).

Definition in_capacity (b : Buffer) (i : Z) : bool :=
  (0 <=? i) && (i <? capacity b).

(** Reading word [i] of buffer [b]; [None] outside the allocation or on a
    word that holds no defined value. *)
Definition read_word (b : Buffer) (i : Z) (m : Memory) : option Z :=
  if in_capacity b i then words b m !! i else None.

(** Writing word [i] of buffer [b]; [None] outside the allocation. *)
Definition write_word (b : Buffer) (i v : Z) (m : Memory) : option Memory :=
  if in_capacity b i then Some (set_words b (<[i := v]> (words b m)) m)
  else None.

(** The indexed binding points set by [glBindBufferBase]. *)
Record Bindings := mkBindings {
  ssbo_binding : gmap Z Buffer;
  atomic_binding : gmap Z Buffer
}.

(** ** Shader-side buffer access, through the binding points *)

(** [instances[i]] of a [readonly buffer] block of [InstanceData]. *)
Definition ssbo_load_instance (bs : Bindings) (binding i : Z) (m : Memory)
  : option InstanceData.t :=
  b ← ssbo_binding bs !! binding;
  match b with
  | instance_ssbo => if 0 <=? i then instances m !! Z.to_nat i else None
  | _ => None
  end.

(** Word [i] of the block bound at [binding]. *)
Definition ssbo_load (bs : Bindings) (binding i : Z) (m : Memory) : option Z :=
  b ← ssbo_binding bs !! binding;
  read_word b i m.

Definition ssbo_store (bs : Bindings) (binding i v : Z) (m : Memory)
  : option Memory :=
  b ← ssbo_binding bs !! binding;
  m' ← write_word b i v m;
  Some (log_store (b, i, v) m').

(** [atomicCounterIncrement]: returns the value before the increment. *)
Definition atomicCounterIncrement (bs : Bindings) (binding offset : Z) (m : Memory)
  : option (Z * Memory) :=
  b ← atomic_binding bs !! binding;
  old ← read_word b offset m;
  m' ← write_word b offset (to_uint (old + 1)) m;
  Some (old, m').

(** Word offsets of the fields of [commands[k]] (std430: five [uint]s). *)
Definition command_field (k field : Z) : Z := 5 * k + field.

Definition read_command (ws : gmap Z Z) (k : Z)
  : option DrawElementsIndirectCommand.t :=
  c ← ws !! command_field k 0;
  ic ← ws !! command_field k 1;
  fi ← ws !! command_field k 2;
  bv ← ws !! command_field k 3;
  bi ← ws !! command_field k 4;
  Some (DrawElementsIndirectCommand.mk c ic fi bv bi).

(* ===================================================================== *)
(** ** The shaders *)
(* ===================================================================== *)

(** [clip_pos = projection * vec4(inst.position, 0.0, 1.0)]. *)
Definition clip_position (projection : mat4) (inst : InstanceData.t) : vec4 :=
  mat4_mul_vec4 projection
    (Vec4 (vec2_x (InstanceData.position inst))
          (vec2_y (InstanceData.position inst)) F32.zero F32.one).

(** The frustum test shared by both culling shaders. *)
Definition is_visible (clip_pos : vec4) : bool :=
  F32.ge (vec4_x clip_pos) (F32.neg (vec4_w clip_pos)) &&
  F32.le (vec4_x clip_pos) (vec4_w clip_pos) &&
  F32.ge (vec4_y clip_pos) (F32.neg (vec4_w clip_pos)) &&
  F32.le (vec4_y clip_pos) (vec4_w clip_pos).

(** [cull_microbatch_cs_source]: one work-item.  Bindings: 0 instances,
    1 commands, atomic counter 2. *)
Definition cull_microbatch_main (bs : Bindings) (total_element_count : Z)
    (projection : mat4) (gl_GlobalInvocationID_x : Z) (m : Memory)
  : option Memory :=
  let gid := gl_GlobalInvocationID_x in
  if bool_decide (total_element_count ≤ gid) then Some m
  else
    inst ← ssbo_load_instance bs 0 gid m;
    let clip_pos := clip_position projection inst in
    if is_visible clip_pos then
      '(index, m) ← atomicCounterIncrement bs 2 0 m;
      m ← ssbo_store bs 1 (command_field index 0) 6 m;
      m ← ssbo_store bs 1 (command_field index 1) 1 m;
      m ← ssbo_store bs 1 (command_field index 2) 0 m;
      m ← ssbo_store bs 1 (command_field index 3) 0 m;
      ssbo_store bs 1 (command_field index 4) gid m
    else Some m.

(** [cull_instanced_cs_source]: one work-item.  Bindings: 0 instances,
    1 visible_ids, 2 the single command, atomic counter 3. *)
Definition cull_instanced_main (bs : Bindings) (total_element_count : Z)
    (projection : mat4) (gl_GlobalInvocationID_x : Z) (m : Memory)
  : option Memory :=
  m ← (if bool_decide (gl_GlobalInvocationID_x = 0) then
         m ← ssbo_store bs 2 (command_field 0 0) 6 m;
         m ← ssbo_store bs 2 (command_field 0 1) 0 m;
         m ← ssbo_store bs 2 (command_field 0 2) 0 m;
         m ← ssbo_store bs 2 (command_field 0 3) 0 m;
         ssbo_store bs 2 (command_field 0 4) 0 m
       else Some m);
  let gid := gl_GlobalInvocationID_x in
  if bool_decide (total_element_count ≤ gid) then Some m
  else
    inst ← ssbo_load_instance bs 0 gid m;
    let clip_pos := clip_position projection inst in
    if is_visible clip_pos then
      '(index, m) ← atomicCounterIncrement bs 3 0 m;
      ssbo_store bs 1 index gid m
    else Some m.

(** Output of one vertex-shader invocation. *)
Record VertexOutput := mkVertexOutput {
  gl_Position : vec4;
  v_color : vec4
}.

#[global] Instance VertexOutput_eq_dec : EqDecision VertexOutput.
Proof. solve_decision. Defined.

(** [render_vs_source].  Bindings: 0 instances, 1 visible_ids. *)
Definition render_vs_main (bs : Bindings) (projection : mat4)
    (is_instanced_mode : bool) (gl_InstanceID gl_BaseInstance : Z)
    (a_pos : vec2) (m : Memory) : option VertexOutput :=
  instance_id ← (if is_instanced_mode then ssbo_load bs 1 gl_InstanceID m
                 else Some gl_BaseInstance);
  inst ← ssbo_load_instance bs 0 instance_id m;
  let final_pos :=
    vec2_add (vec2_mul a_pos (InstanceData.size inst)) (InstanceData.position inst) in
  Some (mkVertexOutput
          (mat4_mul_vec4 projection
             (Vec4 (vec2_x final_pos) (vec2_y final_pos) F32.zero F32.one))
          (InstanceData.color inst)).

(** A dispatch: the work-items run to completion one after the other in
    the order of the schedule. *)
Fixpoint run_work_items (main : Z -> Memory -> option Memory)
    (schedule : list Z) (m : Memory) : option Memory :=
  match schedule with
  | [] => Some m
  | gid :: rest => m' ← main gid m; run_work_items main rest m'
  end.

(** Work-group size of both culling shaders ([local_size_x = 256]) and the
    work-items of a dispatch of [num_groups_x] groups. *)
Definition local_size_x : Z := 256.

Definition work_items (num_groups_x : Z) : list Z :=
  seqZ 0 (num_groups_x * local_size_x).

(* ===================================================================== *)
(** ** OpenGL state and the host API *)
(* ===================================================================== *)

Inductive Program :=
  cull_microbatch_program | cull_instanced_program | render_program.

#[global] Instance Program_eq_dec : EqDecision Program.
Proof. solve_decision. Defined.

Definition program_eqb (a b : Program) : bool :=
  match a, b with
  | cull_microbatch_program, cull_microbatch_program
  | cull_instanced_program, cull_instanced_program
  | render_program, render_program => true
  | _, _ => false
  end.

Inductive Target :=
  | GL_SHADER_STORAGE_BUFFER
  | GL_ATOMIC_COUNTER_BUFFER
  | GL_DRAW_INDIRECT_BUFFER
  | GL_COPY_READ_BUFFER
  | GL_COPY_WRITE_BUFFER.

#[global] Instance Target_eq_dec : EqDecision Target.
Proof. solve_decision. Defined.

Definition target_eqb (a b : Target) : bool :=
  match a, b with
  | GL_SHADER_STORAGE_BUFFER, GL_SHADER_STORAGE_BUFFER
  | GL_ATOMIC_COUNTER_BUFFER, GL_ATOMIC_COUNTER_BUFFER
  | GL_DRAW_INDIRECT_BUFFER, GL_DRAW_INDIRECT_BUFFER
  | GL_COPY_READ_BUFFER, GL_COPY_READ_BUFFER
  | GL_COPY_WRITE_BUFFER, GL_COPY_WRITE_BUFFER => true
  | _, _ => false
  end.

(** Barrier bits of [glMemoryBarrier]. *)
Definition GL_COMMAND_BARRIER_BIT : Z := 0x40.
Definition GL_ATOMIC_COUNTER_BARRIER_BIT : Z := 0x1000.
Definition GL_SHADER_STORAGE_BARRIER_BIT : Z := 0x2000.

(** The uniforms each linked program declares, in declaration order; a
    uniform's location is its position in this list. *)
Definition active_uniforms (p : Program) : list string :=
  match p with
  | cull_microbatch_program => ["total_element_count"; "projection"]
  | cull_instanced_program => ["total_element_count"; "projection"]
  | render_program => ["projection"; "is_instanced_mode"]
  end%string.

Fixpoint uniform_index (name : string) (names : list string) (i : Z) : Z :=
  match names with
  | [] => -1
  | n :: rest => if String.eqb name n then i else uniform_index name rest (i + 1)
  end.

(** [-1] when [name] is not an active uniform of the program. *)
Definition glGetUniformLocation (p : Program) (name : string) : Z :=
  uniform_index name (active_uniforms p) 0.

Inductive UniformValue :=
  | UInt (v : Z)
  | UMat4 (m : mat4).

(** The host calls of one frame, as they are logged. *)
Inductive GLCall :=
  | Call_glClear
  | Call_glBindBuffer (target : Target) (buffer : Buffer)
  | Call_glBufferSubData (target : Target) (offset size : Z) (data : list Z)
  | Call_glBindBufferBase (target : Target) (index : Z) (buffer : Buffer)
  | Call_glUseProgram (p : Program)
  | Call_glUniform1i (location v : Z)
  | Call_glUniformMatrix4fv (location : Z)
  | Call_glDispatchCompute (num_groups_x : Z)
  | Call_glMemoryBarrier (barriers : Z)
  | Call_glBindVertexArray
  | Call_glMapBufferRange (target : Target) (offset length : Z)
  | Call_glUnmapBuffer (target : Target)
  | Call_glMultiDrawElementsIndirect (indirect drawcount stride : Z)
  | Call_glCopyBufferSubData (readTarget writeTarget : Target)
      (readOffset writeOffset size : Z)
  | Call_glDrawElementsIndirect (indirect : Z)
  | Call_ImGui_Render
  | Call_ImGui_ImplOpenGL3_RenderDrawData
  | Call_glfwSwapBuffers.

(** One drawn instance of the quad: the vertex-shader outputs of its six
    indices. *)
Definition Quad : Type := list VertexOutput.

Record GLState := mkGLState {
  memory : Memory;
  bindings : Bindings;
  generic_binding : Target -> option Buffer;
  current_program : option Program;
  uniforms : Program -> gmap Z UniformValue;
  framebuffer : list Quad;
  call_log : list GLCall
}.

Definition set_memory (m : Memory) (st : GLState) : GLState :=
  mkGLState m (bindings st) (generic_binding st) (current_program st)
            (uniforms st) (framebuffer st) (call_log st).

Definition set_bindings (bs : Bindings) (g : Target -> option Buffer)
    (st : GLState) : GLState :=
  mkGLState (memory st) bs g (current_program st)
            (uniforms st) (framebuffer st) (call_log st).

Definition set_current_program (p : Program) (st : GLState) : GLState :=
  mkGLState (memory st) (bindings st) (generic_binding st) (Some p)
            (uniforms st) (framebuffer st) (call_log st).

Definition set_uniforms (u : Program -> gmap Z UniformValue) (st : GLState)
  : GLState :=
  mkGLState (memory st) (bindings st) (generic_binding st) (current_program st)
            u (framebuffer st) (call_log st).

Definition set_framebuffer (fb : list Quad) (st : GLState) : GLState :=
  mkGLState (memory st) (bindings st) (generic_binding st) (current_program st)
            (uniforms st) fb (call_log st).

Definition log_call (c : GLCall) (st : GLState) : GLState :=
  mkGLState (memory st) (bindings st) (generic_binding st) (current_program st)
            (uniforms st) (framebuffer st) (call_log st ++ [c]).

(** Host code: a state transformer over the GL state that may fault. *)
Definition GL (A : Type) : Type := GLState -> option (A * GLState).

#[global] Instance GL_ret : MRet GL := λ A a st, Some (a, st).

#[global] Instance GL_bind : MBind GL := λ A B f ma st,
  match ma st with
  | Some (a, st') => f a st'
  | None => None
  end.

(** A call that cannot fault: log it, then update the state. *)
Definition gl_call (c : GLCall) (f : GLState -> GLState) : GL unit :=
  λ st, Some (tt, f (log_call c st)).

(** A call that may fault. *)
Definition gl_try {A} (c : GLCall) (f : GLState -> option (A * GLState)) : GL A :=
  λ st, f (log_call c st).

(** *** Uniforms *)

Definition uniform_value (st : GLState) (p : Program) (name : string)
  : option UniformValue :=
  uniforms st p !! glGetUniformLocation p name.

(** A [uniform uint]; uniforms are zero until set. *)
Definition uniform_uint (st : GLState) (p : Program) (name : string) : Z :=
  match uniform_value st p name with
  | Some (UInt v) => to_uint v
  | _ => 0
  end.

Definition uniform_bool (st : GLState) (p : Program) (name : string) : bool :=
  match uniform_value st p name with
  | Some (UInt v) => bool_decide (v ≠ 0)
  | _ => false
  end.

Definition mat4_zero : mat4 :=
  let c := Vec4 F32.zero F32.zero F32.zero F32.zero in Mat4 c c c c.

Definition uniform_mat4 (st : GLState) (p : Program) (name : string) : mat4 :=
  match uniform_value st p name with
  | Some (UMat4 m) => m
  | _ => mat4_zero
  end.

(** The uniform at [location] of program [p] replaced by [v].  Location
    [-1], or any location the program does not have, changes nothing. *)
Definition update_uniform (p : Program) (location : Z) (v : UniformValue)
    (u : Program -> gmap Z UniformValue) : Program -> gmap Z UniformValue :=
  if (0 <=? location) && (location <? Z.of_nat (length (active_uniforms p))) then
    λ q, if program_eqb q p then <[location := v]> (u q) else u q
  else u.

(** Setting a uniform of the program in use. *)
Definition set_uniform (location : Z) (v : UniformValue) (st : GLState)
  : GLState :=
  match current_program st with
  | Some p => set_uniforms (update_uniform p location v (uniforms st)) st
  | None => st
  end.

Definition glUseProgram (p : Program) : GL unit :=
  gl_call (Call_glUseProgram p) (set_current_program p).

(** The culling shaders declare [total_element_count] as [uint] and the
    host passes a signed [int]; the value arrives converted ([to_uint]
    when the shader reads it). *)
Definition glUniform1i (location v : Z) : GL unit :=
  gl_call (Call_glUniform1i location v) (set_uniform location (UInt v)).

Definition glUniformMatrix4fv (location : Z) (value : mat4) : GL unit :=
  gl_call (Call_glUniformMatrix4fv location) (set_uniform location (UMat4 value)).

(** *** Buffer binding and host-side buffer transfers *)

Definition bind_generic (t : Target) (b : Buffer) (g : Target -> option Buffer)
  : Target -> option Buffer :=
  λ t', if target_eqb t' t then Some b else g t'.

Definition glBindBuffer (target : Target) (buffer : Buffer) : GL unit :=
  gl_call (Call_glBindBuffer target buffer)
    (λ st, set_bindings (bindings st)
             (bind_generic target buffer (generic_binding st)) st).

(** [glBindBufferBase] binds both the indexed and the generic binding
    point of the target. *)
Definition bind_indexed (t : Target) (index : Z) (b : Buffer) (bs : Bindings)
  : Bindings :=
  match t with
  | GL_SHADER_STORAGE_BUFFER =>
      mkBindings (<[index := b]> (ssbo_binding bs)) (atomic_binding bs)
  | GL_ATOMIC_COUNTER_BUFFER =>
      mkBindings (ssbo_binding bs) (<[index := b]> (atomic_binding bs))
  | _ => bs
  end.

Definition glBindBufferBase (target : Target) (index : Z) (buffer : Buffer)
  : GL unit :=
  gl_call (Call_glBindBufferBase target index buffer)
    (λ st, set_bindings (bind_indexed target index buffer (bindings st))
             (bind_generic target buffer (generic_binding st)) st).

(** Byte offsets and sizes of the API, as word indices. *)
Definition word_of_byte (byte_offset : Z) : Z := byte_offset `div` 4.

Fixpoint write_words (b : Buffer) (start : Z) (data : list Z) (m : Memory)
  : option Memory :=
  match data with
  | [] => Some m
  | v :: rest => m' ← write_word b start v m; write_words b (start + 1) rest m'
  end.

Definition read_words (b : Buffer) (start n : Z) (m : Memory) : option (list Z) :=
  mapM (λ i, read_word b i m) (seqZ start n).

Definition glBufferSubData (target : Target) (offset size : Z) (data : list Z)
  : GL unit :=
  gl_try (Call_glBufferSubData target offset size data) (λ st,
    b ← generic_binding st target;
    m' ← write_words b (word_of_byte offset) (take (Z.to_nat (word_of_byte size)) data)
                     (memory st);
    Some (tt, set_memory m' st)).

(** [glMapBufferRange] for reading: the mapped words. *)
Definition glMapBufferRange (target : Target) (offset length : Z) : GL (list Z) :=
  gl_try (Call_glMapBufferRange target offset length) (λ st,
    b ← generic_binding st target;
    ws ← read_words b (word_of_byte offset) (word_of_byte length) (memory st);
    Some (ws, st)).

Definition glUnmapBuffer (target : Target) : GL unit :=
  gl_call (Call_glUnmapBuffer target) id.

Definition glCopyBufferSubData (readTarget writeTarget : Target)
    (readOffset writeOffset size : Z) : GL unit :=
  gl_try (Call_glCopyBufferSubData readTarget writeTarget readOffset writeOffset size)
    (λ st,
      src ← generic_binding st readTarget;
      dst ← generic_binding st writeTarget;
      ws ← read_words src (word_of_byte readOffset) (word_of_byte size) (memory st);
      m' ← write_words dst (word_of_byte writeOffset) ws (memory st);
      Some (tt, set_memory m' st)).

(** *** Dispatch and the two indirect draws *)

(** The order in which the hardware retires the work-items of a dispatch:
    any rearrangement of them. *)
Definition Scheduler : Type := list Z -> list Z.

Definition compute_main (st : GLState) (p : Program)
  : option (Z -> Memory -> option Memory) :=
  match p with
  | cull_microbatch_program =>
      Some (cull_microbatch_main (bindings st)
              (uniform_uint st p "total_element_count")
              (uniform_mat4 st p "projection"))
  | cull_instanced_program =>
      Some (cull_instanced_main (bindings st)
              (uniform_uint st p "total_element_count")
              (uniform_mat4 st p "projection"))
  | render_program => None
  end.

Definition glDispatchCompute (scheduler : Scheduler) (num_groups_x : Z) : GL unit :=
  gl_try (Call_glDispatchCompute num_groups_x) (λ st,
    p ← current_program st;
    main ← compute_main st p;
    m' ← run_work_items main (scheduler (work_items num_groups_x)) (memory st);
    Some (tt, set_memory m' st)).

Definition glMemoryBarrier (barriers : Z) : GL unit :=
  gl_call (Call_glMemoryBarrier barriers) id.

Definition glBindVertexArray : GL unit := gl_call Call_glBindVertexArray id.

(** One instance of an indexed draw of the quad mesh with the render
    program: the vertex shader runs on the vertex of each index. *)
Definition draw_instance (st : GLState) (cmd : DrawElementsIndirectCommand.t)
    (gl_InstanceID : Z) : option Quad :=
  mapM (λ j,
          idx ← quad_indices !! Z.to_nat j;
          a_pos ← quad_vertices !! Z.to_nat (idx + DrawElementsIndirectCommand.baseVertex cmd);
          render_vs_main (bindings st)
            (uniform_mat4 st render_program "projection")
            (uniform_bool st render_program "is_instanced_mode")
            gl_InstanceID (DrawElementsIndirectCommand.baseInstance cmd)
            a_pos (memory st))
       (seqZ (DrawElementsIndirectCommand.firstIndex cmd)
             (DrawElementsIndirectCommand.count cmd)).

Definition draw_command (st : GLState) (cmd : DrawElementsIndirectCommand.t)
  : option (list Quad) :=
  mapM (draw_instance st cmd) (seqZ 0 (DrawElementsIndirectCommand.instanceCount cmd)).

(** The commands [0 .. drawcount) of the buffer bound for indirect draws,
    tightly packed from offset 0, drawn in order. *)
Definition draw_indirect (drawcount : Z) (st : GLState) : option (unit * GLState) :=
  match current_program st with
  | Some render_program =>
      b ← generic_binding st GL_DRAW_INDIRECT_BUFFER;
      cmds ← mapM (λ k, if in_capacity b (command_field k 4)
                        then read_command (words b (memory st)) k else None)
                  (seqZ 0 drawcount);
      quads ← mapM (draw_command st) cmds;
      Some (tt, set_framebuffer (framebuffer st ++ concat quads) st)
  | _ => None
  end.

Definition glMultiDrawElementsIndirect (indirect drawcount stride : Z) : GL unit :=
  gl_try (Call_glMultiDrawElementsIndirect indirect drawcount stride) (λ st,
    if (indirect =? 0) && (stride =? 0) then draw_indirect drawcount st
    else None).

Definition glDrawElementsIndirect (indirect : Z) : GL unit :=
  gl_try (Call_glDrawElementsIndirect indirect) (λ st,
    if indirect =? 0 then draw_indirect 1 st else None).

(* ===================================================================== *)
(** ** The frame *)
(* ===================================================================== *)

Record Config := mkConfig {
  current_mode : RenderMode;
  element_count : Z
}.

(** [unsigned int num_groups = (element_count + 255) / 256]. *)
Definition num_groups (element_count : Z) : Z :=
  to_uint ((element_count + 255) `quot` 256).

Definition frame_projection : mat4 :=
  ortho (F32.neg F32.one) F32.one (F32.neg F32.one) F32.one
        (F32.neg F32.one) F32.one.

(** [GLuint zero = 0] written over the counter. *)
Definition reset_counter : GL unit :=
  glBindBuffer GL_ATOMIC_COUNTER_BUFFER counter_buffer;;
  glBufferSubData GL_ATOMIC_COUNTER_BUFFER 0 4 [0].

(** Counter reset, bindings, and the culling dispatch of the active mode. *)
Definition cull_stage (scheduler : Scheduler) (cfg : Config) : GL unit :=
  reset_counter;;
  let projection := frame_projection in
  glBindBufferBase GL_SHADER_STORAGE_BUFFER 0 instance_ssbo;;
  glBindBufferBase GL_ATOMIC_COUNTER_BUFFER
    (match current_mode cfg with MICRO_BATCH_INDIRECT => 2 | _ => 3 end)
    counter_buffer;;
  let num_groups := num_groups (element_count cfg) in
  match current_mode cfg with
  | MICRO_BATCH_INDIRECT =>
    glUseProgram cull_microbatch_program;;
    glUniform1i (glGetUniformLocation cull_microbatch_program "total_element_count")
                (element_count cfg);;
    glUniformMatrix4fv (glGetUniformLocation cull_microbatch_program "projection")
                       projection;;
    glBindBufferBase GL_SHADER_STORAGE_BUFFER 1 command_buffer;;
    glDispatchCompute scheduler num_groups
  | INSTANCED_INDIRECT =>
    glUseProgram cull_instanced_program;;
    glUniform1i (glGetUniformLocation cull_instanced_program "total_element_count")
                (element_count cfg);;
    glUniformMatrix4fv (glGetUniformLocation cull_instanced_program "projection")
                       projection;;
    glBindBufferBase GL_SHADER_STORAGE_BUFFER 1 visible_id_ssbo;;
    glBindBufferBase GL_SHADER_STORAGE_BUFFER 2 command_buffer;;
    glDispatchCompute scheduler num_groups
  end.

(** The counter copied over the second word of the command buffer. *)
Definition patch_instance_count : GL unit :=
  glBindBuffer GL_COPY_READ_BUFFER counter_buffer;;
  glBindBuffer GL_COPY_WRITE_BUFFER command_buffer;;
  glCopyBufferSubData GL_COPY_READ_BUFFER GL_COPY_WRITE_BUFFER 0 4 4.

(** The draw of the active mode; returns [gpu_draw_calls]. *)
Definition render_stage (cfg : Config) : GL Z :=
  let projection := frame_projection in
  glUseProgram render_program;;
  glUniformMatrix4fv (glGetUniformLocation render_program "projection") projection;;
  glBindVertexArray;;
  match current_mode cfg with
  | MICRO_BATCH_INDIRECT =>
    glUniform1i (glGetUniformLocation render_program "is_instanced_mode") 0;;
    glBindBuffer GL_DRAW_INDIRECT_BUFFER command_buffer;;
    glBindBuffer GL_ATOMIC_COUNTER_BUFFER counter_buffer;;
    count_ptr ← glMapBufferRange GL_ATOMIC_COUNTER_BUFFER 0 4;
    let gpu_draw_calls := default 0 (count_ptr !! 0%nat) in
    glUnmapBuffer GL_ATOMIC_COUNTER_BUFFER;;
    glMultiDrawElementsIndirect 0 gpu_draw_calls 0;;
    mret gpu_draw_calls
  | INSTANCED_INDIRECT =>
    glUniform1i (glGetUniformLocation render_program "is__instanced_mode") 1;;
    glBindBufferBase GL_SHADER_STORAGE_BUFFER 1 visible_id_ssbo;;
    patch_instance_count;;
    glBindBuffer GL_DRAW_INDIRECT_BUFFER command_buffer;;
    glDrawElementsIndirect 0;;
    mret 1
  end.

Definition overlay_and_present : GL unit :=
  gl_call Call_ImGui_Render id;;
  gl_call Call_ImGui_ImplOpenGL3_RenderDrawData id;;
  gl_call Call_glfwSwapBuffers id.

(** The body of the main loop after the UI: one frame. *)
Definition frame (scheduler : Scheduler) (cfg : Config) : GL Z :=
  gl_call Call_glClear (set_framebuffer []);;
  cull_stage scheduler cfg;;
  glMemoryBarrier
    (Z.lor (Z.lor GL_COMMAND_BARRIER_BIT GL_SHADER_STORAGE_BARRIER_BIT)
           GL_ATOMIC_COUNTER_BARRIER_BIT);;
  gpu_draw_calls ← render_stage cfg;
  overlay_and_present;;
  mret gpu_draw_calls.

(** ** The control surface and the main loop *)

(** What the user does to the two radio buttons and the slider during one
    frame. *)
Record UserInput := mkUserInput {
  press_micro_batch : bool;
  press_instanced : bool;
  slider_gesture : option Z
}.

(** [ImGui::RadioButton(label, &v, v_button)]: pressing selects [v_button]. *)
Definition RadioButton (pressed : bool) (v v_button : RenderMode) : RenderMode :=
  if pressed then v_button else v.

(** The slider widget is a collaborator outside this repository: it maps a
    gesture, the current value and the two bounds to the new value. *)
Definition SliderWidget : Type := option Z -> Z -> Z -> Z -> Z.

(** The contract the control surface relies on: a value inside the bounds
    stays inside them. *)
Definition slider_keeps_range (SliderInt : SliderWidget) : Prop :=
  ∀ gesture v v_min v_max,
    v_min ≤ v ≤ v_max → v_min ≤ SliderInt gesture v v_min v_max ≤ v_max.

(** Modelled from the spec: [ImGui::SliderInt] is not in the repository; the
    spec's config surface keeps [active_element_count] in [1000, MAX_ELEMENTS],
    so the requested value is clamped to the bounds. *)
Definition clamping_slider : SliderWidget :=
  λ gesture v v_min v_max,
    match gesture with
    | Some requested => Z.max v_min (Z.min requested v_max)
    | None => v
    end.

Definition ui (SliderInt : SliderWidget) (input : UserInput) (cfg : Config)
  : Config :=
  let mode := RadioButton (press_micro_batch input) (current_mode cfg)
                          MICRO_BATCH_INDIRECT in
  let mode := RadioButton (press_instanced input) mode INSTANCED_INDIRECT in
  mkConfig mode (SliderInt (slider_gesture input) (element_count cfg)
                           1000 MAX_ELEMENTS).

Definition initial_config : Config := mkConfig MICRO_BATCH_INDIRECT 100000.

(** The GL state when the main loop starts: the instance store uploaded,
    the other buffers allocated without data, the last buffer bound to
    each target during set-up, no program in use, no uniform set. *)
Definition initial_state (instance_cpu_data : list InstanceData.t) : GLState :=
  mkGLState
    (mkMemory instance_cpu_data ∅ ∅ ∅ [])
    (mkBindings ∅ ∅)
    (λ t, match t with
          | GL_SHADER_STORAGE_BUFFER => Some visible_id_ssbo
          | GL_DRAW_INDIRECT_BUFFER => Some command_buffer
          | GL_ATOMIC_COUNTER_BUFFER => Some counter_buffer
          | _ => None
          end)
    None (λ _, ∅) [] [].

(** The main loop over a finite run of frames: per frame, the user input
    and the order the hardware schedules the dispatch in. *)
Fixpoint main_loop (SliderInt : SliderWidget)
    (frames : list (UserInput * Scheduler)) (cfg : Config) (st : GLState)
  : option (Config * GLState) :=
  match frames with
  | [] => Some (cfg, st)
  | (input, scheduler) :: rest =>
      let cfg' := ui SliderInt input cfg in
      '(_, st') ← frame scheduler cfg' st;
      main_loop SliderInt rest cfg' st'
  end.

(* ===================================================================== *)
(** ** Notions used by the statements *)
(* ===================================================================== *)

(** The reference frustum test, as the specification words it:
    [|x| ≤ w ∧ |y| ≤ w] on the clip coordinate. *)
Definition inside_clip_reference (clip_pos : vec4) : Prop :=
  F32.le (F32.abs (vec4_x clip_pos)) (vec4_w clip_pos) = true ∧
  F32.le (F32.abs (vec4_y clip_pos)) (vec4_w clip_pos) = true.

(** Reference evaluation for one element: transform its position by the
    projection, then apply the reference test. *)
Definition visible_reference (projection : mat4) (inst : InstanceData.t) : Prop :=
  inside_clip_reference
    (mat4_mul_vec4 projection
       (Vec4 (vec2_x (InstanceData.position inst))
             (vec2_y (InstanceData.position inst)) F32.zero F32.one)).

(** The shaders' test on element [gid] of an instance store. *)
Definition passes_test (projection : mat4) (insts : list InstanceData.t)
    (gid : Z) : bool :=
  match insts !! Z.to_nat gid with
  | Some inst => is_visible (clip_position projection inst)
  | None => false
  end.

(** What a culling work-item decides for [gid]. *)
Definition selects (total_element_count : Z) (projection : mat4)
    (insts : list InstanceData.t) (gid : Z) : bool :=
  bool_decide (gid < total_element_count) && passes_test projection insts gid.

(** The elements among the first [total_element_count] that pass the test,
    in index order. *)
Definition visible_elements (total_element_count : Z) (projection : mat4)
    (insts : list InstanceData.t) : list Z :=
  filter (λ gid, passes_test projection insts gid = true)
         (seqZ 0 total_element_count).

(** The five stores that write the command [{6, ic, 0, 0, bi}] at slot [k]. *)
Definition command_stores (k ic bi : Z) : list Store :=
  [ (command_buffer, command_field k 0, 6);
    (command_buffer, command_field k 1, ic);
    (command_buffer, command_field k 2, 0);
    (command_buffer, command_field k 3, 0);
    (command_buffer, command_field k 4, bi) ].

(** The stores of a micro-batch dispatch whose selected work-items retire
    in the order [vs], the counter starting at [c]. *)
Fixpoint microbatch_stores (c : Z) (vs : list Z) : list Store :=
  match vs with
  | [] => []
  | gid :: rest => command_stores c 1 gid ++ microbatch_stores (c + 1) rest
  end.

(** The stores of an instanced dispatch over a schedule, the counter
    starting at [c]. *)
Fixpoint instanced_stores (sel : Z -> bool) (c : Z) (schedule : list Z)
  : list Store :=
  match schedule with
  | [] => []
  | gid :: rest =>
      (if bool_decide (gid = 0) then command_stores 0 0 0 else []) ++
      (if sel gid then (visible_id_ssbo, c, gid) :: instanced_stores sel (c + 1) rest
       else instanced_stores sel c rest)
  end.

(** The word indices a list of stores writes in a given buffer. *)
Definition stored_indices (b : Buffer) (stores : list Store) : list Z :=
  (λ e : Store, e.1.2) <$> filter (λ e : Store, e.1.1 = b) stores.

(** The value of the VisibilityCounter. *)
Definition final_count (m : Memory) : option Z := counter_words m !! 0.

(** The element indices held by the output slots [0 .. final_count): the
    [baseInstance] fields of the commands (micro-batch), the entries of the
    visible-index list (instanced). *)
Definition output_elements (mode : RenderMode) (m : Memory) : option (list Z) :=
  n ← final_count m;
  match mode with
  | MICRO_BATCH_INDIRECT =>
      mapM (λ k, DrawElementsIndirectCommand.baseInstance <$>
                   read_command (command_words m) k) (seqZ 0 n)
  | INSTANCED_INDIRECT => mapM (λ k, visible_id_words m !! k) (seqZ 0 n)
  end.

(** Words per output slot: a command has five, a visible index one. *)
Definition slot_words (mode : RenderMode) : Z :=
  match mode with
  | MICRO_BATCH_INDIRECT => 5
  | INSTANCED_INDIRECT => 1
  end.

(** The output buffer of a mode. *)
Definition output_buffer (mode : RenderMode) : Buffer :=
  match mode with
  | MICRO_BATCH_INDIRECT => command_buffer
  | INSTANCED_INDIRECT => visible_id_ssbo
  end.

(** A scheduler is fair when it only rearranges the work-items. *)
Definition fair (scheduler : Scheduler) : Prop :=
  ∀ l, scheduler l ≡ₚ l.

(** The frame states of section 4.4. *)
Inductive Phase :=
  | ResetCounter | Dispatch | Barrier | PatchInstanceCount | Draw
  | RenderOverlay | Present.

Definition phase_of (c : GLCall) : option Phase :=
  match c with
  | Call_glBufferSubData GL_ATOMIC_COUNTER_BUFFER _ _ _ => Some ResetCounter
  | Call_glDispatchCompute _ => Some Dispatch
  | Call_glMemoryBarrier _ => Some Barrier
  | Call_glCopyBufferSubData _ _ _ _ _ => Some PatchInstanceCount
  | Call_glMultiDrawElementsIndirect _ _ _ => Some Draw
  | Call_glDrawElementsIndirect _ => Some Draw
  | Call_ImGui_ImplOpenGL3_RenderDrawData => Some RenderOverlay
  | Call_glfwSwapBuffers => Some Present
  | _ => None
  end.

Definition expected_phases (mode : RenderMode) : list Phase :=
  [ResetCounter; Dispatch; Barrier] ++
  match mode with
  | INSTANCED_INDIRECT => [PatchInstanceCount]
  | MICRO_BATCH_INDIRECT => []
  end ++
  [Draw; RenderOverlay; Present].

(** A barrier argument covers a barrier class when it has the class's bit. *)
Definition covers (barriers bit : Z) : Prop := Z.land barriers bit = bit.

(** ** Closed forms used by the lemmas *)

(** The memory after the counter reset. *)
Definition reset_memory (m : Memory) : Memory :=
  set_words counter_buffer (<[0 := 0]> (counter_words m)) m.

(** A log extended call by call. *)
Definition log_all {A} (log cs : list A) : list A :=
  foldl (λ l c, l ++ [c]) log cs.

(** Effect of the first block of [cull_instanced_main]. *)
Definition instanced_init (gid : Z) (m : Memory) : Memory :=
  if bool_decide (gid = 0) then
    mkMemory (instances m) (visible_id_words m)
      (<[command_field 0 4 := 0]>
         (<[command_field 0 3 := 0]>
            (<[command_field 0 2 := 0]>
               (<[command_field 0 1 := 0]>
                  (<[command_field 0 0 := 6]> (command_words m))))))
      (counter_words m) (store_log m ++ command_stores 0 0 0)
  else m.

(** Effect of the rest of [cull_instanced_main] when the counter is [c]. *)
Definition instanced_emit (selected : bool) (gid c : Z) (m : Memory) : Memory :=
  if selected then
    mkMemory (instances m) (<[c := gid]> (visible_id_words m)) (command_words m)
      (<[0 := c + 1]> (counter_words m))
      (store_log m ++ [(visible_id_ssbo, c, gid)])
  else m.

(** What a micro-batch dispatch does to a memory [m] whose counter is [c],
    when the selected work-items retire in the order [vs]. *)
Definition microbatch_post (m : Memory) (c : Z) (vs : list Z) (m' : Memory)
  : Prop :=
  instances m' = instances m ∧
  visible_id_words m' = visible_id_words m ∧
  counter_words m' = <[0 := c + Z.of_nat (length vs)]> (counter_words m) ∧
  (∀ (k : nat) g, vs !! k = Some g →
     read_command (command_words m') (c + Z.of_nat k) =
       Some (DrawElementsIndirectCommand.mk 6 1 0 0 g)) ∧
  (∀ i, i < 5 * c ∨ 5 * (c + Z.of_nat (length vs)) ≤ i →
     command_words m' !! i = command_words m !! i) ∧
  store_log m' = store_log m ++ microbatch_stores c vs.

(** What an instanced dispatch over [schedule] does to a memory [m] whose
    counter is [c]. *)
Definition instanced_post (sel : Z -> bool) (m : Memory) (c : Z)
    (schedule : list Z) (m' : Memory) : Prop :=
  let vs := filter (λ g, sel g = true) schedule in
  instances m' = instances m ∧
  counter_words m' = <[0 := c + Z.of_nat (length vs)]> (counter_words m) ∧
  (∀ (k : nat) g, vs !! k = Some g →
     visible_id_words m' !! (c + Z.of_nat k) = Some g) ∧
  (∀ i, i < c ∨ c + Z.of_nat (length vs) ≤ i →
     visible_id_words m' !! i = visible_id_words m !! i) ∧
  (0 ∈ schedule →
     read_command (command_words m') 0 =
       Some (DrawElementsIndirectCommand.mk 6 0 0 0 0)) ∧
  (∀ i, (0 ∈ schedule → ¬ 0 ≤ i < 5) →
     command_words m' !! i = command_words m !! i) ∧
  store_log m' = store_log m ++ instanced_stores sel c schedule.

(** The vertex-shader output for one corner of the quad of an element. *)
Definition vertex_output (projection : mat4) (inst : InstanceData.t)
    (a_pos : vec2) : VertexOutput :=
  let final_pos :=
    vec2_add (vec2_mul a_pos (InstanceData.size inst)) (InstanceData.position inst) in
  mkVertexOutput
    (mat4_mul_vec4 projection
       (Vec4 (vec2_x final_pos) (vec2_y final_pos) F32.zero F32.one))
    (InstanceData.color inst).

(** The quad of an element: the corners in the order of [quad_indices]. *)
Definition element_quad (projection : mat4) (inst : InstanceData.t) : Quad :=
  omap (λ idx, vertex_output projection inst <$> quad_vertices !! Z.to_nat idx)
       quad_indices.

Definition element_quad_at (projection : mat4) (insts : list InstanceData.t)
    (gid : Z) : Quad :=
  match insts !! Z.to_nat gid with
  | Some inst => element_quad projection inst
  | None => []
  end.

(** The calls a frame logs, stage by stage. *)
Definition frame_barriers : Z :=
  Z.lor (Z.lor GL_COMMAND_BARRIER_BIT GL_SHADER_STORAGE_BARRIER_BIT)
        GL_ATOMIC_COUNTER_BARRIER_BIT.

Definition cull_calls (cfg : Config) : list GLCall :=
  [ Call_glBindBuffer GL_ATOMIC_COUNTER_BUFFER counter_buffer;
    Call_glBufferSubData GL_ATOMIC_COUNTER_BUFFER 0 4 [0];
    Call_glBindBufferBase GL_SHADER_STORAGE_BUFFER 0 instance_ssbo ] ++
  match current_mode cfg with
  | MICRO_BATCH_INDIRECT =>
      [ Call_glBindBufferBase GL_ATOMIC_COUNTER_BUFFER 2 counter_buffer;
        Call_glUseProgram cull_microbatch_program;
        Call_glUniform1i 0 (element_count cfg);
        Call_glUniformMatrix4fv 1;
        Call_glBindBufferBase GL_SHADER_STORAGE_BUFFER 1 command_buffer;
        Call_glDispatchCompute (num_groups (element_count cfg)) ]
  | INSTANCED_INDIRECT =>
      [ Call_glBindBufferBase GL_ATOMIC_COUNTER_BUFFER 3 counter_buffer;
        Call_glUseProgram cull_instanced_program;
        Call_glUniform1i 0 (element_count cfg);
        Call_glUniformMatrix4fv 1;
        Call_glBindBufferBase GL_SHADER_STORAGE_BUFFER 1 visible_id_ssbo;
        Call_glBindBufferBase GL_SHADER_STORAGE_BUFFER 2 command_buffer;
        Call_glDispatchCompute (num_groups (element_count cfg)) ]
  end.

Definition render_calls (mode : RenderMode) (drawcount : Z) : list GLCall :=
  [ Call_glUseProgram render_program;
    Call_glUniformMatrix4fv 0;
    Call_glBindVertexArray ] ++
  match mode with
  | MICRO_BATCH_INDIRECT =>
      [ Call_glUniform1i 1 0;
        Call_glBindBuffer GL_DRAW_INDIRECT_BUFFER command_buffer;
        Call_glBindBuffer GL_ATOMIC_COUNTER_BUFFER counter_buffer;
        Call_glMapBufferRange GL_ATOMIC_COUNTER_BUFFER 0 4;
        Call_glUnmapBuffer GL_ATOMIC_COUNTER_BUFFER;
        Call_glMultiDrawElementsIndirect 0 drawcount 0 ]
  | INSTANCED_INDIRECT =>
      [ Call_glUniform1i (-1) 1;
        Call_glBindBufferBase GL_SHADER_STORAGE_BUFFER 1 visible_id_ssbo;
        Call_glBindBuffer GL_COPY_READ_BUFFER counter_buffer;
        Call_glBindBuffer GL_COPY_WRITE_BUFFER command_buffer;
        Call_glCopyBufferSubData GL_COPY_READ_BUFFER GL_COPY_WRITE_BUFFER 0 4 4;
        Call_glBindBuffer GL_DRAW_INDIRECT_BUFFER command_buffer;
        Call_glDrawElementsIndirect 0 ]
  end.

Definition present_calls : list GLCall :=
  [ Call_ImGui_Render; Call_ImGui_ImplOpenGL3_RenderDrawData; Call_glfwSwapBuffers ].

Definition frame_calls (cfg : Config) (drawcount : Z) : list GLCall :=
  [Call_glClear] ++ cull_calls cfg ++ [Call_glMemoryBarrier frame_barriers] ++
  render_calls (current_mode cfg) drawcount ++ present_calls.

(** The selected work-items of a frame's dispatch, in the order they
    retire. *)
Definition retired_visible (scheduler : Scheduler) (ec : Z)
    (insts : list InstanceData.t) : list Z :=
  filter (λ g, selects ec frame_projection insts g = true)
         (scheduler (work_items (num_groups ec))).

(** ** A concrete instance store

    One million elements as the start-up loop could generate them:
    positions in [-1, 1), sizes in [0.002, 0.008], colour channels in
    [0.1, 1] with alpha 1.  Element 0 differs from all the others. *)
Definition demo_size : vec2 := Vec2 (F32.lit 1 (-8)) (F32.lit 1 (-8)).

Definition demo_first : InstanceData.t :=
  InstanceData.mk (Vec2 F32.half F32.half) demo_size
                  (Vec4 F32.one F32.half F32.half F32.one).

Definition demo_other : InstanceData.t :=
  InstanceData.mk (Vec2 (F32.neg F32.half) (F32.neg F32.half)) demo_size
                  (Vec4 F32.half F32.one F32.half F32.one).

Definition demo_instances : list InstanceData.t :=
  demo_first :: replicate (Z.to_nat (MAX_ELEMENTS - 1)) demo_other.

(** The first frame of a run in each mode. *)
Definition demo_frame (mode : RenderMode) : option (Z * GLState) :=
  frame id (mkConfig mode 1000) (initial_state demo_instances).

(** ** Capacity *)

(** A store lands inside the allocation of its buffer. *)
Definition in_allocation (e : Store) : Prop := 0 ≤ e.1.2 < capacity e.1.1.

(** What every frame of the main loop starts from: an active count inside
    the slider's bounds, the full instance store, the mode flag of the
    render program reading false, every shader store so far inside its
    buffer, and every element count handed to a culling program inside
    the bounds. *)
Definition loop_invariant (cfg : Config) (st : GLState) : Prop :=
  1000 ≤ element_count cfg ≤ MAX_ELEMENTS ∧
  MAX_ELEMENTS ≤ Z.of_nat (length (instances (memory st))) ∧
  uniform_bool st render_program "is_instanced_mode" = false ∧
  Forall in_allocation (store_log (memory st)) ∧
  (∀ p v, p ≠ render_program →
     Call_glUniform1i (glGetUniformLocation p "total_element_count") v ∈ call_log st →
     1000 ≤ v ≤ MAX_ELEMENTS).

Definition demo_state : GLState := initial_state demo_instances.

(** A scheduler that retires the work-items in decreasing index order. *)
Definition demo_reverse : Scheduler := reverse.

(** A run of two frames: the user asks the slider for five million
    elements in instanced mode, then switches back to micro-batch mode. *)
Definition demo_run : list (UserInput * Scheduler) :=
  [ (mkUserInput false true (Some 5000000), id);
    (mkUserInput true false None, demo_reverse) ].

(** ** The instance data of the demo and the view volume *)

(** A binary32 value as the hardware holds it: a canonical mantissa and an
    exponent in range, or a zero, an infinity or a NaN. *)
Definition valid_float (x : float) : bool := valid_binary F32.prec F32.emax x.

(** Neither an infinity nor a NaN. *)
Definition is_finite_float (x : float) : bool :=
  match x with
  | S754_zero _ | S754_finite _ _ _ => true
  | _ => false
  end.

(** Both coordinates of the position of an element are binary32 values. *)
Definition valid_position (inst : InstanceData.t) : Prop :=
  valid_float (vec2_x (InstanceData.position inst)) = true ∧
  valid_float (vec2_y (InstanceData.position inst)) = true.

(** A world position inside the square [-1, 1] x [-1, 1], bounds included. *)
Definition inside_view (position : vec2) : bool :=
  F32.le (F32.neg F32.one) (vec2_x position) && F32.le (vec2_x position) F32.one &&
  F32.le (F32.neg F32.one) (vec2_y position) && F32.le (vec2_y position) F32.one.

(** What [pos_dist(-1.0f, 1.0f)] yields: a binary32 value between the two
    bounds. *)
Definition pos_dist_range (v : float) : Prop :=
  valid_float v = true ∧
  F32.le (F32.neg F32.one) v = true ∧ F32.le v F32.one = true.

(** An element positioned as the start-up loop of [main] positions it:
    both coordinates in the range of [pos_dist]. *)
Definition position_in_range (inst : InstanceData.t) : Prop :=
  pos_dist_range (vec2_x (InstanceData.position inst)) ∧
  pos_dist_range (vec2_y (InstanceData.position inst)).

(** The start-up loop of [main] that fills [instance_cpu_data].  The
    random engine and the three distributions are the standard library's:
    a distribution maps the state of the engine to a value and the next
    state.  The initialiser list of an element is evaluated left to
    right. *)
Section DataPreparation.
Context {Rng : Type}.
Variables pos_dist size_dist color_dist : Rng → float * Rng.

Definition generate_instance (rng : Rng) : InstanceData.t * Rng :=
  let '(position_x, rng) := pos_dist rng in
  let '(position_y, rng) := pos_dist rng in
  let '(size_x, rng) := size_dist rng in
  let '(size_y, rng) := size_dist rng in
  let '(color_r, rng) := color_dist rng in
  let '(color_g, rng) := color_dist rng in
  let '(color_b, rng) := color_dist rng in
  (InstanceData.mk (Vec2 position_x position_y) (Vec2 size_x size_y)
                   (Vec4 color_r color_g color_b F32.one), rng).

(** [for (int i = 0; i < n; ++i) instance_cpu_data[i] = {...}]. *)
Fixpoint generate_instances (n : nat) (rng : Rng) : list InstanceData.t :=
  match n with
  | O => []
  | S n' =>
      let '(inst, rng) := generate_instance rng in
      inst :: generate_instances n' rng
  end.

(** The vector [instance_cpu_data] that [main] uploads: [MAX_ELEMENTS]
    generated elements. *)
Definition prepare_instance_data (rng : Rng) : list InstanceData.t :=
  generate_instances (Z.to_nat MAX_ELEMENTS) rng.

(** The contract of [uniform_real_distribution] for [pos_dist]. *)
Definition pos_dist_contract : Prop := ∀ rng, pos_dist_range (pos_dist rng).1.
End DataPreparation.

(** ** The statistics overlay *)

(** The main loop again, returning what the line [GPU Draw Commands] of
    the overlay shows in each frame.  The overlay is laid out before the
    frame culls and draws, from the value [gpu_draw_calls] holds then. *)
Fixpoint main_loop_overlay (SliderInt : SliderWidget)
    (frames : list (UserInput * Scheduler)) (cfg : Config)
    (gpu_draw_calls : Z) (st : GLState) : option (list Z) :=
  match frames with
  | [] => Some []
  | (input, scheduler) :: rest =>
      let cfg' := ui SliderInt input cfg in
      let shown := gpu_draw_calls in
      '(gpu_draw_calls, st') ← frame scheduler cfg' st;
      shown_later ← main_loop_overlay SliderInt rest cfg' gpu_draw_calls st';
      Some (shown :: shown_later)
  end.

(** The configuration each frame of a run draws with. *)
Fixpoint frame_configs (SliderInt : SliderWidget) (inputs : list UserInput)
    (cfg : Config) : list Config :=
  match inputs with
  | [] => []
  | input :: rest =>
      let cfg' := ui SliderInt input cfg in
      cfg' :: frame_configs SliderInt rest cfg'
  end.

(** The number of indirect draw commands a frame executes: one per visible
    element in micro-batch mode, one in instanced mode. *)
Definition draw_commands (cfg : Config) (insts : list InstanceData.t) : Z :=
  match current_mode cfg with
  | MICRO_BATCH_INDIRECT =>
      Z.of_nat (length (visible_elements (element_count cfg) frame_projection insts))
  | INSTANCED_INDIRECT => 1
  end.

(** ** Concrete inputs for the added theorems *)

(** A two-element store with both positions in range. *)
Definition demo_pair : list InstanceData.t := [demo_first; demo_other].

(** A distribution that always yields 0.5, over an engine without state. *)
Definition demo_dist : unit → float * unit := λ rng, (F32.half, rng).

(** The start-up state over the two-element store. *)
Definition demo_pair_state : GLState := initial_state demo_pair.

(** The same state with the mode flag of the render program set, as the
    instanced branch means to set it. *)
Definition demo_flag_set : GLState :=
  set_uniforms
    (λ p, match p with
          | render_program => {[ 1 := UInt 1 ]}
          | _ => ∅
          end)
    demo_pair_state.

(** One frame in which the user presses the instanced radio button, and
    one in which the user presses the micro-batch one. *)
Definition demo_press_instanced : UserInput := mkUserInput false true None.

Definition demo_press_micro_batch : UserInput := mkUserInput true false None.

(** What a frame reports and the instance store it ends with. *)
Definition final_report (r : option (Z * GLState)) : Z * list InstanceData.t :=
  match r with
  | Some (n, st) => (n, instances (memory st))
  | None => (0, [])
  end.

(* ===================================================================== *)
(** * Lemmas and theorems *)
(* ===================================================================== *)

(** ** Buffer access *)

Lemma MAX_ELEMENTS_eq : MAX_ELEMENTS = 1000000.
Proof. reflexivity. Qed.

Lemma to_uint_small n : 0 ≤ n ≤ MAX_ELEMENTS → to_uint n = n.
Proof.
  intros H. unfold to_uint, uint32_modulus. rewrite MAX_ELEMENTS_eq in H.
  apply Z.mod_small. lia.
Qed.

Lemma in_capacity_true b i : 0 ≤ i < capacity b → in_capacity b i = true.
Proof. intros H. unfold in_capacity. apply andb_true_iff. split; [apply Z.leb_le|apply Z.ltb_lt]; lia. Qed.

Lemma command_capacity k f :
  0 ≤ k < MAX_ELEMENTS → 0 ≤ f < 5 → 0 ≤ command_field k f < capacity command_buffer.
Proof. unfold command_field, capacity. rewrite MAX_ELEMENTS_eq. lia. Qed.

Lemma ssbo_store_ok bs binding b i v m :
  ssbo_binding bs !! binding = Some b → b ≠ instance_ssbo → 0 ≤ i < capacity b →
  ssbo_store bs binding i v m =
    Some (log_store (b, i, v) (set_words b (<[i := v]> (words b m)) m)).
Proof.
  intros Hb _ Hi. unfold ssbo_store, write_word. rewrite Hb.
  cbn [mbind option_bind]. by rewrite in_capacity_true.
Qed.

Lemma ssbo_load_instance_ok bs binding i m :
  ssbo_binding bs !! binding = Some instance_ssbo → 0 ≤ i →
  ssbo_load_instance bs binding i m = instances m !! Z.to_nat i.
Proof.
  intros Hb Hi. unfold ssbo_load_instance. rewrite Hb. simpl.
  by rewrite (proj2 (Z.leb_le 0 i)).
Qed.

Lemma atomicCounterIncrement_ok bs binding m c :
  atomic_binding bs !! binding = Some counter_buffer →
  counter_words m !! 0 = Some c → 0 ≤ c < MAX_ELEMENTS →
  atomicCounterIncrement bs binding 0 m =
    Some (c, set_words counter_buffer (<[0 := c + 1]> (counter_words m)) m).
Proof.
  intros Hb Hc Hr. unfold atomicCounterIncrement, read_word, write_word.
  rewrite Hb. cbn [mbind option_bind].
  rewrite in_capacity_true by (unfold capacity; lia).
  change (words counter_buffer m) with (counter_words m).
  rewrite Hc. cbn [mbind option_bind]. by rewrite to_uint_small by lia.
Qed.

(** The test on an element that is in the store. *)
Lemma passes_test_lookup projection insts gid inst :
  insts !! Z.to_nat gid = Some inst →
  passes_test projection insts gid = is_visible (clip_position projection inst).
Proof. intros H. unfold passes_test. by rewrite H. Qed.

Section Microbatch.
Variables (bs : Bindings) (total : Z) (projection : mat4).
Hypothesis Hb0 : ssbo_binding bs !! 0 = Some instance_ssbo.
Hypothesis Hb1 : ssbo_binding bs !! 1 = Some command_buffer.
Hypothesis Ha2 : atomic_binding bs !! 2 = Some counter_buffer.

Lemma microbatch_skip gid m :
  0 ≤ gid → total ≤ Z.of_nat (length (instances m)) →
  selects total projection (instances m) gid = false →
  cull_microbatch_main bs total projection gid m = Some m.
Proof.
  intros Hg Hlen Hsel. unfold cull_microbatch_main.
  case_bool_decide as Hge; [done|].
  rewrite ssbo_load_instance_ok by done.
  destruct (instances m !! Z.to_nat gid) as [inst|] eqn:Hi.
  - simpl. unfold selects in Hsel.
    rewrite (passes_test_lookup _ _ _ _ Hi) in Hsel.
    rewrite bool_decide_eq_true_2 in Hsel by lia. simpl in Hsel.
    by rewrite Hsel.
  - apply lookup_ge_None in Hi. lia.
Qed.

Lemma microbatch_emit gid m c :
  0 ≤ gid → selects total projection (instances m) gid = true →
  counter_words m !! 0 = Some c → 0 ≤ c < MAX_ELEMENTS →
  cull_microbatch_main bs total projection gid m =
    Some (mkMemory (instances m) (visible_id_words m)
            (<[command_field c 4 := gid]>
               (<[command_field c 3 := 0]>
                  (<[command_field c 2 := 0]>
                     (<[command_field c 1 := 1]>
                        (<[command_field c 0 := 6]> (command_words m))))))
            (<[0 := c + 1]> (counter_words m))
            (store_log m ++ command_stores c 1 gid)).
Proof.
  intros Hg Hsel Hc Hr. unfold cull_microbatch_main.
  unfold selects in Hsel. apply andb_true_iff in Hsel as [Hlt Hp].
  apply bool_decide_eq_true_1 in Hlt.
  rewrite bool_decide_eq_false_2 by lia.
  rewrite ssbo_load_instance_ok by done.
  unfold passes_test in Hp.
  destruct (instances m !! Z.to_nat gid) as [inst|]; [|done]. simpl.
  rewrite Hp.
  rewrite (atomicCounterIncrement_ok _ _ _ c) by done. simpl.
  repeat (rewrite (ssbo_store_ok _ _ command_buffer) by
            (first [done | apply command_capacity; lia]); simpl).
  unfold log_store, command_stores. simpl.
  by rewrite <- !app_assoc.
Qed.
End Microbatch.

Lemma read_command_inserted ws k c ic fi bv bi :
  read_command
    (<[command_field k 4 := bi]>
       (<[command_field k 3 := bv]>
          (<[command_field k 2 := fi]>
             (<[command_field k 1 := ic]>
                (<[command_field k 0 := c]> ws))))) k =
    Some (DrawElementsIndirectCommand.mk c ic fi bv bi).
Proof.
  unfold read_command, command_field.
  repeat (first [rewrite lookup_insert_eq | rewrite lookup_insert_ne by lia]).
  reflexivity.
Qed.

Lemma read_command_ext ws ws' k :
  (∀ f, 0 ≤ f < 5 → ws' !! command_field k f = ws !! command_field k f) →
  read_command ws' k = read_command ws k.
Proof.
  intros H. unfold read_command. by rewrite !H by lia.
Qed.

Section MicrobatchRun.
Variables (bs : Bindings) (total : Z) (projection : mat4).
Hypothesis Hb0 : ssbo_binding bs !! 0 = Some instance_ssbo.
Hypothesis Hb1 : ssbo_binding bs !! 1 = Some command_buffer.
Hypothesis Ha2 : atomic_binding bs !! 2 = Some counter_buffer.

Lemma run_microbatch schedule : ∀ m c,
  Forall (λ g, 0 ≤ g) schedule →
  total ≤ Z.of_nat (length (instances m)) →
  counter_words m !! 0 = Some c → 0 ≤ c →
  c + Z.of_nat (length (filter (λ g, selects total projection (instances m) g = true) schedule))
    ≤ MAX_ELEMENTS →
  ∃ m', run_work_items (cull_microbatch_main bs total projection) schedule m = Some m' ∧
        microbatch_post m c
          (filter (λ g, selects total projection (instances m) g = true) schedule) m'.
Proof.
  induction schedule as [|g rest IH]; intros m c Hpos Hlen Hc Hc0 Hcap.
  - exists m. split; [done|]. unfold microbatch_post. simpl.
    rewrite Z.add_0_r, insert_id by done. rewrite app_nil_r.
    repeat split; done.
  - apply Forall_cons in Hpos as [Hg Hpos]. simpl.
    rewrite filter_cons in *.
    destruct (decide (selects total projection (instances m) g = true)) as [Hsel|Hsel].
    + rewrite length_cons in Hcap.
      rewrite (microbatch_emit bs total projection Hb0 Hb1 Ha2 g m c) by (try done; lia).
      simpl.
      set (m1 := mkMemory _ _ _ _ _).
      destruct (IH m1 (c + 1)) as (m' & Hrun & Hpost).
      { done. }
      { done. }
      { subst m1. cbn [counter_words]. by rewrite lookup_insert_eq. }
      { lia. }
      { subst m1. cbn [instances]. lia. }
      exists m'. split; [done|].
      destruct Hpost as (Hi & Hv & Hcnt & Hcmd & Hother & Hlog).
      subst m1.
      cbn [instances visible_id_words command_words counter_words store_log] in *.
      repeat split.
      * done.
      * done.
      * rewrite Hcnt, insert_insert_eq, length_cons. f_equal. lia.
      * intros [|k] g' Hk; simpl in Hk.
        -- injection Hk as <-. rewrite Z.add_0_r.
           rewrite <- (read_command_inserted (command_words m) c 6 1 0 0 g).
           apply read_command_ext. intros f Hf. apply Hother.
           left. unfold command_field. lia.
        -- replace (c + Z.of_nat (S k)) with (c + 1 + Z.of_nat k) by lia.
           by apply Hcmd.
      * intros i Hi'. rewrite length_cons in Hi'. rewrite Hother by lia.
        unfold command_field.
        by rewrite !lookup_insert_ne by lia.
      * rewrite Hlog. by rewrite <- app_assoc.
    + apply not_true_is_false in Hsel.
      rewrite (microbatch_skip bs total projection Hb0 g m) by done. simpl.
      by apply IH.
Qed.
End MicrobatchRun.

Section InstancedRun.
Variables (bs : Bindings) (total : Z) (projection : mat4).
Hypothesis Hb0 : ssbo_binding bs !! 0 = Some instance_ssbo.
Hypothesis Hb1 : ssbo_binding bs !! 1 = Some visible_id_ssbo.
Hypothesis Hb2 : ssbo_binding bs !! 2 = Some command_buffer.
Hypothesis Ha3 : atomic_binding bs !! 3 = Some counter_buffer.

Lemma instanced_step gid m c :
  0 ≤ gid → total ≤ Z.of_nat (length (instances m)) →
  counter_words m !! 0 = Some c → 0 ≤ c →
  (selects total projection (instances m) gid = true → c < MAX_ELEMENTS) →
  cull_instanced_main bs total projection gid m =
    Some (instanced_emit (selects total projection (instances m) gid) gid c
            (instanced_init gid m)).
Proof.
  intros Hg Hlen Hc Hc0 Hcap. unfold cull_instanced_main.
  assert (Hinit :
    (if bool_decide (gid = 0) then
       m ← ssbo_store bs 2 (command_field 0 0) 6 m;
       m ← ssbo_store bs 2 (command_field 0 1) 0 m;
       m ← ssbo_store bs 2 (command_field 0 2) 0 m;
       m ← ssbo_store bs 2 (command_field 0 3) 0 m;
       ssbo_store bs 2 (command_field 0 4) 0 m
     else Some m) = Some (instanced_init gid m)).
  { unfold instanced_init. case_bool_decide; [|done].
    repeat (rewrite (ssbo_store_ok _ _ command_buffer) by
              (first [done | apply command_capacity; rewrite ?MAX_ELEMENTS_eq; lia]);
            simpl).
    unfold log_store, command_stores. simpl. by rewrite <- !app_assoc. }
  rewrite Hinit. cbn [mbind option_bind].
  assert (Hinst : instances (instanced_init gid m) = instances m).
  { unfold instanced_init. by case_bool_decide. }
  assert (Hcnt : counter_words (instanced_init gid m) = counter_words m).
  { unfold instanced_init. by case_bool_decide. }
  unfold selects in *.
  destruct (decide (total ≤ gid)) as [Hge|Hge].
  - rewrite (bool_decide_eq_true_2 (total ≤ gid)) by done.
    rewrite (bool_decide_eq_false_2 (gid < total)) by lia. done.
  - rewrite (bool_decide_eq_false_2 (total ≤ gid)) by done.
    rewrite (bool_decide_eq_true_2 (gid < total)) in * by lia.
    rewrite ssbo_load_instance_ok, Hinst by done.
    unfold passes_test in *. cbn [andb] in *.
    destruct (instances m !! Z.to_nat gid) as [inst|] eqn:Hi.
    + cbn [mbind option_bind].
      destruct (is_visible (clip_position projection inst)) eqn:Hv; [|done].
      rewrite (atomicCounterIncrement_ok _ _ _ c) by (rewrite ?Hcnt; first [done | lia]).
      cbn [mbind option_bind].
      rewrite (ssbo_store_ok _ _ visible_id_ssbo) by
        (first [done | unfold capacity; lia]).
      unfold instanced_emit, log_store. simpl. by rewrite Hcnt.
    + apply lookup_ge_None in Hi. lia.
Qed.

Lemma run_instanced schedule : ∀ m c,
  Forall (λ g, 0 ≤ g) schedule →
  total ≤ Z.of_nat (length (instances m)) →
  counter_words m !! 0 = Some c → 0 ≤ c →
  c + Z.of_nat (length (filter (λ g, selects total projection (instances m) g = true) schedule))
    ≤ MAX_ELEMENTS →
  ∃ m', run_work_items (cull_instanced_main bs total projection) schedule m = Some m' ∧
        instanced_post (selects total projection (instances m)) m c schedule m'.
Proof.
  induction schedule as [|g rest IH]; intros m c Hpos Hlen Hc Hc0 Hcap.
  - exists m. split; [done|]. unfold instanced_post. simpl.
    rewrite Z.add_0_r, insert_id by done. rewrite app_nil_r.
    repeat split; try done. intros H. by apply elem_of_nil in H.
  - apply Forall_cons in Hpos as [Hg Hpos]. cbn [run_work_items].
    rewrite (instanced_step g m c); try done.
    2:{ intros Hsel. rewrite filter_cons, decide_True in Hcap by done.
        rewrite length_cons in Hcap. lia. }
    cbn [mbind option_bind].
    set (sel := selects total projection (instances m)) in *.
    set (m1 := instanced_emit (sel g) g c (instanced_init g m)).
    assert (Hi1 : instances m1 = instances m).
    { subst m1. unfold instanced_emit, instanced_init.
      destruct (sel g); case_bool_decide; done. }
    set (c1 := if sel g then c + 1 else c).
    assert (Hc1 : counter_words m1 = <[0 := c1]> (counter_words m)).
    { subst m1 c1. unfold instanced_emit, instanced_init.
      destruct (sel g); case_bool_decide; simpl; by rewrite ?insert_id by done. }
    assert (Hlen1 : Z.of_nat (length (filter (λ g, sel g = true) (g :: rest))) =
                    c1 - c + Z.of_nat (length (filter (λ g, sel g = true) rest))).
    { rewrite filter_cons. subst c1. destruct (sel g) eqn:Hs.
      - rewrite decide_True by done. rewrite length_cons. lia.
      - rewrite decide_False by done. lia. }
    destruct (IH m1 c1) as (m' & Hrun & Hpost).
    { done. }
    { by rewrite Hi1. }
    { rewrite Hc1. by rewrite lookup_insert_eq. }
    { subst c1. destruct (sel g); lia. }
    { rewrite Hi1. fold sel. lia. }
    rewrite Hi1 in Hpost. fold sel in Hpost.
    exists m'. split; [done|].
    destruct Hpost as (Hi & Hcnt & Hvis & Hvother & Hcmd & Hcother & Hlog).
    assert (Hv1 : ∀ i, visible_id_words m1 !! i =
                       if sel g then <[c := g]> (visible_id_words m) !! i
                       else visible_id_words m !! i).
    { intros i. subst m1. unfold instanced_emit, instanced_init.
      destruct (sel g); case_bool_decide; done. }
    assert (Hw1 : command_words m1 = command_words (instanced_init g m)).
    { subst m1. unfold instanced_emit. by destruct (sel g). }
    unfold instanced_post. cbn zeta.
    repeat split.
    + by rewrite Hi.
    + rewrite Hcnt, Hc1, insert_insert_eq, Hlen1. f_equal. lia.
    + rewrite filter_cons. intros k g' Hk.
      destruct (sel g) eqn:Hs.
      * rewrite decide_True in Hk by done. destruct k as [|k]; simpl in Hk.
        -- injection Hk as <-. rewrite Z.add_0_r.
           rewrite Hvother by (subst c1; lia).
           rewrite Hv1. by rewrite lookup_insert_eq.
        -- replace (c + Z.of_nat (S k)) with (c1 + Z.of_nat k) by (subst c1; lia).
           by apply Hvis.
      * rewrite decide_False in Hk by done.
        subst c1. by apply Hvis.
    + intros i Hi'. rewrite Hlen1 in Hi'. rewrite Hvother by (subst c1; destruct (sel g); lia).
      rewrite Hv1. destruct (sel g) eqn:Hs; [|done].
      subst c1. by rewrite lookup_insert_ne by lia.
    + intros H0. destruct (decide (0 ∈ rest)) as [Hr|Hr]; [by apply Hcmd|].
      apply elem_of_cons in H0 as [<-|]; [|done].
      rewrite <- (read_command_inserted (command_words m) 0 6 0 0 0 0).
      apply read_command_ext. intros f Hf.
      rewrite Hcother by done. rewrite Hw1. unfold instanced_init.
      by rewrite bool_decide_eq_true_2.
    + intros i Hi'. rewrite Hcother.
      2:{ intros Hr. apply Hi'. by apply list_elem_of_further. }
      rewrite Hw1. unfold instanced_init. case_bool_decide as H0; [|done].
      subst g. cbn [command_words]. unfold command_field.
      assert (¬ 0 ≤ i < 5) by (apply Hi'; apply list_elem_of_here).
      by rewrite !lookup_insert_ne by lia.
    + rewrite Hlog. cbn [instanced_stores]. subst m1 c1.
      unfold instanced_emit, instanced_init.
      destruct (sel g); case_bool_decide; cbn [store_log];
        rewrite <- ?app_assoc; done.
Qed.
End InstancedRun.

(** ** Lists, schedules and work-items *)

Lemma log_all_app {A} (cs log : list A) : log_all log cs = log ++ cs.
Proof.
  unfold log_all. revert log. induction cs as [|c cs IH]; intros log; simpl.
  - by rewrite app_nil_r.
  - rewrite IH. by rewrite <- app_assoc.
Qed.

Lemma filter_ext_in {A} (P Q : A → Prop) `{∀ x, Decision (P x)}
    `{∀ x, Decision (Q x)} (l : list A) :
  Forall (λ x, P x ↔ Q x) l → filter P l = filter Q l.
Proof.
  induction 1 as [|x l Hx _ IH]; [done|].
  rewrite !filter_cons, IH.
  destruct (decide (P x)), (decide (Q x)); tauto.
Qed.

Lemma filter_none {A} (P : A → Prop) `{∀ x, Decision (P x)} (l : list A) :
  Forall (λ x, ¬ P x) l → filter P l = [].
Proof.
  induction 1 as [|x l Hx _ IH]; [done|].
  by rewrite filter_cons, decide_False, IH.
Qed.

Lemma num_groups_covers ec :
  0 ≤ ec ≤ MAX_ELEMENTS →
  0 ≤ num_groups ec ∧ ec ≤ num_groups ec * local_size_x ∧
  (0 < ec → 0 < num_groups ec).
Proof.
  intros Hec. rewrite MAX_ELEMENTS_eq in Hec.
  unfold num_groups, to_uint, uint32_modulus, local_size_x.
  rewrite Z.quot_div_nonneg by lia.
  rewrite Z.mod_small by (split; [apply Z.div_pos; lia|];
    apply Z.div_lt_upper_bound; lia).
  pose proof (Z.div_mod (ec + 255) 256 ltac:(lia)) as Hdm.
  pose proof (Z.mod_pos_bound (ec + 255) 256 ltac:(lia)) as Hm.
  repeat split; lia.
Qed.

(** Among the dispatched work-items, exactly the visible elements of the
    active prefix are selected. *)
Lemma selects_work_items total projection insts n :
  0 ≤ total ≤ n →
  filter (λ g, selects total projection insts g = true) (seqZ 0 n) =
    visible_elements total projection insts.
Proof.
  intros Hn. replace n with (total + (n - total)) by lia.
  rewrite seqZ_app by lia. rewrite filter_app.
  rewrite (filter_none _ (seqZ (0 + total) _)).
  - rewrite app_nil_r. unfold visible_elements. apply filter_ext_in.
    apply Forall_seqZ. intros g Hg. unfold selects.
    rewrite bool_decide_eq_true_2 by lia. done.
  - apply Forall_seqZ. intros g Hg. unfold selects.
    rewrite bool_decide_eq_false_2 by lia. done.
Qed.

Lemma fair_selected scheduler total projection insts n :
  fair scheduler → 0 ≤ total ≤ n * local_size_x →
  filter (λ g, selects total projection insts g = true) (scheduler (work_items n))
    ≡ₚ visible_elements total projection insts.
Proof.
  intros Hfair Hn. rewrite (Hfair (work_items n)). unfold work_items.
  by rewrite selects_work_items.
Qed.

Lemma fair_nonneg scheduler n :
  fair scheduler → Forall (λ g, 0 ≤ g) (scheduler (work_items n)).
Proof.
  intros Hfair. rewrite (Hfair (work_items n)). unfold work_items.
  apply Forall_seqZ. lia.
Qed.

Lemma fair_first_work_item scheduler n :
  fair scheduler → 0 < n → 0 ∈ scheduler (work_items n).
Proof.
  intros Hfair Hn. rewrite (Hfair (work_items n)). unfold work_items.
  apply elem_of_seqZ. unfold local_size_x. lia.
Qed.

Lemma fair_NoDup scheduler n : fair scheduler → NoDup (scheduler (work_items n)).
Proof.
  intros Hfair. rewrite (Hfair (work_items n)). apply NoDup_seqZ.
Qed.

Lemma visible_elements_length total projection insts :
  0 ≤ total → Z.of_nat (length (visible_elements total projection insts)) ≤ total.
Proof.
  intros Ht. unfold visible_elements.
  pose proof (length_filter (λ g, passes_test projection insts g = true) (seqZ 0 total)) as H.
  rewrite length_seqZ in H. lia.
Qed.

Lemma visible_elements_spec total projection insts gid :
  gid ∈ visible_elements total projection insts ↔
  0 ≤ gid < total ∧ passes_test projection insts gid = true.
Proof.
  unfold visible_elements. rewrite list_elem_of_filter, elem_of_seqZ.
  split; intros [? ?]; split; first [done | lia].
Qed.

Lemma visible_elements_NoDup total projection insts :
  NoDup (visible_elements total projection insts).
Proof. apply NoDup_filter, NoDup_seqZ. Qed.

(** ** The logged stores *)

Lemma stored_indices_app b l1 l2 :
  stored_indices b (l1 ++ l2) = stored_indices b l1 ++ stored_indices b l2.
Proof. unfold stored_indices. by rewrite filter_app, fmap_app. Qed.

Lemma stored_indices_cons b (e : Store) l :
  stored_indices b (e :: l) =
    (if decide (e.1.1 = b) then [e.1.2] else []) ++ stored_indices b l.
Proof.
  unfold stored_indices. rewrite filter_cons. by destruct (decide (e.1.1 = b)).
Qed.

Lemma microbatch_stores_commands vs : ∀ c,
  stored_indices command_buffer (microbatch_stores c vs) =
    seqZ (5 * c) (5 * Z.of_nat (length vs)).
Proof.
  induction vs as [|g vs IH]; intros c; [done|].
  cbn [microbatch_stores]. rewrite stored_indices_app, IH.
  rewrite length_cons.
  replace (5 * Z.of_nat (S (length vs))) with (5 + 5 * Z.of_nat (length vs)) by lia.
  rewrite seqZ_app by lia. f_equal.
  - unfold command_stores, command_field, stored_indices.
    rewrite !filter_cons, filter_nil. simpl.
    rewrite 4!(seqZ_cons _ _) by lia. simpl.
    rewrite seqZ_cons by lia. simpl. rewrite seqZ_nil by lia.
    repeat f_equal; lia.
  - f_equal. lia.
Qed.

Lemma microbatch_stores_only_commands c vs b :
  b ≠ command_buffer → stored_indices b (microbatch_stores c vs) = [].
Proof.
  intros Hb. revert c. induction vs as [|g vs IH]; intros c; [done|].
  cbn [microbatch_stores]. rewrite stored_indices_app, IH.
  unfold command_stores, stored_indices.
  rewrite !filter_cons, filter_nil. simpl.
  by rewrite !decide_False by done.
Qed.

Lemma instanced_stores_visible sel schedule : ∀ c,
  stored_indices visible_id_ssbo (instanced_stores sel c schedule) =
    seqZ c (Z.of_nat (length (filter (λ g, sel g = true) schedule))).
Proof.
  induction schedule as [|g rest IH]; intros c; [done|].
  cbn [instanced_stores]. rewrite stored_indices_app, filter_cons.
  assert (Hinit : stored_indices visible_id_ssbo
            (if bool_decide (g = 0) then command_stores 0 0 0 else []) = []).
  { by case_bool_decide. }
  rewrite Hinit. simpl.
  destruct (sel g) eqn:Hs.
  - rewrite decide_True by done. rewrite length_cons.
    rewrite stored_indices_cons, IH. cbn [fst snd].
    rewrite decide_True by done.
    rewrite (seqZ_cons c) by lia. simpl. f_equal. f_equal; lia.
  - rewrite decide_False by done. apply IH.
Qed.

Lemma instanced_stores_command sel schedule : ∀ c,
  NoDup schedule →
  stored_indices command_buffer (instanced_stores sel c schedule) =
    if bool_decide (0 ∈ schedule) then [0; 1; 2; 3; 4] else [].
Proof.
  induction schedule as [|g rest IH]; intros c Hnd; [done|].
  apply NoDup_cons in Hnd as [Hg Hnd].
  cbn [instanced_stores]. rewrite stored_indices_app.
  assert (Hrest : stored_indices command_buffer
            (if sel g then (visible_id_ssbo, c, g) :: instanced_stores sel (c + 1) rest
             else instanced_stores sel c rest) =
          if bool_decide (0 ∈ rest) then [0; 1; 2; 3; 4] else []).
  { destruct (sel g); [|by apply IH].
    rewrite stored_indices_cons. cbn [fst snd].
    rewrite decide_False by done. by apply IH. }
  rewrite Hrest. destruct (decide (g = 0)) as [->|Hg0].
  - rewrite (bool_decide_eq_true_2 (0 = 0)) by done.
    rewrite (bool_decide_eq_false_2 (0 ∈ rest)) by done.
    rewrite (bool_decide_eq_true_2 (0 ∈ 0 :: rest)) by apply list_elem_of_here.
    done.
  - rewrite (bool_decide_eq_false_2 (g = 0)) by done. simpl.
    rewrite (bool_decide_ext (0 ∈ rest) (0 ∈ g :: rest)); [done|].
    rewrite elem_of_cons.
    split; [by right|]. intros [?|?]; [congruence|done].
Qed.

(** ** Stepping through host code *)

Lemma gl_seq {A B} (ma : GL A) (f : A → GL B) st a st' :
  ma st = Some (a, st') → (ma ≫= f) st = f a st'.
Proof. intros H. unfold mbind, GL_bind. by rewrite H. Qed.

Lemma gl_ret_eq {A} (a : A) (st : GLState) : (mret a : GL A) st = Some (a, st).
Proof. reflexivity. Qed.

Lemma gl_assoc {A B C} (ma : GL A) (f : A → GL B) (k : B → GL C) st :
  ((ma ≫= f) ≫= k) st = (ma ≫= (λ a, f a ≫= k)) st.
Proof. unfold mbind, GL_bind. by destruct (ma st) as [[a st']|]. Qed.

Section Calls.
Variables (m : Memory) (bs : Bindings) (g : Target → option Buffer)
          (p : option Program) (u : Program → gmap Z UniformValue)
          (fb : list Quad) (log : list GLCall).

Lemma gl_call_eq c f :
  gl_call c f (mkGLState m bs g p u fb log) =
    Some (tt, f (mkGLState m bs g p u fb (log ++ [c]))).
Proof. reflexivity. Qed.

Lemma glBindBuffer_eq t b :
  glBindBuffer t b (mkGLState m bs g p u fb log) =
    Some (tt, mkGLState m bs (bind_generic t b g) p u fb
                (log ++ [Call_glBindBuffer t b])).
Proof. reflexivity. Qed.

Lemma glBindBufferBase_eq t i b :
  glBindBufferBase t i b (mkGLState m bs g p u fb log) =
    Some (tt, mkGLState m (bind_indexed t i b bs) (bind_generic t b g) p u fb
                (log ++ [Call_glBindBufferBase t i b])).
Proof. reflexivity. Qed.

Lemma glUseProgram_eq q :
  glUseProgram q (mkGLState m bs g p u fb log) =
    Some (tt, mkGLState m bs g (Some q) u fb (log ++ [Call_glUseProgram q])).
Proof. reflexivity. Qed.

Lemma glUniform1i_eq q location v :
  glUniform1i location v (mkGLState m bs g (Some q) u fb log) =
    Some (tt, mkGLState m bs g (Some q) (update_uniform q location (UInt v) u) fb
                (log ++ [Call_glUniform1i location v])).
Proof. reflexivity. Qed.

Lemma glUniformMatrix4fv_eq q location v :
  glUniformMatrix4fv location v (mkGLState m bs g (Some q) u fb log) =
    Some (tt, mkGLState m bs g (Some q) (update_uniform q location (UMat4 v) u) fb
                (log ++ [Call_glUniformMatrix4fv location])).
Proof. reflexivity. Qed.

Lemma glMemoryBarrier_eq b :
  glMemoryBarrier b (mkGLState m bs g p u fb log) =
    Some (tt, mkGLState m bs g p u fb (log ++ [Call_glMemoryBarrier b])).
Proof. reflexivity. Qed.

Lemma glBindVertexArray_eq :
  glBindVertexArray (mkGLState m bs g p u fb log) =
    Some (tt, mkGLState m bs g p u fb (log ++ [Call_glBindVertexArray])).
Proof. reflexivity. Qed.

Lemma glUnmapBuffer_eq t :
  glUnmapBuffer t (mkGLState m bs g p u fb log) =
    Some (tt, mkGLState m bs g p u fb (log ++ [Call_glUnmapBuffer t])).
Proof. reflexivity. Qed.

Lemma glClear_eq :
  gl_call Call_glClear (set_framebuffer []) (mkGLState m bs g p u fb log) =
    Some (tt, mkGLState m bs g p u [] (log ++ [Call_glClear])).
Proof. reflexivity. Qed.

Lemma overlay_and_present_eq :
  overlay_and_present (mkGLState m bs g p u fb log) =
    Some (tt, mkGLState m bs g p u fb
                (((log ++ [Call_ImGui_Render]) ++
                  [Call_ImGui_ImplOpenGL3_RenderDrawData]) ++
                 [Call_glfwSwapBuffers])).
Proof. reflexivity. Qed.

Lemma reset_counter_eq :
  reset_counter (mkGLState m bs g p u fb log) =
    Some (tt, mkGLState (reset_memory m) bs
                (bind_generic GL_ATOMIC_COUNTER_BUFFER counter_buffer g) p u fb
                ((log ++ [Call_glBindBuffer GL_ATOMIC_COUNTER_BUFFER counter_buffer]) ++
                 [Call_glBufferSubData GL_ATOMIC_COUNTER_BUFFER 0 4 [0]])).
Proof. reflexivity. Qed.

Lemma glMapBufferRange_counter t n :
  g t = Some counter_buffer → counter_words m !! 0 = Some n →
  glMapBufferRange t 0 4 (mkGLState m bs g p u fb log) =
    Some ([n], mkGLState m bs g p u fb (log ++ [Call_glMapBufferRange t 0 4])).
Proof.
  intros Hg Hn. unfold glMapBufferRange, gl_try, log_call.
  cbn [generic_binding memory bindings current_program uniforms framebuffer call_log].
  rewrite Hg. cbn [mbind option_bind].
  change (read_words counter_buffer (word_of_byte 0) (word_of_byte 4) m)
    with (y ← counter_words m !! 0; Some [y]).
  by rewrite Hn.
Qed.

End Calls.

Lemma patch_instance_count_eq m bs g p u fb log n :
  counter_words m !! 0 = Some n →
  patch_instance_count (mkGLState m bs g p u fb log) =
    Some (tt, mkGLState
                (set_words command_buffer (<[1 := n]> (command_words m)) m) bs
                (bind_generic GL_COPY_WRITE_BUFFER command_buffer
                   (bind_generic GL_COPY_READ_BUFFER counter_buffer g)) p u fb
                (((log ++ [Call_glBindBuffer GL_COPY_READ_BUFFER counter_buffer]) ++
                  [Call_glBindBuffer GL_COPY_WRITE_BUFFER command_buffer]) ++
                 [Call_glCopyBufferSubData GL_COPY_READ_BUFFER GL_COPY_WRITE_BUFFER 0 4 4])).
Proof.
  intros Hn. unfold patch_instance_count.
  erewrite gl_seq by apply glBindBuffer_eq.
  erewrite gl_seq by apply glBindBuffer_eq.
  unfold glCopyBufferSubData, gl_try, log_call.
  cbn [generic_binding memory bindings current_program uniforms framebuffer call_log].
  change (bind_generic GL_COPY_WRITE_BUFFER command_buffer
            (bind_generic GL_COPY_READ_BUFFER counter_buffer g) GL_COPY_READ_BUFFER)
    with (Some counter_buffer).
  change (bind_generic GL_COPY_WRITE_BUFFER command_buffer
            (bind_generic GL_COPY_READ_BUFFER counter_buffer g) GL_COPY_WRITE_BUFFER)
    with (Some command_buffer).
  cbn [mbind option_bind].
  change (read_words counter_buffer (word_of_byte 0) (word_of_byte 4) m)
    with (y ← counter_words m !! 0; Some [y]).
  rewrite Hn. reflexivity.
Qed.

(** Run the next call of the host code, chosen by its head symbol. *)
Ltac gl_step :=
  lazymatch goal with
  | |- context [@mbind _ _ _ _ _ ?ma ?st] =>
      lazymatch ma with
      | mbind _ _ => rewrite (gl_assoc _ _ _ st)
      | glBindBuffer _ _ => erewrite (gl_seq ma) by apply glBindBuffer_eq
      | glBindBufferBase _ _ _ => erewrite (gl_seq ma) by apply glBindBufferBase_eq
      | glUseProgram _ => erewrite (gl_seq ma) by apply glUseProgram_eq
      | glUniform1i _ _ => erewrite (gl_seq ma) by apply glUniform1i_eq
      | glUniformMatrix4fv _ _ => erewrite (gl_seq ma) by apply glUniformMatrix4fv_eq
      | glMemoryBarrier _ => erewrite (gl_seq ma) by apply glMemoryBarrier_eq
      | glBindVertexArray => erewrite (gl_seq ma) by apply glBindVertexArray_eq
      | glUnmapBuffer _ => erewrite (gl_seq ma) by apply glUnmapBuffer_eq
      | gl_call Call_glClear _ => erewrite (gl_seq ma) by apply glClear_eq
      | reset_counter => erewrite (gl_seq ma) by apply reset_counter_eq
      | overlay_and_present => erewrite (gl_seq ma) by apply overlay_and_present_eq
      | mret _ => erewrite (gl_seq ma) by apply gl_ret_eq
      end
  end.

Ltac gl_run := repeat gl_step.


(** ** Option-valued maps over lists *)

Lemma mapM_seqZ_lookup {A B} (f : Z → option B) (h : A → B) (vs : list A) :
  ∀ start,
    (∀ (k : nat) x, vs !! k = Some x → f (start + Z.of_nat k) = Some (h x)) →
    mapM f (seqZ start (Z.of_nat (length vs))) = Some (h <$> vs).
Proof.
  induction vs as [|x vs IH]; intros start Hf; [done|].
  rewrite length_cons, seqZ_cons by lia. cbn [mapM fmap list_fmap].
  pose proof (Hf 0%nat x eq_refl) as H0. rewrite Z.add_0_r in H0. rewrite H0.
  replace (Z.pred (Z.of_nat (S (length vs)))) with (Z.of_nat (length vs)) by lia.
  rewrite (IH (Z.succ start)); [done|].
  intros k y Hk. rewrite <- (Hf (S k) y Hk). f_equal. lia.
Qed.

Lemma mapM_fmap_Forall {A B C} (f : B → option C) (h : A → B) (k : A → C)
    (l : list A) :
  Forall (λ x, f (h x) = Some (k x)) l → mapM f (h <$> l) = Some (k <$> l).
Proof.
  induction 1 as [|x l Hx _ IH]; [done|].
  cbn [fmap list_fmap mapM]. rewrite Hx. cbn [mbind option_bind].
  change (mapM f (list_fmap A B h l)) with (mapM f (h <$> l)).
  rewrite IH. done.
Qed.

Lemma mapM_const {A B} (f : A → option B) (y : B) (l : list A) :
  (∀ x, f x = Some y) → mapM f l = Some (replicate (length l) y).
Proof.
  intros Hf. induction l as [|x l IH]; [done|].
  cbn [mapM]. rewrite Hf, IH. done.
Qed.

Lemma concat_singletons {A B} (f : A → B) (l : list A) :
  concat ((λ x, [f x]) <$> l) = f <$> l.
Proof. induction l as [|x l IH]; [done|]. simpl. by f_equal. Qed.

(** ** The draws *)

Lemma read_command_Some_inv ws k c ic fi bv bi :
  read_command ws k = Some (DrawElementsIndirectCommand.mk c ic fi bv bi) →
  ws !! command_field k 0 = Some c ∧ ws !! command_field k 1 = Some ic ∧
  ws !! command_field k 2 = Some fi ∧ ws !! command_field k 3 = Some bv ∧
  ws !! command_field k 4 = Some bi.
Proof.
  unfold read_command. intros H.
  destruct (ws !! command_field k 0); [|done].
  destruct (ws !! command_field k 1); [|done].
  destruct (ws !! command_field k 2); [|done].
  destruct (ws !! command_field k 3); [|done].
  destruct (ws !! command_field k 4); [|done].
  simpl in H. by injection H as -> -> -> -> ->.
Qed.

(** The host's copy replaces the instance count of the first command and
    nothing else of it. *)
Lemma read_command_patched ws n c ic fi bv bi :
  read_command ws 0 = Some (DrawElementsIndirectCommand.mk c ic fi bv bi) →
  read_command (<[1 := n]> ws) 0 = Some (DrawElementsIndirectCommand.mk c n fi bv bi).
Proof.
  intros H. apply read_command_Some_inv in H as (H0 & H1 & H2 & H3 & H4).
  unfold read_command, command_field in *. simpl in *.
  rewrite lookup_insert_eq.
  rewrite !lookup_insert_ne by lia.
  by rewrite H0, H2, H3, H4.
Qed.

Section Draw.
Variables (m : Memory) (bs : Bindings) (g : Target → option Buffer)
          (u : Program → gmap Z UniformValue)
          (fb : list Quad) (log : list GLCall).

Let st := mkGLState m bs g (Some render_program) u fb log.

Hypothesis Hb0 : ssbo_binding bs !! 0 = Some instance_ssbo.
Hypothesis Hflag : uniform_bool st render_program "is_instanced_mode" = false.
Hypothesis Hind : g GL_DRAW_INDIRECT_BUFFER = Some command_buffer.

(** With the flag clear, an instance is the quad of the element named by
    the command's [baseInstance], whatever its [gl_InstanceID]. *)
Lemma draw_instance_base ic bi iid inst :
  0 ≤ bi → instances m !! Z.to_nat bi = Some inst →
  draw_instance st (DrawElementsIndirectCommand.mk 6 ic 0 0 bi) iid =
    Some (element_quad (uniform_mat4 st render_program "projection") inst).
Proof.
  intros Hbi Hinst. unfold draw_instance.
  cbn [DrawElementsIndirectCommand.firstIndex DrawElementsIndirectCommand.count
       DrawElementsIndirectCommand.baseVertex DrawElementsIndirectCommand.baseInstance].
  rewrite Hflag.
  assert (Hvs : ∀ a_pos,
    render_vs_main (bindings st) (uniform_mat4 st render_program "projection")
      false iid bi a_pos (memory st) =
    Some (vertex_output (uniform_mat4 st render_program "projection") inst a_pos)).
  { intros a_pos. unfold render_vs_main. cbn [mbind option_bind].
    subst st. cbn [bindings memory].
    rewrite ssbo_load_instance_ok by done. rewrite Hinst. reflexivity. }
  rewrite (mapM_ext _
    (λ j, idx ← quad_indices !! Z.to_nat j;
          a_pos ← quad_vertices !! Z.to_nat (idx + 0);
          Some (vertex_output (uniform_mat4 st render_program "projection")
                  inst a_pos))).
  - reflexivity.
  - intros j. destruct (quad_indices !! Z.to_nat j) as [idx|]; [|done].
    cbn [mbind option_bind].
    destruct (quad_vertices !! Z.to_nat (idx + 0)) as [a_pos|]; [|done].
    cbn [mbind option_bind]. apply Hvs.
Qed.

Lemma draw_command_base ic bi inst :
  0 ≤ bi → instances m !! Z.to_nat bi = Some inst →
  draw_command st (DrawElementsIndirectCommand.mk 6 ic 0 0 bi) =
    Some (replicate (Z.to_nat ic)
            (element_quad (uniform_mat4 st render_program "projection") inst)).
Proof.
  intros Hbi Hinst. unfold draw_command.
  cbn [DrawElementsIndirectCommand.instanceCount].
  rewrite (mapM_const _ (element_quad (uniform_mat4 st render_program "projection") inst)).
  - by rewrite length_seqZ.
  - intros iid. by apply draw_instance_base.
Qed.

(** The multi-draw over the commands of the visible elements [vs]. *)
Lemma draw_indirect_microbatch vs :
  Z.of_nat (length vs) ≤ MAX_ELEMENTS →
  (∀ (k : nat) gid, vs !! k = Some gid →
     read_command (command_words m) (0 + Z.of_nat k) =
       Some (DrawElementsIndirectCommand.mk 6 1 0 0 gid)) →
  Forall (λ gid, 0 ≤ gid ∧ is_Some (instances m !! Z.to_nat gid)) vs →
  draw_indirect (Z.of_nat (length vs)) st =
    Some (tt, mkGLState m bs g (Some render_program) u
                (fb ++ (element_quad_at (uniform_mat4 st render_program "projection")
                          (instances m) <$> vs)) log).
Proof.
  intros Hlen Hcmd Hinst. unfold draw_indirect.
  unfold st. cbn [current_program generic_binding memory framebuffer].
  rewrite Hind. cbn [mbind option_bind].
  rewrite (mapM_seqZ_lookup _ (DrawElementsIndirectCommand.mk 6 1 0 0) vs 0).
  2:{ intros k gid Hk. rewrite in_capacity_true.
      - by apply Hcmd.
      - apply lookup_lt_Some in Hk. apply command_capacity; lia. }
  cbn [mbind option_bind].
  rewrite (mapM_fmap_Forall _ _
             (λ gid, [element_quad_at
                        (uniform_mat4 (mkGLState m bs g (Some render_program) u fb log)
                           render_program "projection") (instances m) gid])).
  2:{ eapply Forall_impl; [exact Hinst|]. intros gid [Hg [inst Hi]].
      change (draw_command st (DrawElementsIndirectCommand.mk 6 1 0 0 gid) =
              Some [element_quad_at (uniform_mat4 st render_program "projection")
                      (instances m) gid]).
      rewrite (draw_command_base 1 gid inst) by done.
      unfold element_quad_at. rewrite Hi. done. }
  cbn [mbind option_bind]. unfold set_framebuffer.
  cbn [memory bindings generic_binding current_program uniforms framebuffer call_log].
  by rewrite concat_singletons.
Qed.

(** The single instanced draw: [n] instances, each resolved through the
    command's [baseInstance], which is 0. *)
Lemma draw_indirect_instanced n :
  read_command (command_words m) 0 =
    Some (DrawElementsIndirectCommand.mk 6 n 0 0 0) →
  (0 < n → is_Some (instances m !! 0%nat)) →
  draw_indirect 1 st =
    Some (tt, mkGLState m bs g (Some render_program) u
                (fb ++ replicate (Z.to_nat n)
                         (element_quad_at (uniform_mat4 st render_program "projection")
                            (instances m) 0)) log).
Proof.
  intros Hcmd Hinst. unfold draw_indirect.
  unfold st. cbn [current_program generic_binding memory framebuffer].
  rewrite Hind. cbn [mbind option_bind].
  change (seqZ 0 1) with [0]. cbn [mapM].
  change (in_capacity command_buffer (command_field 0 4)) with true.
  cbn match. change (words command_buffer m) with (command_words m).
  rewrite Hcmd. cbn [mbind option_bind mret option_ret mapM].
  destruct (decide (0 < n)) as [Hn|Hn].
  - destruct (Hinst Hn) as [inst Hi]. fold st.
    rewrite (draw_command_base n 0 inst) by done.
    cbn [mbind option_bind mret option_ret concat]. unfold set_framebuffer.
    cbn [memory bindings generic_binding current_program uniforms framebuffer call_log].
    unfold element_quad_at. change (Z.to_nat 0) with 0%nat. rewrite Hi.
    by rewrite app_nil_r.
  - unfold draw_command. cbn [DrawElementsIndirectCommand.instanceCount].
    rewrite seqZ_nil by lia. cbn [mapM mbind option_bind mret option_ret concat].
    unfold set_framebuffer.
    cbn [memory bindings generic_binding current_program uniforms framebuffer call_log].
    replace (Z.to_nat n) with 0%nat by lia. done.
Qed.
End Draw.

Section DrawThroughList.
Variables (m : Memory) (bs : Bindings) (g : Target → option Buffer)
          (u : Program → gmap Z UniformValue)
          (fb : list Quad) (log : list GLCall).

Let st := mkGLState m bs g (Some render_program) u fb log.

Hypothesis Hb0 : ssbo_binding bs !! 0 = Some instance_ssbo.
Hypothesis Hb1 : ssbo_binding bs !! 1 = Some visible_id_ssbo.
Hypothesis Hflag : uniform_bool st render_program "is_instanced_mode" = true.
Hypothesis Hind : g GL_DRAW_INDIRECT_BUFFER = Some command_buffer.

(** With the flag set, an instance is the quad of the element that the
    visible-index list names at its [gl_InstanceID]. *)
Lemma draw_instance_listed ic bi iid gid inst :
  0 ≤ iid < MAX_ELEMENTS → visible_id_words m !! iid = Some gid →
  0 ≤ gid → instances m !! Z.to_nat gid = Some inst →
  draw_instance st (DrawElementsIndirectCommand.mk 6 ic 0 0 bi) iid =
    Some (element_quad (uniform_mat4 st render_program "projection") inst).
Proof.
  intros Hiid Hvis Hgid Hinst. unfold draw_instance.
  cbn [DrawElementsIndirectCommand.firstIndex DrawElementsIndirectCommand.count
       DrawElementsIndirectCommand.baseVertex DrawElementsIndirectCommand.baseInstance].
  rewrite Hflag.
  assert (Hvs : ∀ a_pos,
    render_vs_main (bindings st) (uniform_mat4 st render_program "projection")
      true iid bi a_pos (memory st) =
    Some (vertex_output (uniform_mat4 st render_program "projection") inst a_pos)).
  { intros a_pos. unfold render_vs_main, ssbo_load, read_word.
    subst st. cbn [bindings memory]. rewrite Hb1. cbn [mbind option_bind].
    rewrite in_capacity_true by (unfold capacity; lia).
    change (words visible_id_ssbo m) with (visible_id_words m).
    rewrite Hvis. cbn [mbind option_bind].
    rewrite ssbo_load_instance_ok by done. rewrite Hinst. reflexivity. }
  rewrite (mapM_ext _
    (λ j, idx ← quad_indices !! Z.to_nat j;
          a_pos ← quad_vertices !! Z.to_nat (idx + 0);
          Some (vertex_output (uniform_mat4 st render_program "projection")
                  inst a_pos))).
  - reflexivity.
  - intros j. destruct (quad_indices !! Z.to_nat j) as [idx|]; [|done].
    cbn [mbind option_bind].
    destruct (quad_vertices !! Z.to_nat (idx + 0)) as [a_pos|]; [|done].
    cbn [mbind option_bind]. apply Hvs.
Qed.

(** The single instanced draw when the vertex shader reads the list. *)
Lemma draw_indirect_listed vs :
  Z.of_nat (length vs) ≤ MAX_ELEMENTS →
  read_command (command_words m) 0 =
    Some (DrawElementsIndirectCommand.mk 6 (Z.of_nat (length vs)) 0 0 0) →
  (∀ (k : nat) gid, vs !! k = Some gid →
     visible_id_words m !! (0 + Z.of_nat k) = Some gid) →
  Forall (λ gid, 0 ≤ gid ∧ is_Some (instances m !! Z.to_nat gid)) vs →
  draw_indirect 1 st =
    Some (tt, mkGLState m bs g (Some render_program) u
                (fb ++ (element_quad_at (uniform_mat4 st render_program "projection")
                          (instances m) <$> vs)) log).
Proof.
  intros Hlen Hcmd Hvis Hinst. unfold draw_indirect.
  unfold st. cbn [current_program generic_binding memory framebuffer].
  rewrite Hind. cbn [mbind option_bind].
  change (seqZ 0 1) with [0]. cbn [mapM].
  change (in_capacity command_buffer (command_field 0 4)) with true.
  cbn match. change (words command_buffer m) with (command_words m).
  rewrite Hcmd. cbn [mbind option_bind mret option_ret mapM].
  fold st. unfold draw_command.
  cbn [DrawElementsIndirectCommand.instanceCount].
  rewrite (mapM_seqZ_lookup _
             (element_quad_at (uniform_mat4 st render_program "projection")
                (instances m)) vs 0).
  - cbn [mbind option_bind mret option_ret concat]. unfold set_framebuffer.
    unfold st.
    cbn [memory bindings generic_binding current_program uniforms framebuffer call_log].
    by rewrite app_nil_r.
  - intros k gid Hk. rewrite Forall_forall in Hinst.
    destruct (Hinst gid) as [Hg [inst Hi]]; [by eapply list_elem_of_lookup_2|].
    rewrite (draw_instance_listed _ _ _ gid inst); try done.
    + unfold element_quad_at. by rewrite Hi.
    + apply lookup_lt_Some in Hk. lia.
    + by apply Hvis.
Qed.
End DrawThroughList.

(** ** The culling stage *)

Lemma retired_visible_perm scheduler ec insts :
  fair scheduler → 0 ≤ ec ≤ MAX_ELEMENTS →
  retired_visible scheduler ec insts ≡ₚ visible_elements ec frame_projection insts.
Proof.
  intros Hfair Hec. unfold retired_visible. apply fair_selected; [done|].
  pose proof (num_groups_covers ec Hec). lia.
Qed.

Lemma retired_visible_length scheduler ec insts :
  fair scheduler → 0 ≤ ec ≤ MAX_ELEMENTS →
  Z.of_nat (length (retired_visible scheduler ec insts)) ≤ ec.
Proof.
  intros Hfair Hec. rewrite (retired_visible_perm scheduler ec insts Hfair Hec).
  apply visible_elements_length. lia.
Qed.

Lemma reset_memory_counter m : counter_words (reset_memory m) !! 0 = Some 0.
Proof. unfold reset_memory. simpl. apply lookup_insert_eq. Qed.

Lemma cull_uniforms p ec (u : Program → gmap Z UniformValue) :
  p = cull_microbatch_program ∨ p = cull_instanced_program →
  let u' := update_uniform p (glGetUniformLocation p "projection")
              (UMat4 frame_projection)
              (update_uniform p (glGetUniformLocation p "total_element_count")
                 (UInt ec) u) in
  u' p !! 0 = Some (UInt ec) ∧ u' p !! 1 = Some (UMat4 frame_projection) ∧
  u' render_program = u render_program.
Proof.
  intros [-> | ->]; cbn zeta; unfold update_uniform; simpl;
    (split; [by rewrite lookup_insert_ne, lookup_insert_eq by done|]);
    (split; [by rewrite lookup_insert_eq|done]).
Qed.

Section CullStage.
Variables (scheduler : Scheduler) (ec : Z).
Variables (m : Memory) (bs : Bindings) (g : Target → option Buffer)
          (p : option Program) (u : Program → gmap Z UniformValue)
          (fb : list Quad) (log : list GLCall).
Hypothesis Hfair : fair scheduler.
Hypothesis Hec : 0 ≤ ec ≤ MAX_ELEMENTS.
Hypothesis Hlen : ec ≤ Z.of_nat (length (instances m)).

Lemma cull_stage_microbatch :
  ∃ m' bs' g' u',
    cull_stage scheduler (mkConfig MICRO_BATCH_INDIRECT ec)
               (mkGLState m bs g p u fb log) =
      Some (tt, mkGLState m' bs' g' (Some cull_microbatch_program) u' fb
                  (log_all log (cull_calls (mkConfig MICRO_BATCH_INDIRECT ec)))) ∧
    microbatch_post (reset_memory m) 0 (retired_visible scheduler ec (instances m)) m' ∧
    ssbo_binding bs' !! 0 = Some instance_ssbo ∧
    ssbo_binding bs' !! 1 = Some command_buffer ∧
    u' render_program = u render_program.
Proof.
  unfold cull_stage. cbn [current_mode element_count].
  repeat gl_step.
  set (bs' := bind_indexed _ _ _ _).
  set (g' := bind_generic _ _ _).
  set (u' := update_uniform _ _ _ _).
  destruct (cull_uniforms cull_microbatch_program ec u (or_introl eq_refl))
    as (Hu0 & Hu1 & Hur).
  fold u' in Hu0, Hu1, Hur.
  unfold glDispatchCompute, gl_try, log_call.
  cbn [memory bindings generic_binding current_program uniforms framebuffer
       call_log mbind option_bind compute_main].
  unfold uniform_uint, uniform_mat4, uniform_value.
  cbn [uniforms].
  change (glGetUniformLocation cull_microbatch_program "total_element_count") with 0.
  change (glGetUniformLocation cull_microbatch_program "projection") with 1.
  rewrite Hu0, Hu1. rewrite to_uint_small by done.
  pose proof (num_groups_covers ec Hec) as (Hn0 & Hn & _).
  pose proof (retired_visible_length scheduler ec (instances m) Hfair Hec) as Hvl.
  assert (Hb0 : ssbo_binding bs' !! 0 = Some instance_ssbo).
  { subst bs'. simpl. by rewrite lookup_insert_ne, lookup_insert_eq. }
  assert (Hb1 : ssbo_binding bs' !! 1 = Some command_buffer).
  { subst bs'. simpl. by rewrite lookup_insert_eq. }
  assert (Ha2 : atomic_binding bs' !! 2 = Some counter_buffer).
  { subst bs'. simpl. by rewrite lookup_insert_eq. }
  destruct (run_microbatch bs' ec frame_projection Hb0 Hb1 Ha2
              (scheduler (work_items (num_groups ec))) (reset_memory m) 0)
    as (m' & Hrun & Hpost); try done.
  { by apply fair_nonneg. }
  { apply reset_memory_counter. }
  { change (instances (reset_memory m)) with (instances m).
    fold (retired_visible scheduler ec (instances m)). lia. }
  rewrite Hrun. cbn [mbind option_bind].
  exists m', bs', g', u'. split; [reflexivity|]. done.
Qed.

Lemma cull_stage_instanced :
  ∃ m' bs' g' u',
    cull_stage scheduler (mkConfig INSTANCED_INDIRECT ec)
               (mkGLState m bs g p u fb log) =
      Some (tt, mkGLState m' bs' g' (Some cull_instanced_program) u' fb
                  (log_all log (cull_calls (mkConfig INSTANCED_INDIRECT ec)))) ∧
    instanced_post (selects ec frame_projection (instances m)) (reset_memory m) 0
      (scheduler (work_items (num_groups ec))) m' ∧
    ssbo_binding bs' !! 0 = Some instance_ssbo ∧
    ssbo_binding bs' !! 2 = Some command_buffer ∧
    u' render_program = u render_program.
Proof.
  unfold cull_stage. cbn [current_mode element_count].
  repeat gl_step.
  set (bs' := bind_indexed _ _ _ _).
  set (g' := bind_generic _ _ _).
  set (u' := update_uniform _ _ _ _).
  destruct (cull_uniforms cull_instanced_program ec u (or_intror eq_refl))
    as (Hu0 & Hu1 & Hur).
  fold u' in Hu0, Hu1, Hur.
  unfold glDispatchCompute, gl_try, log_call.
  cbn [memory bindings generic_binding current_program uniforms framebuffer
       call_log mbind option_bind compute_main].
  unfold uniform_uint, uniform_mat4, uniform_value.
  cbn [uniforms].
  change (glGetUniformLocation cull_instanced_program "total_element_count") with 0.
  change (glGetUniformLocation cull_instanced_program "projection") with 1.
  rewrite Hu0, Hu1. rewrite to_uint_small by done.
  pose proof (num_groups_covers ec Hec) as (Hn0 & Hn & _).
  pose proof (retired_visible_length scheduler ec (instances m) Hfair Hec) as Hvl.
  assert (Hb0 : ssbo_binding bs' !! 0 = Some instance_ssbo).
  { subst bs'. simpl. by rewrite 2!lookup_insert_ne, lookup_insert_eq by done. }
  assert (Hb1 : ssbo_binding bs' !! 1 = Some visible_id_ssbo).
  { subst bs'. simpl. by rewrite lookup_insert_ne, lookup_insert_eq. }
  assert (Hb2 : ssbo_binding bs' !! 2 = Some command_buffer).
  { subst bs'. simpl. by rewrite lookup_insert_eq. }
  assert (Ha3 : atomic_binding bs' !! 3 = Some counter_buffer).
  { subst bs'. simpl. by rewrite lookup_insert_eq. }
  destruct (run_instanced bs' ec frame_projection Hb0 Hb1 Hb2 Ha3
              (scheduler (work_items (num_groups ec))) (reset_memory m) 0)
    as (m' & Hrun & Hpost); try done.
  { by apply fair_nonneg. }
  { apply reset_memory_counter. }
  { change (instances (reset_memory m)) with (instances m).
    fold (retired_visible scheduler ec (instances m)). lia. }
  rewrite Hrun. cbn [mbind option_bind].
  exists m', bs', g', u'. split; [reflexivity|]. done.
Qed.
End CullStage.

(** ** Whole frames *)

Lemma retired_visible_in_store scheduler ec insts :
  fair scheduler →
  Forall (λ gid, 0 ≤ gid ∧ is_Some (insts !! Z.to_nat gid))
         (retired_visible scheduler ec insts).
Proof.
  intros Hfair. apply Forall_forall. intros gid Hin.
  unfold retired_visible in Hin. apply list_elem_of_filter in Hin as [Hsel Hin].
  split.
  - pose proof (fair_nonneg scheduler (num_groups ec) Hfair) as Hpos.
    rewrite Forall_forall in Hpos. by apply Hpos.
  - unfold selects, passes_test in Hsel. apply andb_true_iff in Hsel as [_ Hp].
    destruct (insts !! Z.to_nat gid); [by eexists|done].
Qed.

(** The value of the mode flag the vertex shader sees depends only on the
    render program's uniform at location 1. *)
Lemma uniform_bool_flag st :
  uniform_bool st render_program "is_instanced_mode" =
    match uniforms st render_program !! 1 with
    | Some (UInt v) => bool_decide (v ≠ 0)
    | _ => false
    end.
Proof. reflexivity. Qed.

Lemma uniform_mat4_projection st :
  uniform_mat4 st render_program "projection" =
    match uniforms st render_program !! 0 with
    | Some (UMat4 P) => P
    | _ => mat4_zero
    end.
Proof. reflexivity. Qed.

(** The misspelt uniform name has no location in the render program. *)
Lemma misspelt_flag_location :
  glGetUniformLocation render_program "is__instanced_mode" = -1.
Proof. reflexivity. Qed.

Section Frame.
Variables (scheduler : Scheduler) (ec : Z).
Variables (m : Memory) (bs : Bindings) (g : Target → option Buffer)
          (p : option Program) (u : Program → gmap Z UniformValue)
          (fb : list Quad) (log : list GLCall).
Hypothesis Hfair : fair scheduler.
Hypothesis Hec : 0 ≤ ec ≤ MAX_ELEMENTS.
Hypothesis Hlen : ec ≤ Z.of_nat (length (instances m)).

Let vs := retired_visible scheduler ec (instances m).

Lemma frame_microbatch :
  ∃ m' bs' g' u' st_cull,
    cull_stage scheduler (mkConfig MICRO_BATCH_INDIRECT ec)
               (mkGLState m bs g p u [] (log ++ [Call_glClear])) =
      Some (tt, st_cull) ∧
    memory st_cull = m' ∧
    microbatch_post (reset_memory m) 0 vs m' ∧
    frame scheduler (mkConfig MICRO_BATCH_INDIRECT ec)
          (mkGLState m bs g p u fb log) =
      Some (Z.of_nat (length vs),
            mkGLState m' bs' g' (Some render_program) u'
              (element_quad_at frame_projection (instances m) <$> vs)
              (log_all log (frame_calls (mkConfig MICRO_BATCH_INDIRECT ec)
                              (Z.of_nat (length vs))))) ∧
    u' render_program !! 1 = Some (UInt 0).
Proof.
  destruct (cull_stage_microbatch scheduler ec m bs g p u [] (log ++ [Call_glClear])
              Hfair Hec Hlen)
    as (m' & bs1 & g1 & u1 & Hcull & Hpost & Hb0 & Hb1 & Hur).
  pose proof Hpost as (Hi & _ & Hcnt & Hcmd & _ & _).
  fold vs in Hpost, Hcnt, Hcmd.
  assert (Hn : counter_words m' !! 0 = Some (Z.of_nat (length vs))).
  { rewrite Hcnt. by rewrite lookup_insert_eq. }
  unfold frame. gl_step.
  erewrite gl_seq by exact Hcull.
  gl_step. unfold render_stage. cbn [current_mode].
  gl_run.
  erewrite gl_seq by (apply glMapBufferRange_counter; [reflexivity|exact Hn]).
  cbn [lookup list_lookup default id].
  gl_run.
  set (u' := update_uniform _ _ _ _).
  set (g' := bind_generic _ _ _).
  assert (Hu0 : u' render_program !! 0 = Some (UMat4 frame_projection)).
  { subst u'. unfold update_uniform. simpl.
    by rewrite lookup_insert_ne, lookup_insert_eq. }
  assert (Hu1 : u' render_program !! 1 = Some (UInt 0)).
  { subst u'. unfold update_uniform. simpl. by rewrite lookup_insert_eq. }
  pose proof (retired_visible_length scheduler ec (instances m) Hfair Hec) as Hvl.
  fold vs in Hvl.
  erewrite gl_seq.
  2:{ unfold glMultiDrawElementsIndirect, gl_try, log_call.
      cbn [memory bindings generic_binding current_program uniforms framebuffer
           call_log Z.eqb andb].
      apply draw_indirect_microbatch.
      - done.
      - rewrite uniform_bool_flag. cbn [uniforms]. by rewrite Hu1.
      - reflexivity.
      - lia.
      - exact Hcmd.
      - rewrite Hi. apply retired_visible_in_store. done. }
  rewrite uniform_mat4_projection. cbn [uniforms]. rewrite Hu0.
  rewrite Hi. cbn [reset_memory instances set_words].
  gl_run.
  eexists m', bs1, g', u', _. split; [exact Hcull|]. split; [reflexivity|].
  split; [exact Hpost|]. split; [reflexivity|done].
Qed.

Hypothesis Hpos : 0 < ec.

(** The instances an instanced frame draws: through the visible-index
    list when the mode flag is set, element 0 every time when it is not. *)
Lemma frame_instanced :
  ∃ m_cull bs' g' u' st_cull,
    cull_stage scheduler (mkConfig INSTANCED_INDIRECT ec)
               (mkGLState m bs g p u [] (log ++ [Call_glClear])) =
      Some (tt, st_cull) ∧
    memory st_cull = m_cull ∧
    instanced_post (selects ec frame_projection (instances m)) (reset_memory m) 0
      (scheduler (work_items (num_groups ec))) m_cull ∧
    frame scheduler (mkConfig INSTANCED_INDIRECT ec)
          (mkGLState m bs g p u fb log) =
      Some (1,
            mkGLState
              (set_words command_buffer
                 (<[1 := Z.of_nat (length vs)]> (command_words m_cull)) m_cull)
              bs' g' (Some render_program) u'
              (if uniform_bool (mkGLState m bs g p u fb log) render_program
                    "is_instanced_mode"
               then element_quad_at frame_projection (instances m) <$> vs
               else replicate (length vs)
                      (element_quad_at frame_projection (instances m) 0))
              (log_all log (frame_calls (mkConfig INSTANCED_INDIRECT ec) 1))) ∧
    u' render_program !! 1 = u render_program !! 1.
Proof.
  destruct (cull_stage_instanced scheduler ec m bs g p u [] (log ++ [Call_glClear])
              Hfair Hec Hlen)
    as (m' & bs1 & g1 & u1 & Hcull & Hpost & Hb0 & Hb2 & Hur).
  pose proof Hpost as (Hi & Hcnt & Hvis & _ & Hcmd & _ & _).
  fold (retired_visible scheduler ec (instances m)) in Hcnt, Hvis.
  fold vs in Hcnt, Hvis.
  assert (Hn : counter_words m' !! 0 = Some (Z.of_nat (length vs))).
  { rewrite Hcnt. by rewrite lookup_insert_eq. }
  pose proof (num_groups_covers ec Hec) as (_ & _ & Hng).
  specialize (Hcmd (fair_first_work_item scheduler _ Hfair (Hng Hpos))).
  pose proof (retired_visible_length scheduler ec (instances m) Hfair Hec) as Hvl.
  fold vs in Hvl.
  unfold frame. gl_step.
  erewrite gl_seq by exact Hcull.
  gl_step. unfold render_stage. cbn [current_mode].
  gl_run.
  erewrite gl_seq by (apply patch_instance_count_eq; exact Hn).
  gl_run.
  set (u' := update_uniform _ _ _ _).
  set (g' := bind_generic _ _ _).
  set (bs' := bind_indexed _ _ _ _).
  assert (Hu0 : u' render_program !! 0 = Some (UMat4 frame_projection)).
  { subst u'. unfold update_uniform. simpl. by rewrite lookup_insert_eq. }
  assert (Hu1 : u' render_program !! 1 = u render_program !! 1).
  { subst u'. unfold update_uniform. simpl.
    by rewrite lookup_insert_ne, Hur by done. }
  assert (Hflag' : ∀ m0 fb0 log0,
    uniform_bool (mkGLState m0 bs' g' (Some render_program) u' fb0 log0)
      render_program "is_instanced_mode" =
    uniform_bool (mkGLState m bs g p u fb log) render_program "is_instanced_mode").
  { intros. rewrite !uniform_bool_flag. cbn [uniforms]. by rewrite Hu1. }
  assert (Hb0' : ssbo_binding bs' !! 0 = Some instance_ssbo).
  { subst bs'. simpl. by rewrite lookup_insert_ne. }
  assert (Hb1' : ssbo_binding bs' !! 1 = Some visible_id_ssbo).
  { subst bs'. simpl. by rewrite lookup_insert_eq. }
  assert (Hpatched :
    read_command (<[1 := Z.of_nat (length vs)]> (command_words m')) 0 =
      Some (DrawElementsIndirectCommand.mk 6 (Z.of_nat (length vs)) 0 0 0)).
  { exact (read_command_patched _ _ _ _ _ _ _ Hcmd). }
  destruct (uniform_bool (mkGLState m bs g p u fb log) render_program
              "is_instanced_mode") eqn:Hflag.
  - erewrite gl_seq.
    2:{ unfold glDrawElementsIndirect, gl_try, log_call.
        cbn [memory bindings generic_binding current_program uniforms framebuffer
             call_log Z.eqb].
        apply draw_indirect_listed with (vs := vs).
        + exact Hb0'.
        + exact Hb1'.
        + apply Hflag'.
        + reflexivity.
        + lia.
        + exact Hpatched.
        + exact Hvis.
        + cbn [set_words instances]. rewrite Hi.
          apply retired_visible_in_store. done. }
    rewrite uniform_mat4_projection. cbn [uniforms]. rewrite Hu0.
    replace (instances (set_words command_buffer
                          (<[1:=Z.of_nat (length vs)]> (command_words m')) m'))
      with (instances m) by (symmetry; exact Hi).
    gl_run.
    eexists m', bs', g', u', _. split; [exact Hcull|]. split; [reflexivity|].
    split; [exact Hpost|]. split; [reflexivity|done].
  - erewrite gl_seq.
    2:{ unfold glDrawElementsIndirect, gl_try, log_call.
        cbn [memory bindings generic_binding current_program uniforms framebuffer
             call_log Z.eqb].
        apply draw_indirect_instanced with (n := Z.of_nat (length vs)).
        + exact Hb0'.
        + apply Hflag'.
        + reflexivity.
        + exact Hpatched.
        + intros _. cbn [set_words instances]. rewrite Hi.
          cbn [reset_memory set_words instances].
          apply lookup_lt_is_Some. lia. }
    rewrite uniform_mat4_projection. cbn [uniforms]. rewrite Hu0.
    replace (instances (set_words command_buffer
                          (<[1:=Z.of_nat (length vs)]> (command_words m')) m'))
      with (instances m) by (symmetry; exact Hi).
    rewrite Nat2Z.id.
    gl_run.
    eexists m', bs', g', u', _. split; [exact Hcull|]. split; [reflexivity|].
    split; [exact Hpost|]. split; [reflexivity|done].
Qed.
End Frame.

(** ** Visibility *)

(** On binary32 values, [-b ≤ a ≤ b] is [|a| ≤ b]; NaN fails both. *)
Lemma leb_abs (a b : spec_float) :
  F32.ge a (F32.neg b) && F32.le a b = F32.le (F32.abs a) b.
Proof.
  unfold F32.ge, F32.le, F32.neg, F32.abs, SFleb.
  destruct a as [sa|sa| |sa ma ea], b as [sb|sb| |sb mb eb]; simpl;
    repeat match goal with s : bool |- _ => destruct s end; simpl;
    rewrite ?andb_false_r, ?andb_true_r; try reflexivity.
  rewrite (Z.compare_antisym ea eb).
  destruct (ea ?= eb) eqn:He; simpl; try reflexivity.
  change (PosDef.Pos.compare_cont Eq mb ma) with (Pos.compare mb ma).
  change (PosDef.Pos.compare_cont Eq ma mb) with (Pos.compare ma mb).
  rewrite (Pos.compare_antisym ma mb). destruct (ma ?= mb)%positive; reflexivity.
Qed.

(** The shaders' four comparisons are the reference test [|x| ≤ w ∧ |y| ≤ w]. *)
Lemma is_visible_reference clip_pos :
  is_visible clip_pos = true ↔ inside_clip_reference clip_pos.
Proof.
  unfold is_visible, inside_clip_reference.
  rewrite <- !andb_assoc, andb_assoc.
  rewrite !leb_abs. apply andb_true_iff.
Qed.

Lemma passes_test_reference projection insts gid :
  0 ≤ gid →
  passes_test projection insts gid = true ↔
  ∃ inst, insts !! Z.to_nat gid = Some inst ∧ visible_reference projection inst.
Proof.
  intros Hg. unfold passes_test, visible_reference.
  destruct (insts !! Z.to_nat gid) as [inst|].
  - rewrite is_visible_reference. unfold clip_position. split.
    + intros H. by exists inst.
    + by intros (inst' & [= <-] & H).
  - split; [done|]. by intros (inst' & [=] & _).
Qed.

(** A work-item beyond the active prefix changes nothing. *)
Lemma inactive_work_item bs ec projection gid m :
  ec ≤ gid → gid ≠ 0 →
  cull_microbatch_main bs ec projection gid m = Some m ∧
  cull_instanced_main bs ec projection gid m = Some m.
Proof.
  intros Hge Hne. unfold cull_microbatch_main, cull_instanced_main.
  rewrite (bool_decide_eq_false_2 (gid = 0)) by done. cbn [mbind option_bind].
  by rewrite !bool_decide_eq_true_2 by done.
Qed.

(** What the output slots hold after the culling stage of either mode. *)
Lemma cull_stage_output mode scheduler ec st :
  fair scheduler → 0 ≤ ec ≤ MAX_ELEMENTS →
  ec ≤ Z.of_nat (length (instances (memory st))) →
  ∃ st' new,
    cull_stage scheduler (mkConfig mode ec) st = Some (tt, st') ∧
    instances (memory st') = instances (memory st) ∧
    final_count (memory st') =
      Some (Z.of_nat (length (retired_visible scheduler ec (instances (memory st))))) ∧
    output_elements mode (memory st') =
      Some (retired_visible scheduler ec (instances (memory st))) ∧
    store_log (memory st') = store_log (memory st) ++ new ∧
    stored_indices (output_buffer mode) new =
      seqZ 0 (slot_words mode *
              Z.of_nat (length (retired_visible scheduler ec (instances (memory st))))) ∧
    call_log st' = call_log st ++ cull_calls (mkConfig mode ec).
Proof.
  intros Hfair Hec Hlen. destruct st as [m bs g p u fb log].
  cbn [memory call_log] in *. destruct mode.
  - destruct (cull_stage_microbatch scheduler ec m bs g p u fb log Hfair Hec Hlen)
      as (m' & bs' & g' & u' & Hcull & Hpost & _).
    destruct Hpost as (Hi & _ & Hcnt & Hcmd & _ & Hlog).
    eexists _, _. split; [exact Hcull|]. cbn [memory call_log].
    assert (Hn : final_count m' =
                 Some (Z.of_nat (length (retired_visible scheduler ec (instances m))))).
    { unfold final_count. rewrite Hcnt. by rewrite lookup_insert_eq. }
    split; [exact Hi|]. split; [exact Hn|]. split; [|split; [exact Hlog|split]].
    + unfold output_elements. rewrite Hn. cbn [mbind option_bind].
      rewrite (mapM_seqZ_lookup _ id (retired_visible scheduler ec (instances m)) 0).
      * by rewrite list_fmap_id.
      * intros k gid Hk. by rewrite (Hcmd k gid Hk).
    + cbn [output_buffer slot_words]. by rewrite microbatch_stores_commands.
    + apply log_all_app.
  - destruct (cull_stage_instanced scheduler ec m bs g p u fb log Hfair Hec Hlen)
      as (m' & bs' & g' & u' & Hcull & Hpost & _).
    destruct Hpost as (Hi & Hcnt & Hvis & _ & _ & _ & Hlog).
    fold (retired_visible scheduler ec (instances m)) in Hcnt, Hvis.
    eexists _, _. split; [exact Hcull|]. cbn [memory call_log].
    assert (Hn : final_count m' =
                 Some (Z.of_nat (length (retired_visible scheduler ec (instances m))))).
    { unfold final_count. rewrite Hcnt. by rewrite lookup_insert_eq. }
    split; [exact Hi|]. split; [exact Hn|]. split; [|split; [exact Hlog|split]].
    + unfold output_elements. rewrite Hn. cbn [mbind option_bind].
      rewrite (mapM_seqZ_lookup _ id (retired_visible scheduler ec (instances m)) 0).
      * by rewrite list_fmap_id.
      * intros k gid Hk. by rewrite (Hvis k gid Hk).
    + cbn [output_buffer slot_words]. rewrite instanced_stores_visible.
      fold (retired_visible scheduler ec (instances m)). f_equal. lia.
    + apply log_all_app.
Qed.

(** C3.  For either culling variant, the elements selected by a dispatch
    (those the output slots below the final count name) are exactly the
    elements of index below the active count whose position, transformed by
    the projection, satisfies the reference test [|x| ≤ w ∧ |y| ≤ w]; and a
    work-item of index at or beyond the active count leaves the memory
    untouched: nothing tested, nothing counted. *)
Theorem visibility_correct mode scheduler ec st :
  fair scheduler → 0 ≤ ec ≤ MAX_ELEMENTS →
  ec ≤ Z.of_nat (length (instances (memory st))) →
  ∃ st' out,
    cull_stage scheduler (mkConfig mode ec) st = Some (tt, st') ∧
    output_elements mode (memory st') = Some out ∧
    (∀ gid, gid ∈ out ↔
       0 ≤ gid < ec ∧
       ∃ inst, instances (memory st) !! Z.to_nat gid = Some inst ∧
               visible_reference frame_projection inst) ∧
    (∀ clip_pos,
       is_visible clip_pos = true ↔
       (F32.le (F32.neg (vec4_w clip_pos)) (vec4_x clip_pos) = true ∧
        F32.le (vec4_x clip_pos) (vec4_w clip_pos) = true) ∧
       (F32.le (F32.neg (vec4_w clip_pos)) (vec4_y clip_pos) = true ∧
        F32.le (vec4_y clip_pos) (vec4_w clip_pos) = true)) ∧
    (∀ bs gid m, ec ≤ gid → gid ≠ 0 →
       cull_microbatch_main bs ec frame_projection gid m = Some m ∧
       cull_instanced_main bs ec frame_projection gid m = Some m).
Proof.
  intros Hfair Hec Hlen.
  destruct (cull_stage_output mode scheduler ec st Hfair Hec Hlen)
    as (st' & new & Hcull & _ & _ & Hout & _).
  exists st', (retired_visible scheduler ec (instances (memory st))).
  split; [exact Hcull|]. split; [exact Hout|]. split; [|split].
  - intros gid.
    rewrite (retired_visible_perm scheduler ec _ Hfair Hec).
    rewrite visible_elements_spec. split.
    + intros [Hr Hp]. split; [done|]. apply passes_test_reference; [lia|done].
    + intros [Hr Hp]. split; [done|]. apply passes_test_reference; [lia|done].
  - intros clip_pos. unfold is_visible, F32.ge.
    rewrite !andb_true_iff. tauto.
  - intros bs gid m. apply inactive_work_item.
Qed.

(** ** Counter, compaction and command contents *)

Lemma reset_counter_spec st :
  ∃ st0, reset_counter st = Some (tt, st0) ∧
         final_count (memory st0) = Some 0 ∧
         store_log (memory st0) = store_log (memory st) ∧
         instances (memory st0) = instances (memory st).
Proof.
  destruct st as [m bs g p u fb log]. eexists. split; [apply reset_counter_eq|].
  cbn [memory]. split; [apply reset_memory_counter|]. done.
Qed.

Lemma cull_phases cfg : omap phase_of (cull_calls cfg) = [ResetCounter; Dispatch].
Proof. destruct cfg as [[] ec]; reflexivity. Qed.

(** C4.  In every frame of either mode: the counter is 0 after the reset
    and before any store of the dispatch; after the culling stage it equals
    the number of visible elements; the stores of the dispatch into the
    output array write the words of the slots [0 .. finalCount) and no
    others, each exactly once; and the slots hold distinct elements, namely
    exactly the visible ones. *)
Theorem counter_and_compaction mode scheduler ec st :
  fair scheduler → 0 ≤ ec ≤ MAX_ELEMENTS →
  ec ≤ Z.of_nat (length (instances (memory st))) →
  ∃ st0 st' n out new,
    reset_counter st = Some (tt, st0) ∧
    final_count (memory st0) = Some 0 ∧
    store_log (memory st0) = store_log (memory st) ∧
    cull_stage scheduler (mkConfig mode ec) st = Some (tt, st') ∧
    omap phase_of (cull_calls (mkConfig mode ec)) = [ResetCounter; Dispatch] ∧
    call_log st' = call_log st ++ cull_calls (mkConfig mode ec) ∧
    final_count (memory st') = Some n ∧
    n = Z.of_nat (length (visible_elements ec frame_projection (instances (memory st)))) ∧
    store_log (memory st') = store_log (memory st) ++ new ∧
    stored_indices (output_buffer mode) new =
      seqZ 0 (slot_words mode * n) ∧
    output_elements mode (memory st') = Some out ∧
    Z.of_nat (length out) = n ∧ NoDup out ∧
    out ≡ₚ visible_elements ec frame_projection (instances (memory st)).
Proof.
  intros Hfair Hec Hlen.
  destruct (reset_counter_spec st) as (st0 & Hreset & Hzero & Hlog0 & _).
  destruct (cull_stage_output mode scheduler ec st Hfair Hec Hlen)
    as (st' & new & Hcull & _ & Hn & Hout & Hlog & Hidx & Hcalls).
  pose proof (retired_visible_perm scheduler ec (instances (memory st)) Hfair Hec)
    as Hperm.
  exists st0, st', (Z.of_nat (length (retired_visible scheduler ec (instances (memory st))))),
         (retired_visible scheduler ec (instances (memory st))), new.
  repeat split; try done.
  - apply cull_phases.
  - by rewrite Hperm.
  - rewrite Hperm. apply visible_elements_NoDup.
Qed.

(** C5.  After the micro-batch culling stage, every slot below the final
    count holds the command [{6, 1, 0, 0, gid}] of a visible element [gid],
    and every visible element has such a slot. *)
Theorem microbatch_commands scheduler ec st :
  fair scheduler → 0 ≤ ec ≤ MAX_ELEMENTS →
  ec ≤ Z.of_nat (length (instances (memory st))) →
  ∃ st' n,
    cull_stage scheduler (mkConfig MICRO_BATCH_INDIRECT ec) st = Some (tt, st') ∧
    final_count (memory st') = Some n ∧
    (∀ gid, gid ∈ visible_elements ec frame_projection (instances (memory st)) →
       ∃ k, 0 ≤ k < n ∧
            read_command (command_words (memory st')) k =
              Some (DrawElementsIndirectCommand.mk 6 1 0 0 gid)) ∧
    (∀ k, 0 ≤ k < n →
       ∃ gid, gid ∈ visible_elements ec frame_projection (instances (memory st)) ∧
              read_command (command_words (memory st')) k =
                Some (DrawElementsIndirectCommand.mk 6 1 0 0 gid)).
Proof.
  intros Hfair Hec Hlen. destruct st as [m bs g p u fb log]. cbn [memory] in *.
  destruct (cull_stage_microbatch scheduler ec m bs g p u fb log Hfair Hec Hlen)
    as (m' & bs' & g' & u' & Hcull & Hpost & _).
  destruct Hpost as (_ & _ & Hcnt & Hcmd & _ & _).
  pose proof (retired_visible_perm scheduler ec (instances m) Hfair Hec) as Hperm.
  eexists _, (Z.of_nat (length (retired_visible scheduler ec (instances m)))).
  split; [exact Hcull|]. cbn [memory]. split; [|split].
  - unfold final_count. rewrite Hcnt. by rewrite lookup_insert_eq.
  - intros gid Hin. rewrite <- Hperm in Hin.
    apply list_elem_of_lookup in Hin as [k Hk].
    exists (Z.of_nat k). split.
    + apply lookup_lt_Some in Hk. lia.
    + by rewrite <- (Hcmd k gid Hk).
  - intros k Hk.
    destruct (lookup_lt_is_Some_2 (retired_visible scheduler ec (instances m))
                (Z.to_nat k)) as [gid Hgid]; [lia|].
    exists gid. split.
    + rewrite <- Hperm. by eapply list_elem_of_lookup_2.
    + rewrite <- (Hcmd _ gid Hgid). f_equal. lia.
Qed.

(** C6.  On the same instance data, projection and active count, the two
    culling variants leave the same value in the counter, the number of
    elements that pass the visibility test, whatever the two schedules. *)
Theorem count_conservation scheduler1 scheduler2 ec st1 st2 :
  fair scheduler1 → fair scheduler2 → 0 ≤ ec ≤ MAX_ELEMENTS →
  instances (memory st1) = instances (memory st2) →
  ec ≤ Z.of_nat (length (instances (memory st1))) →
  ∃ st1' st2' n,
    cull_stage scheduler1 (mkConfig MICRO_BATCH_INDIRECT ec) st1 = Some (tt, st1') ∧
    cull_stage scheduler2 (mkConfig INSTANCED_INDIRECT ec) st2 = Some (tt, st2') ∧
    final_count (memory st1') = Some n ∧
    final_count (memory st2') = Some n ∧
    n = Z.of_nat (length (visible_elements ec frame_projection (instances (memory st1)))).
Proof.
  intros Hf1 Hf2 Hec Hsame Hlen.
  destruct (cull_stage_output MICRO_BATCH_INDIRECT scheduler1 ec st1 Hf1 Hec Hlen)
    as (st1' & _ & Hc1 & _ & Hn1 & _).
  assert (Hlen2 : ec ≤ Z.of_nat (length (instances (memory st2)))) by by rewrite <- Hsame.
  destruct (cull_stage_output INSTANCED_INDIRECT scheduler2 ec st2 Hf2 Hec Hlen2)
    as (st2' & _ & Hc2 & _ & Hn2 & _).
  exists st1', st2',
    (Z.of_nat (length (visible_elements ec frame_projection (instances (memory st1))))).
  split; [exact Hc1|]. split; [exact Hc2|].
  rewrite Hn1, Hn2, <- Hsame.
  rewrite (retired_visible_perm scheduler1 ec _ Hf1 Hec).
  rewrite (retired_visible_perm scheduler2 ec _ Hf2 Hec). done.
Qed.

(** ** The instanced command and the order of a frame *)

Lemma frame_phases mode ec n :
  omap phase_of (frame_calls (mkConfig mode ec) n) = expected_phases mode.
Proof. destruct mode; reflexivity. Qed.

Lemma frame_barrier_covers cfg n b :
  Call_glMemoryBarrier b ∈ frame_calls cfg n →
  covers b GL_COMMAND_BARRIER_BIT ∧
  covers b GL_SHADER_STORAGE_BARRIER_BIT ∧
  covers b GL_ATOMIC_COUNTER_BARRIER_BIT.
Proof.
  intros H. assert (Hb : b = frame_barriers).
  { destruct cfg as [[] ec]; apply list_elem_of_In in H; simpl in H;
      repeat (destruct H as [H|H]; [try discriminate H|]); try done;
      by injection H. }
  subst b. by vm_compute.
Qed.

(** C7.  In an instanced frame the culling stage leaves the shared command
    as work-item 0 wrote it, [{6, 0, 0, 0, 0}], and the counter at the
    visible count [n]; the frame then changes exactly the word of the
    command's [instanceCount] to [n], so that the command the draw reads
    is [{6, n, 0, 0, 0}] and [n] instances are drawn; the copy is logged
    after the barrier and before the draw. *)
Theorem instance_count_patch scheduler ec st :
  fair scheduler → 0 < ec ≤ MAX_ELEMENTS →
  ec ≤ Z.of_nat (length (instances (memory st))) →
  ∃ st_cull st' n,
    cull_stage scheduler (mkConfig INSTANCED_INDIRECT ec)
               (set_framebuffer [] (log_call Call_glClear st)) = Some (tt, st_cull) ∧
    final_count (memory st_cull) = Some n ∧
    n = Z.of_nat (length (visible_elements ec frame_projection (instances (memory st)))) ∧
    read_command (command_words (memory st_cull)) 0 =
      Some (DrawElementsIndirectCommand.mk 6 0 0 0 0) ∧
    frame scheduler (mkConfig INSTANCED_INDIRECT ec) st = Some (1, st') ∧
    command_words (memory st') =
      <[command_field 0 1 := n]> (command_words (memory st_cull)) ∧
    visible_id_words (memory st') = visible_id_words (memory st_cull) ∧
    counter_words (memory st') = counter_words (memory st_cull) ∧
    read_command (command_words (memory st')) 0 =
      Some (DrawElementsIndirectCommand.mk 6 n 0 0 0) ∧
    Z.of_nat (length (framebuffer st')) = n ∧
    call_log st' = call_log st ++ frame_calls (mkConfig INSTANCED_INDIRECT ec) 1 ∧
    omap phase_of (frame_calls (mkConfig INSTANCED_INDIRECT ec) 1) =
      [ResetCounter; Dispatch; Barrier; PatchInstanceCount; Draw; RenderOverlay; Present].
Proof.
  intros Hfair [Hpos Hmax] Hlen. destruct st as [m bs g p u fb log].
  cbn [memory call_log] in *.
  assert (Hec : 0 ≤ ec ≤ MAX_ELEMENTS) by lia.
  destruct (frame_instanced scheduler ec m bs g p u fb log Hfair Hec Hlen Hpos)
    as (m_cull & bs' & g' & u' & st_cull & Hcull & Hmem & Hpost & Hframe & _).
  destruct Hpost as (_ & Hcnt & _ & _ & Hcmd & _ & _).
  fold (retired_visible scheduler ec (instances m)) in Hcnt, Hframe.
  pose proof (num_groups_covers ec Hec) as (_ & _ & Hng).
  specialize (Hcmd (fair_first_work_item scheduler _ Hfair (Hng Hpos))).
  pose proof (retired_visible_perm scheduler ec (instances m) Hfair Hec) as Hperm.
  set (n := Z.of_nat (length (retired_visible scheduler ec (instances m)))) in *.
  eexists st_cull, _, n.
  split; [exact Hcull|]. rewrite Hmem.
  split; [unfold final_count; rewrite Hcnt; by rewrite lookup_insert_eq|].
  split; [subst n; by rewrite Hperm|].
  split; [exact Hcmd|]. split; [exact Hframe|]. cbn [memory framebuffer call_log].
  split; [reflexivity|]. split; [reflexivity|]. split; [reflexivity|].
  split; [exact (read_command_patched _ _ _ _ _ _ _ Hcmd)|].
  split; [by destruct (uniform_bool _ _ _); rewrite ?length_fmap, ?length_replicate|].
  split; [apply log_all_app|]. reflexivity.
Qed.

(** C8.  Every frame of either mode logs, in this order, the counter reset,
    the culling dispatch, one memory barrier, in instanced mode only the
    instance-count copy, the draw, the overlay and the buffer swap; and the
    barrier has the command, shader-storage and atomic-counter bits. *)
Theorem frame_order mode scheduler ec st :
  fair scheduler → 0 < ec ≤ MAX_ELEMENTS →
  ec ≤ Z.of_nat (length (instances (memory st))) →
  ∃ gpu_draw_calls st',
    frame scheduler (mkConfig mode ec) st = Some (gpu_draw_calls, st') ∧
    call_log st' = call_log st ++ frame_calls (mkConfig mode ec) gpu_draw_calls ∧
    omap phase_of (frame_calls (mkConfig mode ec) gpu_draw_calls) =
      expected_phases mode ∧
    (∀ b, Call_glMemoryBarrier b ∈ frame_calls (mkConfig mode ec) gpu_draw_calls →
       covers b GL_COMMAND_BARRIER_BIT ∧
       covers b GL_SHADER_STORAGE_BARRIER_BIT ∧
       covers b GL_ATOMIC_COUNTER_BARRIER_BIT).
Proof.
  intros Hfair [Hpos Hmax] Hlen. destruct st as [m bs g p u fb log].
  cbn [memory call_log] in *.
  assert (Hec : 0 ≤ ec ≤ MAX_ELEMENTS) by lia. destruct mode.
  - destruct (frame_microbatch scheduler ec m bs g p u fb log Hfair Hec Hlen)
      as (m' & bs' & g' & u' & st_cull & _ & _ & _ & Hframe & _).
    eexists _, _. split; [exact Hframe|]. cbn [call_log].
    split; [apply log_all_app|]. split; [apply frame_phases|].
    intros b. apply frame_barrier_covers.
  - destruct (frame_instanced scheduler ec m bs g p u fb log Hfair Hec Hlen Hpos)
      as (m' & bs' & g' & u' & st_cull & _ & _ & _ & Hframe & _).
    eexists _, _. split; [exact Hframe|]. cbn [call_log].
    split; [apply log_all_app|]. split; [apply frame_phases|].
    intros b. apply frame_barrier_covers.
Qed.

(** C10.  The command block of the instanced culling shader and the
    command array of the micro-batch culling shader are the same buffer
    object.  Work-item 0 of the instanced shader rewrites the first command
    even when the active-count guard rejects it, and whatever the buffer
    held before (for instance the per-element commands of a micro-batch
    frame) and whether or not element 0 is visible, the first command after
    an instanced culling stage is [{6, 0, 0, 0, 0}]. *)
Theorem shared_command_reinitialised scheduler ec st :
  fair scheduler → 0 < ec ≤ MAX_ELEMENTS →
  ec ≤ Z.of_nat (length (instances (memory st))) →
  (∃ st_micro,
     cull_stage scheduler (mkConfig MICRO_BATCH_INDIRECT ec) st = Some (tt, st_micro) ∧
     ssbo_binding (bindings st_micro) !! 1 = Some command_buffer) ∧
  (∃ st',
     cull_stage scheduler (mkConfig INSTANCED_INDIRECT ec) st = Some (tt, st') ∧
     ssbo_binding (bindings st') !! 2 = Some command_buffer ∧
     read_command (command_words (memory st')) 0 =
       Some (DrawElementsIndirectCommand.mk 6 0 0 0 0)) ∧
  (∀ bs projection m,
     ssbo_binding bs !! 2 = Some command_buffer →
     ∃ m', cull_instanced_main bs 0 projection 0 m = Some m' ∧
           read_command (command_words m') 0 =
             Some (DrawElementsIndirectCommand.mk 6 0 0 0 0)).
Proof.
  intros Hfair [Hpos Hmax] Hlen. destruct st as [m bs g p u fb log].
  cbn [memory] in *.
  assert (Hec : 0 ≤ ec ≤ MAX_ELEMENTS) by lia.
  split; [|split].
  - destruct (cull_stage_microbatch scheduler ec m bs g p u fb log Hfair Hec Hlen)
      as (m' & bs' & g' & u' & Hcull & _ & _ & Hb1 & _).
    eexists. split; [exact Hcull|]. exact Hb1.
  - destruct (cull_stage_instanced scheduler ec m bs g p u fb log Hfair Hec Hlen)
      as (m' & bs' & g' & u' & Hcull & Hpost & _ & Hb2 & _).
    destruct Hpost as (_ & _ & _ & _ & Hcmd & _ & _).
    pose proof (num_groups_covers ec Hec) as (_ & _ & Hng).
    eexists. split; [exact Hcull|]. split; [exact Hb2|]. cbn [memory].
    apply Hcmd. by apply fair_first_work_item, Hng.
  - intros bs0 projection m0 Hb2. unfold cull_instanced_main.
    rewrite (bool_decide_eq_true_2 (0 = 0)) by done.
    repeat (rewrite (ssbo_store_ok _ _ command_buffer) by
              (first [done | apply command_capacity; rewrite ?MAX_ELEMENTS_eq; lia]);
            simpl).
    eexists. split; [reflexivity|]. unfold log_store. cbn [command_words].
    apply read_command_inserted.
Qed.

(** ** The mode flag of the render program *)

Lemma fair_id : fair id.
Proof. intros l. reflexivity. Qed.

Lemma demo_instances_length : Z.of_nat (length demo_instances) = MAX_ELEMENTS.
Proof.
  unfold demo_instances. rewrite length_cons, length_replicate.
  rewrite MAX_ELEMENTS_eq. lia.
Qed.

(** In the first thousand elements of the demo store every element is
    visible, and the schedule [id] retires them in index order. *)
Lemma demo_retired_visible :
  retired_visible id 1000 demo_instances = seqZ 0 1000.
Proof. vm_compute. reflexivity. Qed.

Lemma demo_quads_differ :
  element_quad_at frame_projection demo_instances 1 ≠
  element_quad_at frame_projection demo_instances 0.
Proof. vm_compute. discriminate. Qed.

Lemma demo_frame_microbatch :
  ∃ st', demo_frame MICRO_BATCH_INDIRECT = Some (1000, st') ∧
         framebuffer st' =
           element_quad_at frame_projection demo_instances <$> seqZ 0 1000.
Proof.
  assert (Hec : 0 ≤ 1000 ≤ MAX_ELEMENTS) by (rewrite MAX_ELEMENTS_eq; lia).
  assert (Hlen : 1000 ≤ Z.of_nat (length demo_instances)).
  { rewrite demo_instances_length, MAX_ELEMENTS_eq. lia. }
  destruct (frame_microbatch id 1000 (memory (initial_state demo_instances))
              (bindings (initial_state demo_instances))
              (generic_binding (initial_state demo_instances)) None
              (uniforms (initial_state demo_instances)) [] []
              fair_id Hec Hlen)
    as (m' & bs' & g' & u' & st_cull & _ & _ & _ & Hframe & _).
  change (instances (memory (initial_state demo_instances))) with demo_instances
    in Hframe.
  rewrite demo_retired_visible in Hframe.
  eexists. split; [exact Hframe|]. reflexivity.
Qed.

Lemma demo_frame_instanced :
  ∃ st', demo_frame INSTANCED_INDIRECT = Some (1, st') ∧
         uniform_bool st' render_program "is_instanced_mode" = false ∧
         framebuffer st' =
           replicate 1000 (element_quad_at frame_projection demo_instances 0).
Proof.
  assert (Hec : 0 ≤ 1000 ≤ MAX_ELEMENTS) by (rewrite MAX_ELEMENTS_eq; lia).
  assert (Hlen : 1000 ≤ Z.of_nat (length demo_instances)).
  { rewrite demo_instances_length, MAX_ELEMENTS_eq. lia. }
  destruct (frame_instanced id 1000 (memory (initial_state demo_instances))
              (bindings (initial_state demo_instances))
              (generic_binding (initial_state demo_instances)) None
              (uniforms (initial_state demo_instances)) [] []
              fair_id Hec Hlen ltac:(lia))
    as (m' & bs' & g' & u' & st_cull & _ & _ & _ & Hframe & Hu).
  change (instances (memory (initial_state demo_instances))) with demo_instances
    in Hframe.
  change (uniform_bool _ render_program "is_instanced_mode") with false in Hframe.
  cbn match in Hframe.
  rewrite demo_retired_visible in Hframe.
  eexists. split; [exact Hframe|]. split; [|reflexivity].
  rewrite uniform_bool_flag. cbn [uniforms]. rewrite Hu. reflexivity.
Qed.

(** Were the flag set, the vertex shader would read the visible-index list
    and the two modes would render the same quads up to their order. *)
Lemma modes_agree_when_flag_set scheduler1 scheduler2 ec st :
  fair scheduler1 → fair scheduler2 → 0 < ec ≤ MAX_ELEMENTS →
  ec ≤ Z.of_nat (length (instances (memory st))) →
  uniform_bool st render_program "is_instanced_mode" = true →
  ∃ n st_micro st_instanced,
    frame scheduler1 (mkConfig MICRO_BATCH_INDIRECT ec) st = Some (n, st_micro) ∧
    frame scheduler2 (mkConfig INSTANCED_INDIRECT ec) st = Some (1, st_instanced) ∧
    framebuffer st_micro ≡ₚ framebuffer st_instanced.
Proof.
  intros Hf1 Hf2 [Hpos Hmax] Hlen Hflag. destruct st as [m bs g p u fb log].
  cbn [memory] in *. assert (Hec : 0 ≤ ec ≤ MAX_ELEMENTS) by lia.
  destruct (frame_microbatch scheduler1 ec m bs g p u fb log Hf1 Hec Hlen)
    as (m1 & bs1 & g1 & u1 & sc1 & _ & _ & _ & Hmicro & _).
  destruct (frame_instanced scheduler2 ec m bs g p u fb log Hf2 Hec Hlen Hpos)
    as (m2 & bs2 & g2 & u2 & sc2 & _ & _ & _ & Hinst & _).
  rewrite Hflag in Hinst.
  eexists _, _, _. split; [exact Hmicro|]. split; [exact Hinst|].
  cbn [framebuffer]. apply fmap_Permutation.
  rewrite (retired_visible_perm scheduler1 ec _ Hf1 Hec).
  by rewrite (retired_visible_perm scheduler2 ec _ Hf2 Hec).
Qed.

(** C1.  The name the host passes in instanced mode has a doubled
    underscore and is no uniform of the render program, so the call that
    should set [is_instanced_mode] to 1 changes nothing: after the first
    frame of a run in instanced mode the flag still reads false, and each
    of the 1000 instances drawn is the quad of element 0, the element the
    vertex shader finds through [gl_BaseInstance]. *)
Theorem instanced_mode_flag_not_set :
  glGetUniformLocation render_program "is__instanced_mode" = -1 ∧
  glGetUniformLocation render_program "is_instanced_mode" = 1 ∧
  ∃ st',
    demo_frame INSTANCED_INDIRECT = Some (1, st') ∧
    uniform_bool st' render_program "is_instanced_mode" = false ∧
    framebuffer st' = replicate 1000 (element_quad frame_projection demo_first).
Proof.
  split; [reflexivity|]. split; [reflexivity|].
  destruct demo_frame_instanced as (st' & Hframe & Hflag & Hfb).
  exists st'. split; [exact Hframe|]. split; [exact Hflag|].
  rewrite Hfb. reflexivity.
Qed.

(** C2.  On the demo store, same camera and same active count of 1000, the
    quads of the first micro-batch frame and those of the first instanced
    frame are not a permutation of each other: the micro-batch frame draws
    the quad of element 1, the instanced frame draws element 0 only. *)
Theorem modes_render_differently :
  ∃ n st_micro st_instanced,
    demo_frame MICRO_BATCH_INDIRECT = Some (n, st_micro) ∧
    demo_frame INSTANCED_INDIRECT = Some (1, st_instanced) ∧
    ¬ framebuffer st_micro ≡ₚ framebuffer st_instanced.
Proof.
  destruct demo_frame_microbatch as (st1 & Hmicro & Hfb1).
  destruct demo_frame_instanced as (st2 & Hinst & _ & Hfb2).
  exists 1000, st1, st2. split; [exact Hmicro|]. split; [exact Hinst|].
  rewrite Hfb1, Hfb2. intros Hperm.
  assert (Hin : element_quad_at frame_projection demo_instances 1 ∈
                element_quad_at frame_projection demo_instances <$> seqZ 0 1000).
  { apply list_elem_of_fmap. exists 1. split; [done|]. apply elem_of_seqZ. lia. }
  rewrite Hperm in Hin. apply elem_of_replicate in Hin as [Heq _].
  by apply demo_quads_differ.
Qed.

(** ** Capacity of the buffers *)

Lemma command_stores_allocation k ic bi :
  0 ≤ k < MAX_ELEMENTS → Forall in_allocation (command_stores k ic bi).
Proof.
  intros Hk. unfold command_stores.
  repeat (apply Forall_cons; split; [apply command_capacity; lia|]).
  apply Forall_nil_2.
Qed.

Lemma microbatch_stores_allocation vs : ∀ c,
  0 ≤ c → c + Z.of_nat (length vs) ≤ MAX_ELEMENTS →
  Forall in_allocation (microbatch_stores c vs).
Proof.
  induction vs as [|g vs IH]; intros c Hc Hcap; [apply Forall_nil_2|].
  rewrite length_cons in Hcap. cbn [microbatch_stores]. apply Forall_app. split.
  - apply command_stores_allocation. lia.
  - apply IH; lia.
Qed.

Lemma instanced_stores_allocation sel schedule : ∀ c,
  0 ≤ c →
  c + Z.of_nat (length (filter (λ g, sel g = true) schedule)) ≤ MAX_ELEMENTS →
  Forall in_allocation (instanced_stores sel c schedule).
Proof.
  induction schedule as [|g rest IH]; intros c Hc Hcap; [apply Forall_nil_2|].
  rewrite filter_cons in Hcap. cbn [instanced_stores]. apply Forall_app. split.
  - case_bool_decide; [|apply Forall_nil_2].
    apply command_stores_allocation. rewrite MAX_ELEMENTS_eq. lia.
  - destruct (sel g) eqn:Hs.
    + rewrite decide_True in Hcap by done. rewrite length_cons in Hcap.
      apply Forall_cons. split.
      * unfold in_allocation. cbn [fst snd capacity]. lia.
      * apply IH; lia.
    + rewrite decide_False in Hcap by done. by apply IH.
Qed.

Lemma frame_calls_element_count cfg n v :
  Call_glUniform1i 0 v ∈ frame_calls cfg n → v = element_count cfg.
Proof.
  intros H. destruct cfg as [[] ec]; apply list_elem_of_In in H; simpl in H;
    repeat (destruct H as [H|H]; [try discriminate H|]); try done;
    by injection H.
Qed.

Lemma ui_keeps_range SliderInt input cfg :
  slider_keeps_range SliderInt →
  1000 ≤ element_count cfg ≤ MAX_ELEMENTS →
  1000 ≤ element_count (ui SliderInt input cfg) ≤ MAX_ELEMENTS.
Proof. intros Hs Hr. unfold ui. cbn [element_count]. by apply Hs. Qed.

(** A frame started from the invariant completes and re-establishes it. *)
Lemma frame_keeps_invariant scheduler cfg st :
  fair scheduler → loop_invariant cfg st →
  ∃ n st', frame scheduler cfg st = Some (n, st') ∧ loop_invariant cfg st'.
Proof.
  intros Hfair (Hr & Hlen & Hflag & Hstores & Hcalls).
  destruct cfg as [mode ec], st as [m bs g p u fb log].
  cbn [element_count memory call_log] in *.
  assert (Hec : 0 ≤ ec ≤ MAX_ELEMENTS) by lia.
  assert (Hlen' : ec ≤ Z.of_nat (length (instances m))) by lia.
  pose proof (retired_visible_length scheduler ec (instances m) Hfair Hec) as Hvl.
  assert (Hcalls' : ∀ n q v, q ≠ render_program →
            Call_glUniform1i (glGetUniformLocation q "total_element_count") v
              ∈ log_all log (frame_calls (mkConfig mode ec) n) →
            1000 ≤ v ≤ MAX_ELEMENTS).
  { intros n q v Hq Hin. rewrite log_all_app in Hin.
    apply elem_of_app in Hin as [Hin|Hin]; [by eapply Hcalls|].
    assert (Hloc : glGetUniformLocation q "total_element_count" = 0)
      by (by destruct q).
    rewrite Hloc in Hin. apply frame_calls_element_count in Hin. by subst v. }
  destruct mode.
  - destruct (frame_microbatch scheduler ec m bs g p u fb log Hfair Hec Hlen')
      as (m' & bs' & g' & u' & st_cull & _ & _ & Hpost & Hframe & Hu).
    destruct Hpost as (Hi & _ & _ & _ & _ & Hlog).
    eexists _, _. split; [exact Hframe|].
    unfold loop_invariant. cbn [element_count memory call_log].
    split; [done|]. split; [by rewrite Hi|]. split; [|split].
    + rewrite uniform_bool_flag. cbn [uniforms]. by rewrite Hu.
    + rewrite Hlog. apply Forall_app. split; [exact Hstores|].
      apply microbatch_stores_allocation; lia.
    + apply Hcalls'.
  - destruct (frame_instanced scheduler ec m bs g p u fb log Hfair Hec Hlen'
                ltac:(lia))
      as (m' & bs' & g' & u' & st_cull & _ & _ & Hpost & Hframe & Hu).
    destruct Hpost as (Hi & _ & _ & _ & _ & _ & Hlog).
    eexists _, _. split; [exact Hframe|].
    unfold loop_invariant. cbn [element_count memory call_log set_words instances store_log].
    split; [done|]. split; [by rewrite Hi|]. split; [|split].
    + rewrite uniform_bool_flag. cbn [uniforms]. rewrite Hu.
      by rewrite uniform_bool_flag in Hflag.
    + rewrite Hlog. apply Forall_app. split; [exact Hstores|].
      apply instanced_stores_allocation; [lia|].
      fold (retired_visible scheduler ec (instances m)). lia.
    + apply Hcalls'.
Qed.

Lemma main_loop_keeps_invariant SliderInt frames : ∀ cfg st,
  slider_keeps_range SliderInt → Forall (λ f, fair f.2) frames →
  loop_invariant cfg st →
  ∃ cfg' st', main_loop SliderInt frames cfg st = Some (cfg', st') ∧
              loop_invariant cfg' st'.
Proof.
  induction frames as [|[input scheduler] rest IH]; intros cfg st Hs Hfair Hinv.
  - by exists cfg, st.
  - apply Forall_cons in Hfair as [Hf Hfair]. cbn [snd] in Hf.
    cbn [main_loop].
    assert (Hinv' : loop_invariant (ui SliderInt input cfg) st).
    { destruct Hinv as (Hr & Hrest). split; [|exact Hrest].
      by apply ui_keeps_range. }
    destruct (frame_keeps_invariant scheduler _ st Hf Hinv')
      as (n & st' & Hframe & Hinv'').
    rewrite Hframe. cbn [mbind option_bind].
    by apply IH.
Qed.

Lemma initial_invariant instance_cpu_data :
  MAX_ELEMENTS ≤ Z.of_nat (length instance_cpu_data) →
  loop_invariant initial_config (initial_state instance_cpu_data).
Proof.
  intros Hlen. unfold loop_invariant, initial_config, initial_state.
  cbn [element_count memory instances store_log call_log].
  split; [rewrite MAX_ELEMENTS_eq; lia|]. split; [done|]. split; [reflexivity|].
  split; [apply Forall_nil_2|]. intros q v _ Hin. by apply elem_of_nil in Hin.
Qed.

(** However many frames run and whatever the user selects, the mode flag
    of the render program never reads true. *)
Lemma mode_flag_stays_clear SliderInt frames instance_cpu_data :
  slider_keeps_range SliderInt →
  Forall (λ f : UserInput * Scheduler, fair f.2) frames →
  MAX_ELEMENTS ≤ Z.of_nat (length instance_cpu_data) →
  ∃ cfg st,
    main_loop SliderInt frames initial_config (initial_state instance_cpu_data) =
      Some (cfg, st) ∧
    uniform_bool st render_program "is_instanced_mode" = false.
Proof.
  intros Hs Hfair Hlen.
  destruct (main_loop_keeps_invariant SliderInt frames initial_config
              (initial_state instance_cpu_data) Hs Hfair
              (initial_invariant _ Hlen))
    as (cfg & st & Hloop & _ & _ & Hflag & _).
  by exists cfg, st.
Qed.

(** C9.  From program start, through any run of frames with any user input
    to the radio buttons and to a slider that keeps its value inside its
    bounds, and any scheduling of the dispatches: no frame faults, the
    active count stays in [1000, MAX_ELEMENTS], every element count handed
    to a culling program lies in that range, and every store of either
    culling shader lands inside the allocation of its buffer. *)
Theorem writes_within_capacity SliderInt frames instance_cpu_data :
  slider_keeps_range SliderInt →
  Forall (λ f : UserInput * Scheduler, fair f.2) frames →
  MAX_ELEMENTS ≤ Z.of_nat (length instance_cpu_data) →
  ∃ cfg st,
    main_loop SliderInt frames initial_config (initial_state instance_cpu_data) =
      Some (cfg, st) ∧
    1000 ≤ element_count cfg ≤ MAX_ELEMENTS ∧
    (∀ p v, p ≠ render_program →
       Call_glUniform1i (glGetUniformLocation p "total_element_count") v
         ∈ call_log st →
       1000 ≤ v ≤ MAX_ELEMENTS) ∧
    Forall in_allocation (store_log (memory st)).
Proof.
  intros Hs Hfair Hlen.
  destruct (main_loop_keeps_invariant SliderInt frames initial_config
              (initial_state instance_cpu_data) Hs Hfair
              (initial_invariant _ Hlen))
    as (cfg & st & Hloop & Hr & _ & _ & Hstores & Hcalls).
  by exists cfg, st.
Qed.

(** ** The theorems at a concrete input

    Each theorem above that has hypotheses is applied to the demo store
    with 1000 active elements. *)

Lemma fair_demo_reverse : fair demo_reverse.
Proof. intros l. apply reverse_Permutation. Qed.

Lemma demo_state_length :
  Z.of_nat (length (instances (memory demo_state))) = MAX_ELEMENTS.
Proof. exact demo_instances_length. Qed.

Lemma clamping_slider_keeps_range : slider_keeps_range clamping_slider.
Proof.
  intros [requested|] v v_min v_max H; unfold clamping_slider; lia.
Qed.

Ltac demo_solve :=
  lazymatch goal with
  | |- fair id => exact fair_id
  | |- fair demo_reverse => exact fair_demo_reverse
  | |- slider_keeps_range _ => exact clamping_slider_keeps_range
  | |- Forall _ demo_run =>
      repeat (apply Forall_cons; split; [first [exact fair_id | exact fair_demo_reverse]|]);
      apply Forall_nil_2
  | |- uniform_bool _ _ _ = false => reflexivity
  | |- instances _ = instances _ => reflexivity
  | |- _ = INSTANCED_INDIRECT → _ => intros _; split; [lia|reflexivity]
  | |- _ => rewrite ?demo_state_length, ?demo_instances_length, ?MAX_ELEMENTS_eq; lia
  end.

(** The hypotheses of [visibility_correct] hold on the demo store. *)
Lemma visibility_correct_witness :
  (fair id) ∧
  (0 ≤ 1000 ≤ MAX_ELEMENTS) ∧
  (1000 ≤ Z.of_nat (length (instances (memory demo_state)))) ∧
  (∃ st' out,
    cull_stage id (mkConfig INSTANCED_INDIRECT 1000) demo_state = Some (tt, st') ∧
    output_elements INSTANCED_INDIRECT (memory st') = Some out ∧
    (∀ gid, gid ∈ out ↔
       0 ≤ gid < 1000 ∧
       ∃ inst, instances (memory demo_state) !! Z.to_nat gid = Some inst ∧
               visible_reference frame_projection inst) ∧
    (∀ clip_pos,
       is_visible clip_pos = true ↔
       (F32.le (F32.neg (vec4_w clip_pos)) (vec4_x clip_pos) = true ∧
        F32.le (vec4_x clip_pos) (vec4_w clip_pos) = true) ∧
       (F32.le (F32.neg (vec4_w clip_pos)) (vec4_y clip_pos) = true ∧
        F32.le (vec4_y clip_pos) (vec4_w clip_pos) = true)) ∧
    (∀ bs gid m, 1000 ≤ gid → gid ≠ 0 →
       cull_microbatch_main bs 1000 frame_projection gid m = Some m ∧
       cull_instanced_main bs 1000 frame_projection gid m = Some m)).
Proof.
  split; [demo_solve|].
  split; [demo_solve|].
  split; [demo_solve|].
  apply (visibility_correct INSTANCED_INDIRECT id 1000 demo_state); demo_solve.
Defined.

(** The hypotheses of [counter_and_compaction] hold on the demo store. *)
Lemma counter_and_compaction_witness :
  (fair id) ∧
  (0 ≤ 1000 ≤ MAX_ELEMENTS) ∧
  (1000 ≤ Z.of_nat (length (instances (memory demo_state)))) ∧
  (∃ st0 st' n out new,
    reset_counter demo_state = Some (tt, st0) ∧
    final_count (memory st0) = Some 0 ∧
    store_log (memory st0) = store_log (memory demo_state) ∧
    cull_stage id (mkConfig MICRO_BATCH_INDIRECT 1000) demo_state = Some (tt, st') ∧
    omap phase_of (cull_calls (mkConfig MICRO_BATCH_INDIRECT 1000)) = [ResetCounter; Dispatch] ∧
    call_log st' = call_log demo_state ++ cull_calls (mkConfig MICRO_BATCH_INDIRECT 1000) ∧
    final_count (memory st') = Some n ∧
    n = Z.of_nat (length (visible_elements 1000 frame_projection (instances (memory demo_state)))) ∧
    store_log (memory st') = store_log (memory demo_state) ++ new ∧
    stored_indices (output_buffer MICRO_BATCH_INDIRECT) new =
      seqZ 0 (slot_words MICRO_BATCH_INDIRECT * n) ∧
    output_elements MICRO_BATCH_INDIRECT (memory st') = Some out ∧
    Z.of_nat (length out) = n ∧ NoDup out ∧
    out ≡ₚ visible_elements 1000 frame_projection (instances (memory demo_state))).
Proof.
  split; [demo_solve|].
  split; [demo_solve|].
  split; [demo_solve|].
  apply (counter_and_compaction MICRO_BATCH_INDIRECT id 1000 demo_state); demo_solve.
Defined.

(** The hypotheses of [microbatch_commands] hold on the demo store. *)
Lemma microbatch_commands_witness :
  (fair id) ∧
  (0 ≤ 1000 ≤ MAX_ELEMENTS) ∧
  (1000 ≤ Z.of_nat (length (instances (memory demo_state)))) ∧
  (∃ st' n,
    cull_stage id (mkConfig MICRO_BATCH_INDIRECT 1000) demo_state = Some (tt, st') ∧
    final_count (memory st') = Some n ∧
    (∀ gid, gid ∈ visible_elements 1000 frame_projection (instances (memory demo_state)) →
       ∃ k, 0 ≤ k < n ∧
            read_command (command_words (memory st')) k =
              Some (DrawElementsIndirectCommand.mk 6 1 0 0 gid)) ∧
    (∀ k, 0 ≤ k < n →
       ∃ gid, gid ∈ visible_elements 1000 frame_projection (instances (memory demo_state)) ∧
              read_command (command_words (memory st')) k =
                Some (DrawElementsIndirectCommand.mk 6 1 0 0 gid))).
Proof.
  split; [demo_solve|].
  split; [demo_solve|].
  split; [demo_solve|].
  apply (microbatch_commands id 1000 demo_state); demo_solve.
Defined.

(** The hypotheses of [count_conservation] hold on the demo store. *)
Lemma count_conservation_witness :
  (fair id) ∧
  (fair demo_reverse) ∧
  (0 ≤ 1000 ≤ MAX_ELEMENTS) ∧
  (instances (memory demo_state) = instances (memory demo_state)) ∧
  (1000 ≤ Z.of_nat (length (instances (memory demo_state)))) ∧
  (∃ st1' st2' n,
    cull_stage id (mkConfig MICRO_BATCH_INDIRECT 1000) demo_state = Some (tt, st1') ∧
    cull_stage demo_reverse (mkConfig INSTANCED_INDIRECT 1000) demo_state = Some (tt, st2') ∧
    final_count (memory st1') = Some n ∧
    final_count (memory st2') = Some n ∧
    n = Z.of_nat (length (visible_elements 1000 frame_projection (instances (memory demo_state))))).
Proof.
  split; [demo_solve|].
  split; [demo_solve|].
  split; [demo_solve|].
  split; [demo_solve|].
  split; [demo_solve|].
  apply (count_conservation id demo_reverse 1000 demo_state demo_state); demo_solve.
Defined.

(** The hypotheses of [instance_count_patch] hold on the demo store. *)
Lemma instance_count_patch_witness :
  (fair id) ∧
  (0 < 1000 ≤ MAX_ELEMENTS) ∧
  (1000 ≤ Z.of_nat (length (instances (memory demo_state)))) ∧
  (∃ st_cull st' n,
    cull_stage id (mkConfig INSTANCED_INDIRECT 1000)
               (set_framebuffer [] (log_call Call_glClear demo_state)) = Some (tt, st_cull) ∧
    final_count (memory st_cull) = Some n ∧
    n = Z.of_nat (length (visible_elements 1000 frame_projection (instances (memory demo_state)))) ∧
    read_command (command_words (memory st_cull)) 0 =
      Some (DrawElementsIndirectCommand.mk 6 0 0 0 0) ∧
    frame id (mkConfig INSTANCED_INDIRECT 1000) demo_state = Some (1, st') ∧
    command_words (memory st') =
      <[command_field 0 1 := n]> (command_words (memory st_cull)) ∧
    visible_id_words (memory st') = visible_id_words (memory st_cull) ∧
    counter_words (memory st') = counter_words (memory st_cull) ∧
    read_command (command_words (memory st')) 0 =
      Some (DrawElementsIndirectCommand.mk 6 n 0 0 0) ∧
    Z.of_nat (length (framebuffer st')) = n ∧
    call_log st' = call_log demo_state ++ frame_calls (mkConfig INSTANCED_INDIRECT 1000) 1 ∧
    omap phase_of (frame_calls (mkConfig INSTANCED_INDIRECT 1000) 1) =
      [ResetCounter; Dispatch; Barrier; PatchInstanceCount; Draw; RenderOverlay; Present]).
Proof.
  split; [demo_solve|].
  split; [demo_solve|].
  split; [demo_solve|].
  apply (instance_count_patch id 1000 demo_state); demo_solve.
Defined.

(** The hypotheses of [frame_order] hold on the demo store. *)
Lemma frame_order_witness :
  (fair id) ∧
  (0 < 1000 ≤ MAX_ELEMENTS) ∧
  (1000 ≤ Z.of_nat (length (instances (memory demo_state)))) ∧
  (∃ gpu_draw_calls st',
    frame id (mkConfig INSTANCED_INDIRECT 1000) demo_state = Some (gpu_draw_calls, st') ∧
    call_log st' = call_log demo_state ++ frame_calls (mkConfig INSTANCED_INDIRECT 1000) gpu_draw_calls ∧
    omap phase_of (frame_calls (mkConfig INSTANCED_INDIRECT 1000) gpu_draw_calls) =
      expected_phases INSTANCED_INDIRECT ∧
    (∀ b, Call_glMemoryBarrier b ∈ frame_calls (mkConfig INSTANCED_INDIRECT 1000) gpu_draw_calls →
       covers b GL_COMMAND_BARRIER_BIT ∧
       covers b GL_SHADER_STORAGE_BARRIER_BIT ∧
       covers b GL_ATOMIC_COUNTER_BARRIER_BIT)).
Proof.
  split; [demo_solve|].
  split; [demo_solve|].
  split; [demo_solve|].
  apply (frame_order INSTANCED_INDIRECT id 1000 demo_state); demo_solve.
Defined.

(** The hypotheses of [shared_command_reinitialised] hold on the demo store. *)
Lemma shared_command_reinitialised_witness :
  (fair id) ∧
  (0 < 1000 ≤ MAX_ELEMENTS) ∧
  (1000 ≤ Z.of_nat (length (instances (memory demo_state)))) ∧
  ((∃ st_micro,
     cull_stage id (mkConfig MICRO_BATCH_INDIRECT 1000) demo_state = Some (tt, st_micro) ∧
     ssbo_binding (bindings st_micro) !! 1 = Some command_buffer) ∧
  (∃ st',
     cull_stage id (mkConfig INSTANCED_INDIRECT 1000) demo_state = Some (tt, st') ∧
     ssbo_binding (bindings st') !! 2 = Some command_buffer ∧
     read_command (command_words (memory st')) 0 =
       Some (DrawElementsIndirectCommand.mk 6 0 0 0 0)) ∧
  (∀ bs projection m,
     ssbo_binding bs !! 2 = Some command_buffer →
     ∃ m', cull_instanced_main bs 0 projection 0 m = Some m' ∧
           read_command (command_words m') 0 =
             Some (DrawElementsIndirectCommand.mk 6 0 0 0 0))).
Proof.
  split; [demo_solve|].
  split; [demo_solve|].
  split; [demo_solve|].
  apply (shared_command_reinitialised id 1000 demo_state); demo_solve.
Defined.

(** The hypotheses of [writes_within_capacity] hold on the demo store. *)
Lemma writes_within_capacity_witness :
  (slider_keeps_range clamping_slider) ∧
  (Forall (λ f : UserInput * Scheduler, fair f.2) demo_run) ∧
  (MAX_ELEMENTS ≤ Z.of_nat (length demo_instances)) ∧
  (∃ cfg st,
    main_loop clamping_slider demo_run initial_config (initial_state demo_instances) =
      Some (cfg, st) ∧
    1000 ≤ element_count cfg ≤ MAX_ELEMENTS ∧
    (∀ p v, p ≠ render_program →
       Call_glUniform1i (glGetUniformLocation p "total_element_count") v
         ∈ call_log st →
       1000 ≤ v ≤ MAX_ELEMENTS) ∧
    Forall in_allocation (store_log (memory st))).
Proof.
  split; [demo_solve|].
  split; [demo_solve|].
  split; [demo_solve|].
  apply (writes_within_capacity clamping_slider demo_run demo_instances); demo_solve.
Defined.

(** ** The frame's projection and the view volume *)

Lemma one_eq : F32.one = S754_finite false 8388608 (-23).
Proof. reflexivity. Qed.

(** [glm::ortho(-1, 1, -1, 1, -1, 1)]: the scale entries are 1, 1, -1 and
    the translation entries are negative zeros. *)
Lemma frame_projection_eq :
  frame_projection =
    Mat4 (Vec4 F32.one F32.zero F32.zero F32.zero)
         (Vec4 F32.zero F32.one F32.zero F32.zero)
         (Vec4 F32.zero F32.zero (F32.neg F32.one) F32.zero)
         (Vec4 (S754_zero true) (S754_zero true) (S754_zero true) F32.one).
Proof. vm_compute. reflexivity. Qed.

(** Multiplying a binary32 value by 1 is exact. *)
Lemma mul_one_exact s m e :
  bounded 24 128 m e = true →
  SFmul 24 128 (S754_finite false 8388608 (-23)) (S754_finite s m e) =
    S754_finite s m e.
Proof.
  intros Hb. unfold bounded in Hb. apply andb_true_iff in Hb as [Hc He].
  unfold canonical_mantissa in Hc. apply Z.eqb_eq in Hc.
  unfold SFmul. cbn [xorb].
  change (8388608 * m)%positive
    with (m~0~0~0~0~0~0~0~0~0~0~0~0~0~0~0~0~0~0~0~0~0~0~0)%positive.
  unfold binary_round_aux, shr_fexp.
  cbn [Zdigits2 digits2_pos shr_record_of_loc].
  replace (Z.pos (Pos.succ (Pos.succ (Pos.succ (Pos.succ (Pos.succ (Pos.succ
            (Pos.succ (Pos.succ (Pos.succ (Pos.succ (Pos.succ (Pos.succ
            (Pos.succ (Pos.succ (Pos.succ (Pos.succ (Pos.succ (Pos.succ
            (Pos.succ (Pos.succ (Pos.succ (Pos.succ (Pos.succ
              (digits2_pos m)))))))))))))))))))))))) + (-23 + e))
    with (Z.pos (digits2_pos m) + e) by lia.
  rewrite Hc. replace (e - (-23 + e)) with 23 by lia.
  cbn [shr].
  change (SpecFloat.iter_pos shr_1 23 _)
    with {| shr_m := Z.pos m; shr_r := false; shr_s := false |}.
  cbn [shr_m loc_of_shr_record round_nearest_even Zdigits2].
  replace (-23 + e + 23) with e by lia.
  rewrite Hc, Z.sub_diag. cbn [shr shr_m].
  by rewrite He.
Qed.

Ltac andb_false :=
  first [ reflexivity
        | apply andb_false_intro1; andb_false
        | apply andb_false_intro2; andb_false ].

Ltac unfold_clip :=
  rewrite frame_projection_eq;
  unfold clip_position, mat4_mul_vec4, vec4_add, vec4_scale, is_visible;
  cbn [col0 col1 col2 col3 vec4_x vec4_y vec4_z vec4_w vec2_x vec2_y
       InstanceData.position];
  rewrite one_eq;
  unfold F32.mul, F32.add, F32.ge, F32.le, F32.neg, F32.zero, F32.prec, F32.emax.

(** Under the projection the frame uses, the frustum test is the test of
    the world position against the square [-1, 1] x [-1, 1]: the
    transform changes no coordinate of a binary32 position, and a position
    with a NaN or an infinite coordinate fails both tests. *)
Lemma clip_position_test inst :
  valid_position inst →
  is_visible (clip_position frame_projection inst) =
    inside_view (InstanceData.position inst).
Proof.
  destruct inst as [[x y] sz col]. unfold valid_position.
  cbn [InstanceData.position vec2_x vec2_y].
  intros [Hx Hy]. unfold_clip. unfold inside_view. rewrite one_eq.
  cbn [vec2_x vec2_y]. unfold F32.le, F32.neg.
  destruct x as [sx|sx| |sx mx ex], y as [sy|sy| |sy my ey];
    try (destruct sx); try (destruct sy);
    rewrite ?(mul_one_exact _ _ _ Hx), ?(mul_one_exact _ _ _ Hy);
    try reflexivity.
  all: transitivity false; [reflexivity|symmetry; andb_false].
Qed.

(** X1.  With the projection every frame uses, the elements both culling
    shaders select are the active elements whose world position lies in
    the square [-1, 1] x [-1, 1], borders included: the orthographic
    transform changes no coordinate of a binary32 position. *)
Theorem visible_iff_inside_view ec insts gid :
  Forall valid_position insts →
  gid ∈ visible_elements ec frame_projection insts ↔
  0 ≤ gid < ec ∧
  ∃ inst, insts !! Z.to_nat gid = Some inst ∧
          inside_view (InstanceData.position inst) = true.
Proof.
  intros Hvalid. rewrite visible_elements_spec. unfold passes_test.
  rewrite Forall_forall in Hvalid.
  split.
  - intros [Hr Hp]. split; [exact Hr|].
    destruct (insts !! Z.to_nat gid) as [inst|] eqn:Hinst; [|done].
    exists inst. split; [done|].
    rewrite <- clip_position_test; [done|].
    apply Hvalid. by eapply list_elem_of_lookup_2.
  - intros [Hr (inst & Hinst & Hin)]. split; [exact Hr|]. rewrite Hinst.
    rewrite clip_position_test; [done|].
    apply Hvalid. by eapply list_elem_of_lookup_2.
Qed.

(** X2.  An element whose position has a NaN or an infinite coordinate is
    never selected by the frustum test of the frame, whatever the other
    coordinate is. *)
Theorem non_finite_position_culled inst :
  is_visible (clip_position frame_projection inst) = true →
  is_finite_float (vec2_x (InstanceData.position inst)) = true ∧
  is_finite_float (vec2_y (InstanceData.position inst)) = true.
Proof.
  destruct inst as [[x y] sz col]. cbn [InstanceData.position vec2_x vec2_y].
  unfold_clip.
  destruct x as [sx|sx| |sx mx ex], y as [sy|sy| |sy my ey];
    cbn [is_finite_float]; try (intros _; by split);
    try (destruct sx); try (destruct sy);
    intros H; exfalso; revert H;
    (lazymatch goal with |- ?L = true → False => change L with false end);
    discriminate.
Qed.

Lemma filter_all {A} (P : A → Prop) `{∀ x, Decision (P x)} (l : list A) :
  Forall P l → filter P l = l.
Proof.
  induction 1 as [|x l Hx _ IH]; [done|].
  by rewrite filter_cons, decide_True, IH.
Qed.

(** With every position drawn from [pos_dist], every element of the
    active prefix passes the test. *)
Lemma generated_all_visible ec insts :
  Forall position_in_range insts → 0 ≤ ec ≤ Z.of_nat (length insts) →
  visible_elements ec frame_projection insts = seqZ 0 ec.
Proof.
  intros Hgen Hec. unfold visible_elements. apply filter_all.
  apply Forall_seqZ. intros gid Hgid. unfold passes_test.
  destruct (lookup_lt_is_Some_2 insts (Z.to_nat gid) ltac:(lia)) as [inst Hinst].
  rewrite Hinst. rewrite Forall_forall in Hgen.
  destruct (Hgen inst) as ((Hvx & Hx1 & Hx2) & (Hvy & Hy1 & Hy2)).
  { by eapply list_elem_of_lookup_2. }
  rewrite clip_position_test by done.
  unfold inside_view. by rewrite Hx1, Hx2, Hy1, Hy2.
Qed.

(** X3.  On a store whose positions all lie in the range [pos_dist]
    draws from, culling removes nothing: in either mode the counter ends
    at the active element count and the output slots name every active
    element, each once. *)
Theorem generated_data_never_culled mode scheduler ec st :
  fair scheduler → 0 ≤ ec ≤ MAX_ELEMENTS →
  ec ≤ Z.of_nat (length (instances (memory st))) →
  Forall position_in_range (instances (memory st)) →
  ∃ st' out,
    cull_stage scheduler (mkConfig mode ec) st = Some (tt, st') ∧
    final_count (memory st') = Some ec ∧
    output_elements mode (memory st') = Some out ∧
    out ≡ₚ seqZ 0 ec.
Proof.
  intros Hfair Hec Hlen Hgen.
  pose proof (retired_visible_perm scheduler ec (instances (memory st)) Hfair Hec)
    as Hperm.
  rewrite generated_all_visible in Hperm by (done || lia).
  assert (Hn : Z.of_nat (length (retired_visible scheduler ec (instances (memory st))))
               = ec).
  { rewrite Hperm, length_seqZ. lia. }
  destruct (cull_stage_output mode scheduler ec st Hfair Hec Hlen)
    as (st' & new & Hcull & _ & Hcnt & Hout & _).
  exists st', (retired_visible scheduler ec (instances (memory st))).
  split; [exact Hcull|]. split; [by rewrite Hcnt, Hn|].
  split; [exact Hout|exact Hperm].
Qed.

(** ** What a frame draws and reports *)

(** X4.  A micro-batch frame reports as [gpu_draw_calls] the number of
    visible elements among the active ones, and what it leaves in the
    framebuffer is one quad per visible element, each element's own and
    nothing from before the frame: whatever the earlier frames drew and
    whatever order the work-items retire in. *)
Theorem microbatch_frame_draws_visible scheduler ec st :
  fair scheduler → 0 ≤ ec ≤ MAX_ELEMENTS →
  ec ≤ Z.of_nat (length (instances (memory st))) →
  let visible := visible_elements ec frame_projection (instances (memory st)) in
  ∃ st',
    frame scheduler (mkConfig MICRO_BATCH_INDIRECT ec) st =
      Some (Z.of_nat (length visible), st') ∧
    framebuffer st' ≡ₚ
      element_quad_at frame_projection (instances (memory st)) <$> visible.
Proof.
  intros Hfair Hec Hlen visible. destruct st as [m bs g p u fb log].
  cbn [memory] in *.
  destruct (frame_microbatch scheduler ec m bs g p u fb log Hfair Hec Hlen)
    as (m' & bs' & g' & u' & sc & _ & _ & _ & Hframe & _).
  pose proof (retired_visible_perm scheduler ec (instances m) Hfair Hec) as Hperm.
  fold visible in Hperm. rewrite Hperm in Hframe at 1.
  eexists. split; [exact Hframe|]. cbn [framebuffer].
  by apply fmap_Permutation.
Qed.

(** A frame started from the invariant of the main loop completes,
    reports the number of draw commands of its mode, re-establishes the
    invariant and leaves the instance store as it was. *)
Lemma frame_result scheduler cfg st :
  fair scheduler → loop_invariant cfg st →
  ∃ st',
    frame scheduler cfg st = Some (draw_commands cfg (instances (memory st)), st') ∧
    loop_invariant cfg st' ∧
    instances (memory st') = instances (memory st).
Proof.
  intros Hfair Hinv.
  destruct (frame_keeps_invariant scheduler cfg st Hfair Hinv)
    as (n & st' & Hframe & Hinv').
  exists st'. destruct Hinv as (Hr & Hlen & _).
  destruct cfg as [mode ec], st as [m bs g p u fb log].
  cbn [element_count memory] in *.
  assert (Hec : 0 ≤ ec ≤ MAX_ELEMENTS) by lia.
  assert (Hlen' : ec ≤ Z.of_nat (length (instances m))) by lia.
  pose proof (retired_visible_perm scheduler ec (instances m) Hfair Hec) as Hperm.
  assert (Hrep : final_report (Some (n, st')) =
                 (draw_commands (mkConfig mode ec) (instances m), instances m)).
  { rewrite <- Hframe. destruct mode.
    - destruct (frame_microbatch scheduler ec m bs g p u fb log Hfair Hec Hlen')
        as (m' & bs' & g' & u' & sc & _ & _ & Hpost & Hf & _).
      rewrite Hf. destruct Hpost as (Hi & _).
      cbn [final_report memory]. rewrite Hi.
      unfold draw_commands. cbn [current_mode element_count]. by rewrite Hperm.
    - destruct (frame_instanced scheduler ec m bs g p u fb log Hfair Hec Hlen'
                  ltac:(lia))
        as (m' & bs' & g' & u' & sc & _ & _ & Hpost & Hf & _).
      rewrite Hf. destruct Hpost as (Hi & _).
      cbn [final_report memory set_words instances]. by rewrite Hi. }
  cbn [final_report] in Hrep. injection Hrep as -> Hi.
  by rewrite Hi.
Qed.

Lemma main_loop_keeps_instances SliderInt frames : ∀ cfg st,
  slider_keeps_range SliderInt → Forall (λ f, fair f.2) frames →
  loop_invariant cfg st →
  ∃ cfg' st', main_loop SliderInt frames cfg st = Some (cfg', st') ∧
              loop_invariant cfg' st' ∧
              instances (memory st') = instances (memory st).
Proof.
  induction frames as [|[input scheduler] rest IH]; intros cfg st Hs Hfair Hinv.
  - by exists cfg, st.
  - apply Forall_cons in Hfair as [Hf Hfair]. cbn [snd] in Hf.
    cbn [main_loop].
    assert (Hinv' : loop_invariant (ui SliderInt input cfg) st).
    { destruct Hinv as (Hr & Hrest). split; [|exact Hrest].
      by apply ui_keeps_range. }
    destruct (frame_result scheduler _ st Hf Hinv') as (st' & Hframe & Hinv'' & Hi).
    rewrite Hframe. cbn [mbind option_bind].
    destruct (IH _ st' Hs Hfair Hinv'') as (cfg2 & st2 & Hloop & Hinv2 & Hi2).
    exists cfg2, st2. split; [exact Hloop|]. split; [exact Hinv2|].
    by rewrite Hi2.
Qed.

(** X5.  In a run of the program, every frame in which the user has
    selected the instanced mode reports one GPU draw call and draws, for
    each visible element, the quad of element 0: as many quads as there
    are visible elements, all of them the first element's. *)
Theorem instanced_frame_draws_first_element
    SliderInt frames input scheduler instance_cpu_data :
  slider_keeps_range SliderInt →
  Forall (λ f : UserInput * Scheduler, fair f.2) frames →
  fair scheduler →
  MAX_ELEMENTS ≤ Z.of_nat (length instance_cpu_data) →
  press_instanced input = true →
  ∃ cfg st st',
    main_loop SliderInt frames initial_config (initial_state instance_cpu_data) =
      Some (cfg, st) ∧
    current_mode (ui SliderInt input cfg) = INSTANCED_INDIRECT ∧
    frame scheduler (ui SliderInt input cfg) st = Some (1, st') ∧
    framebuffer st' =
      replicate
        (length (visible_elements (element_count (ui SliderInt input cfg))
                   frame_projection instance_cpu_data))
        (element_quad_at frame_projection instance_cpu_data 0).
Proof.
  intros Hs Hfair Hf Hlen Hpress.
  destruct (main_loop_keeps_instances SliderInt frames initial_config
              (initial_state instance_cpu_data) Hs Hfair
              (initial_invariant _ Hlen))
    as (cfg & st & Hloop & (Hr & Hl & Hflag & _) & Hi).
  cbn [initial_state memory instances] in Hi.
  exists cfg, st.
  pose proof (ui_keeps_range SliderInt input cfg Hs Hr) as Hr'.
  assert (Hmode : current_mode (ui SliderInt input cfg) = INSTANCED_INDIRECT).
  { unfold ui. cbn [current_mode]. unfold RadioButton. by rewrite Hpress. }
  destruct (ui SliderInt input cfg) as [mode ec]. cbn [current_mode element_count] in *.
  subst mode. destruct st as [m bs g p u fb log]. cbn [memory instances] in *.
  assert (Hec : 0 ≤ ec ≤ MAX_ELEMENTS) by lia.
  destruct (frame_instanced scheduler ec m bs g p u fb log Hf Hec ltac:(lia)
              ltac:(lia))
    as (m' & bs' & g' & u' & sc & _ & _ & _ & Hframe & _).
  rewrite Hflag in Hframe.
  eexists. split; [exact Hloop|]. split; [done|]. split; [exact Hframe|].
  cbn [framebuffer]. rewrite Hi.
  by rewrite (retired_visible_perm scheduler ec _ Hf Hec).
Qed.

(** ** What a frame leaves untouched *)

(** X6.  A micro-batch frame overwrites only the command slots below its
    draw count: the commands from slot [gpu_draw_calls] on, the whole
    visible-index buffer and the instance store are as before the frame. *)
Theorem microbatch_frame_keeps_rest scheduler ec st :
  fair scheduler → 0 ≤ ec ≤ MAX_ELEMENTS →
  ec ≤ Z.of_nat (length (instances (memory st))) →
  ∃ gpu_draw_calls st',
    frame scheduler (mkConfig MICRO_BATCH_INDIRECT ec) st =
      Some (gpu_draw_calls, st') ∧
    (∀ i, 5 * gpu_draw_calls ≤ i →
       command_words (memory st') !! i = command_words (memory st) !! i) ∧
    visible_id_words (memory st') = visible_id_words (memory st) ∧
    instances (memory st') = instances (memory st).
Proof.
  intros Hfair Hec Hlen. destruct st as [m bs g p u fb log]. cbn [memory] in *.
  destruct (frame_microbatch scheduler ec m bs g p u fb log Hfair Hec Hlen)
    as (m' & bs' & g' & u' & sc & _ & _ & Hpost & Hframe & _).
  destruct Hpost as (Hi & Hv & _ & _ & Hrest & _).
  eexists _, _. split; [exact Hframe|]. cbn [memory].
  split; [|by split].
  intros i Hle. rewrite Hrest by lia. reflexivity.
Qed.

(** X7.  An instanced frame writes the five words of command 0 and the
    visible-index slots below the number of visible elements, nothing
    else: the command words from word 5 on (the commands 1, 2, ... of an
    earlier micro-batch frame), the visible-index slots from the visible
    count on and the instance store are as before the frame. *)
Theorem instanced_frame_keeps_rest scheduler ec st :
  fair scheduler → 0 < ec ≤ MAX_ELEMENTS →
  ec ≤ Z.of_nat (length (instances (memory st))) →
  let visible := visible_elements ec frame_projection (instances (memory st)) in
  ∃ st',
    frame scheduler (mkConfig INSTANCED_INDIRECT ec) st = Some (1, st') ∧
    (∀ i, 5 ≤ i →
       command_words (memory st') !! i = command_words (memory st) !! i) ∧
    (∀ i, Z.of_nat (length visible) ≤ i →
       visible_id_words (memory st') !! i = visible_id_words (memory st) !! i) ∧
    instances (memory st') = instances (memory st).
Proof.
  intros Hfair [Hpos Hmax] Hlen visible. destruct st as [m bs g p u fb log].
  cbn [memory] in *. assert (Hec : 0 ≤ ec ≤ MAX_ELEMENTS) by lia.
  destruct (frame_instanced scheduler ec m bs g p u fb log Hfair Hec Hlen Hpos)
    as (m' & bs' & g' & u' & sc & _ & _ & Hpost & Hframe & _).
  destruct Hpost as (Hi & _ & _ & Hv & _ & Hc & _).
  fold (retired_visible scheduler ec (instances m)) in Hv.
  pose proof (retired_visible_perm scheduler ec (instances m) Hfair Hec) as Hperm.
  fold visible in Hperm.
  eexists. split; [exact Hframe|].
  cbn [memory set_words command_words visible_id_words instances].
  split; [|split; [|exact Hi]].
  - intros i Hle. rewrite lookup_insert_ne by lia. rewrite Hc by (intros _; lia).
    reflexivity.
  - intros i Hle. rewrite Hv; [reflexivity|]. right. rewrite Hperm. lia.
Qed.

(** ** The size of a dispatch *)

Lemma num_groups_zero : num_groups 0 = 0.
Proof. reflexivity. Qed.

(** X8.  The number of work-groups the host dispatches gives one work-item
    to every active element and fewer than one work-group of work-items
    beyond the active count; these take the early return. *)
Theorem dispatch_covers_active_elements ec :
  0 ≤ ec ≤ MAX_ELEMENTS →
  (∀ gid, 0 ≤ gid < ec → gid ∈ work_items (num_groups ec)) ∧
  Z.of_nat (length (work_items (num_groups ec))) < ec + local_size_x ∧
  (∀ bs projection gid m, gid ∈ work_items (num_groups ec) → ec ≤ gid → gid ≠ 0 →
     cull_microbatch_main bs ec projection gid m = Some m ∧
     cull_instanced_main bs ec projection gid m = Some m).
Proof.
  intros Hec. pose proof (num_groups_covers ec Hec) as (Hn0 & Hcov & _).
  assert (Hup : num_groups ec * local_size_x < ec + local_size_x).
  { rewrite MAX_ELEMENTS_eq in Hec.
    unfold num_groups, to_uint, uint32_modulus, local_size_x.
    rewrite Z.quot_div_nonneg by lia.
    rewrite Z.mod_small by (split; [apply Z.div_pos; lia|];
      apply Z.div_lt_upper_bound; lia).
    pose proof (Z.div_mod (ec + 255) 256 ltac:(lia)) as Hdm.
    pose proof (Z.mod_pos_bound (ec + 255) 256 ltac:(lia)) as Hm. lia. }
  split; [|split].
  - intros gid Hgid. unfold work_items. apply elem_of_seqZ. lia.
  - unfold work_items. rewrite length_seqZ. unfold local_size_x in *. lia.
  - intros bs projection gid m _ Hge Hne. by apply inactive_work_item.
Qed.

(** X9.  With no active element the host dispatches no work-group: the
    culling stage of either mode resets the counter and does nothing else.
    No shader store happens, so in instanced mode the shared command is
    not re-initialised and the command buffer keeps what it held. *)
Theorem empty_dispatch mode scheduler st :
  fair scheduler →
  ∃ st',
    cull_stage scheduler (mkConfig mode 0) st = Some (tt, st') ∧
    final_count (memory st') = Some 0 ∧
    store_log (memory st') = store_log (memory st) ∧
    command_words (memory st') = command_words (memory st) ∧
    visible_id_words (memory st') = visible_id_words (memory st).
Proof.
  intros Hfair. destruct st as [m bs g p u fb log]. cbn [memory].
  assert (Hec : 0 ≤ 0 ≤ MAX_ELEMENTS) by (rewrite MAX_ELEMENTS_eq; lia).
  assert (Hlen : 0 ≤ Z.of_nat (length (instances m))) by lia.
  assert (Hsched : scheduler (work_items (num_groups 0)) = []).
  { apply Permutation_nil_r. rewrite (Hfair _). reflexivity. }
  destruct mode.
  - destruct (cull_stage_microbatch scheduler 0 m bs g p u fb log Hfair Hec Hlen)
      as (m' & bs' & g' & u' & Hcull & Hpost & _).
    unfold retired_visible in Hpost. rewrite Hsched in Hpost.
    destruct Hpost as (_ & Hv & Hcnt & _ & Hrest & Hlog).
    eexists. split; [exact Hcull|]. cbn [memory].
    split; [unfold final_count; rewrite Hcnt; apply lookup_insert_eq|].
    split; [by rewrite Hlog, app_nil_r|]. split; [|exact Hv].
    apply map_eq. intros i. rewrite Hrest; [reflexivity|].
    cbn [filter list_filter length]. lia.
  - destruct (cull_stage_instanced scheduler 0 m bs g p u fb log Hfair Hec Hlen)
      as (m' & bs' & g' & u' & Hcull & Hpost & _).
    rewrite Hsched in Hpost.
    destruct Hpost as (_ & Hcnt & _ & Hv & _ & Hrest & Hlog).
    eexists. split; [exact Hcull|]. cbn [memory].
    split; [unfold final_count; rewrite Hcnt; apply lookup_insert_eq|].
    split; [by rewrite Hlog, app_nil_r|]. split.
    + apply map_eq. intros i. rewrite Hrest; [reflexivity|].
      intros H0. by apply elem_of_nil in H0.
    + apply map_eq. intros i. rewrite Hv; [reflexivity|].
      cbn [filter list_filter length]. lia.
Qed.

(** ** The stores of a dispatch *)

Lemma microbatch_stores_length vs : ∀ c,
  length (microbatch_stores c vs) = (5 * length vs)%nat.
Proof.
  induction vs as [|gid rest IH]; intros c; [done|].
  cbn [microbatch_stores]. rewrite length_app, IH. cbn [command_stores length]. lia.
Qed.

Lemma instanced_stores_length sel schedule : ∀ c,
  NoDup schedule →
  length (instanced_stores sel c schedule) =
    Nat.add (if bool_decide (0 ∈ schedule) then 5%nat else 0%nat)
            (length (filter (λ g, sel g = true) schedule)).
Proof.
  induction schedule as [|gid rest IH]; intros c Hnd; [done|].
  apply NoDup_cons in Hnd as [Hnotin Hnd].
  cbn [instanced_stores]. rewrite length_app, filter_cons.
  assert (Hhead :
    Nat.add (length (if bool_decide (gid = 0) then command_stores 0 0 0 else []))
            (if bool_decide (0 ∈ rest) then 5%nat else 0%nat)
    = if bool_decide (0 ∈ gid :: rest) then 5%nat else 0%nat).
  { destruct (decide (gid = 0)) as [->|Hne].
    - rewrite bool_decide_eq_true_2 by done.
      rewrite (bool_decide_eq_false_2 (0 ∈ rest)) by done.
      rewrite (bool_decide_eq_true_2 (0 ∈ 0 :: rest)) by apply list_elem_of_here.
      reflexivity.
    - rewrite bool_decide_eq_false_2 by done.
      destruct (decide (0 ∈ rest)) as [Hin|Hnin].
      + rewrite !bool_decide_eq_true_2; [done| |done]. by apply list_elem_of_further.
      + rewrite !bool_decide_eq_false_2; [done| |done].
        intros [Heq|?]%elem_of_cons; [by apply Hne|done]. }
  rewrite <- Hhead.
  destruct (sel gid) eqn:Hsel.
  - rewrite decide_True by done. cbn [length]. rewrite IH by done. lia.
  - rewrite decide_False by (by intros ?). rewrite IH by done. lia.
Qed.

(** X10.  The shader stores of one culling dispatch: the micro-batch
    variant writes five words per visible element, the instanced variant
    one word per visible element and the five words of the shared
    command. *)
Theorem dispatch_store_count mode scheduler ec st :
  fair scheduler → 0 < ec ≤ MAX_ELEMENTS →
  ec ≤ Z.of_nat (length (instances (memory st))) →
  let visible := visible_elements ec frame_projection (instances (memory st)) in
  ∃ st' new,
    cull_stage scheduler (mkConfig mode ec) st = Some (tt, st') ∧
    store_log (memory st') = store_log (memory st) ++ new ∧
    length new = match mode with
                 | MICRO_BATCH_INDIRECT => (5 * length visible)%nat
                 | INSTANCED_INDIRECT => (5 + length visible)%nat
                 end.
Proof.
  intros Hfair [Hpos Hmax] Hlen visible. destruct st as [m bs g p u fb log].
  cbn [memory] in *. assert (Hec : 0 ≤ ec ≤ MAX_ELEMENTS) by lia.
  pose proof (retired_visible_perm scheduler ec (instances m) Hfair Hec) as Hperm.
  fold visible in Hperm. destruct mode.
  - destruct (cull_stage_microbatch scheduler ec m bs g p u fb log Hfair Hec Hlen)
      as (m' & bs' & g' & u' & Hcull & Hpost & _).
    destruct Hpost as (_ & _ & _ & _ & _ & Hlog).
    eexists _, _. split; [exact Hcull|]. split; [exact Hlog|].
    by rewrite microbatch_stores_length, Hperm.
  - destruct (cull_stage_instanced scheduler ec m bs g p u fb log Hfair Hec Hlen)
      as (m' & bs' & g' & u' & Hcull & Hpost & _).
    destruct Hpost as (_ & _ & _ & _ & _ & _ & Hlog).
    eexists _, _. split; [exact Hcull|]. split; [exact Hlog|].
    rewrite instanced_stores_length by by apply fair_NoDup.
    pose proof (num_groups_covers ec Hec) as (_ & _ & Hng).
    rewrite bool_decide_eq_true_2
      by (apply fair_first_work_item; [done|by apply Hng]).
    fold (retired_visible scheduler ec (instances m)). by rewrite Hperm.
Qed.

(** ** The order of the output slots *)

(** X11.  The output slots of a culling dispatch list the visible
    elements in the order in which their work-items take the counter: the
    list is the schedule with the elements that are not visible struck
    out.  When the work-items retire in index order the output is sorted;
    any other order of retirement shows in the output. *)
Theorem compaction_follows_retirement mode scheduler ec st :
  fair scheduler → 0 ≤ ec ≤ MAX_ELEMENTS →
  ec ≤ Z.of_nat (length (instances (memory st))) →
  let visible := visible_elements ec frame_projection (instances (memory st)) in
  let schedule := scheduler (work_items (num_groups ec)) in
  ∃ st',
    cull_stage scheduler (mkConfig mode ec) st = Some (tt, st') ∧
    output_elements mode (memory st') =
      Some (filter (λ gid, gid ∈ visible) schedule) ∧
    (schedule = work_items (num_groups ec) →
     output_elements mode (memory st') = Some visible).
Proof.
  intros Hfair Hec Hlen visible schedule.
  destruct (cull_stage_output mode scheduler ec st Hfair Hec Hlen)
    as (st' & new & Hcull & _ & _ & Hout & _).
  exists st'. split; [exact Hcull|].
  assert (Hfilter : retired_visible scheduler ec (instances (memory st)) =
                    filter (λ gid, gid ∈ visible) schedule).
  { unfold retired_visible. fold schedule. apply filter_ext_in.
    pose proof (fair_nonneg scheduler (num_groups ec) Hfair) as Hpos.
    fold schedule in Hpos. eapply Forall_impl; [exact Hpos|].
    intros gid Hgid. cbn beta. unfold visible.
    rewrite visible_elements_spec. unfold selects.
    rewrite andb_true_iff, bool_decide_eq_true. intuition lia. }
  split; [by rewrite Hout, Hfilter|].
  intros Hsched. rewrite Hout. f_equal. unfold retired_visible.
  fold schedule. rewrite Hsched. unfold work_items.
  apply selects_work_items.
  pose proof (num_groups_covers ec Hec) as (_ & Hcov & _). lia.
Qed.

(** ** The instanced path of the vertex shader *)

(** X12.  In a state where the mode flag of the render program reads
    true, an instanced frame draws what a micro-batch frame draws: one
    quad per visible element, each element's own, found through the
    visible-index list and [gl_InstanceID]. *)
Theorem instanced_frame_with_flag_set scheduler ec st :
  fair scheduler → 0 < ec ≤ MAX_ELEMENTS →
  ec ≤ Z.of_nat (length (instances (memory st))) →
  uniform_bool st render_program "is_instanced_mode" = true →
  ∃ st',
    frame scheduler (mkConfig INSTANCED_INDIRECT ec) st = Some (1, st') ∧
    framebuffer st' ≡ₚ
      element_quad_at frame_projection (instances (memory st)) <$>
        visible_elements ec frame_projection (instances (memory st)).
Proof.
  intros Hfair [Hpos Hmax] Hlen Hflag. destruct st as [m bs g p u fb log].
  cbn [memory] in *. assert (Hec : 0 ≤ ec ≤ MAX_ELEMENTS) by lia.
  destruct (frame_instanced scheduler ec m bs g p u fb log Hfair Hec Hlen Hpos)
    as (m' & bs' & g' & u' & sc & _ & _ & _ & Hframe & _).
  rewrite Hflag in Hframe.
  eexists. split; [exact Hframe|]. cbn [framebuffer].
  apply fmap_Permutation. by apply retired_visible_perm.
Qed.

(** ** The program from start-up *)

Lemma generate_instances_length {Rng} (pos_dist size_dist color_dist : Rng → float * Rng)
    n : ∀ rng,
  length (generate_instances pos_dist size_dist color_dist n rng) = n.
Proof.
  induction n as [|n IH]; intros rng; [done|].
  cbn [generate_instances].
  destruct (generate_instance pos_dist size_dist color_dist rng) as [inst rng'].
  cbn [length]. by rewrite IH.
Qed.

Lemma generate_instances_generated {Rng}
    (pos_dist size_dist color_dist : Rng → float * Rng) n : ∀ rng,
  pos_dist_contract pos_dist →
  Forall position_in_range (generate_instances pos_dist size_dist color_dist n rng).
Proof.
  induction n as [|n IH]; intros rng Hc; [apply Forall_nil_2|].
  cbn [generate_instances].
  destruct (generate_instance pos_dist size_dist color_dist rng)
    as [inst rng'] eqn:Hgen.
  apply Forall_cons. split; [|by apply IH].
  unfold generate_instance in Hgen.
  pose proof (Hc rng) as Hx.
  destruct (pos_dist rng) as [px r1]. pose proof (Hc r1) as Hy.
  destruct (pos_dist r1) as [py r2].
  destruct (size_dist r2) as [sx r3]. destruct (size_dist r3) as [sy r4].
  destruct (color_dist r4) as [cr r5]. destruct (color_dist r5) as [cg r6].
  destruct (color_dist r6) as [cb r7].
  injection Hgen as <- _. cbn [fst] in Hx, Hy.
  unfold position_in_range. cbn [InstanceData.position vec2_x vec2_y].
  done.
Qed.

(** X13.  In the program as [main] sets it up, with the positions drawn
    from [pos_dist(-1, 1)] and the frame's projection [ortho(-1, 1, -1, 1,
    -1, 1)], no element is ever culled: after any run of frames, a frame
    in micro-batch mode issues exactly as many draw commands as the
    slider's element count. *)
Theorem program_never_culls {Rng} (pos_dist size_dist color_dist : Rng → float * Rng)
    rng SliderInt frames input scheduler :
  pos_dist_contract pos_dist →
  slider_keeps_range SliderInt →
  Forall (λ f : UserInput * Scheduler, fair f.2) frames →
  fair scheduler →
  press_micro_batch input = true → press_instanced input = false →
  ∃ cfg st st',
    main_loop SliderInt frames initial_config
      (initial_state (prepare_instance_data pos_dist size_dist color_dist rng)) =
      Some (cfg, st) ∧
    current_mode (ui SliderInt input cfg) = MICRO_BATCH_INDIRECT ∧
    frame scheduler (ui SliderInt input cfg) st =
      Some (element_count (ui SliderInt input cfg), st').
Proof.
  intros Hc Hs Hfair Hf Hmicro Hinst.
  set (data := prepare_instance_data pos_dist size_dist color_dist rng).
  assert (Hlen : Z.of_nat (length data) = MAX_ELEMENTS).
  { unfold data, prepare_instance_data. rewrite generate_instances_length.
    rewrite MAX_ELEMENTS_eq. lia. }
  assert (Hlen' : MAX_ELEMENTS ≤ Z.of_nat (length data)) by lia.
  destruct (main_loop_keeps_instances SliderInt frames initial_config
              (initial_state data) Hs Hfair (initial_invariant data Hlen'))
    as (cfg & st & Hloop & Hinv & Hi).
  cbn [initial_state memory instances] in Hi.
  exists cfg, st.
  assert (Hinv' : loop_invariant (ui SliderInt input cfg) st).
  { destruct Hinv as (Hr & Hrest). split; [|exact Hrest].
    by apply ui_keeps_range. }
  assert (Hmode : current_mode (ui SliderInt input cfg) = MICRO_BATCH_INDIRECT).
  { unfold ui. cbn [current_mode]. unfold RadioButton. by rewrite Hmicro, Hinst. }
  destruct (frame_result scheduler _ st Hf Hinv') as (st' & Hframe & _).
  exists st'. split; [exact Hloop|]. split; [exact Hmode|].
  rewrite Hframe. do 2 f_equal.
  unfold draw_commands. rewrite Hmode, Hi.
  destruct Hinv' as (Hr & _).
  rewrite generated_all_visible.
  - rewrite length_seqZ. lia.
  - by apply generate_instances_generated.
  - fold data. lia.
Qed.

(** ** The statistics overlay *)

Lemma main_loop_overlay_shown SliderInt frames : ∀ cfg gpu_draw_calls st,
  slider_keeps_range SliderInt → Forall (λ f, fair f.2) frames →
  loop_invariant cfg st →
  main_loop_overlay SliderInt frames cfg gpu_draw_calls st =
    Some (take (length frames)
            (gpu_draw_calls ::
             ((λ c, draw_commands c (instances (memory st))) <$>
                frame_configs SliderInt (fst <$> frames) cfg))).
Proof.
  induction frames as [|[input scheduler] rest IH];
    intros cfg n0 st Hs Hfair Hinv; [done|].
  apply Forall_cons in Hfair as [Hf Hfair]. cbn [snd] in Hf.
  cbn [main_loop_overlay].
  assert (Hinv' : loop_invariant (ui SliderInt input cfg) st).
  { destruct Hinv as (Hr & Hrest). split; [|exact Hrest].
    by apply ui_keeps_range. }
  destruct (frame_result scheduler _ st Hf Hinv') as (st' & Hframe & Hinv'' & Hi).
  rewrite Hframe. cbn [mbind option_bind].
  rewrite (IH _ _ st' Hs Hfair Hinv''). cbn [mbind option_bind].
  rewrite Hi. reflexivity.
Qed.

(** X14.  The line [GPU Draw Commands] of the overlay shows the count of
    the frame before: 0 in the first frame of a run, and in every later
    frame the number of draw commands the previous frame executed with the
    mode and the element count it had (the number of its visible elements
    in micro-batch mode, 1 in instanced mode). *)
Theorem overlay_shows_previous_frame SliderInt frames instance_cpu_data :
  slider_keeps_range SliderInt →
  Forall (λ f : UserInput * Scheduler, fair f.2) frames →
  MAX_ELEMENTS ≤ Z.of_nat (length instance_cpu_data) →
  ∃ shown,
    main_loop_overlay SliderInt frames initial_config 0
      (initial_state instance_cpu_data) = Some shown ∧
    length shown = length frames ∧
    (∀ k n, shown !! k = Some n →
       match k with
       | O => n = 0
       | S k' =>
           ∃ cfg, frame_configs SliderInt (fst <$> frames) initial_config !! k'
                    = Some cfg ∧
                  n = draw_commands cfg instance_cpu_data
       end).
Proof.
  intros Hs Hfair Hlen.
  rewrite (main_loop_overlay_shown SliderInt frames initial_config 0
             (initial_state instance_cpu_data) Hs Hfair (initial_invariant _ Hlen)).
  cbn [initial_state memory instances].
  eexists. split; [reflexivity|].
  assert (Hcl : length (frame_configs SliderInt (fst <$> frames) initial_config)
                = length frames).
  { generalize initial_config. induction frames as [|f rest IH]; intros c; [done|].
    cbn [fmap list_fmap frame_configs length]. apply Forall_cons in Hfair as [_ Hfair].
    by rewrite (IH Hfair). }
  split.
  - rewrite length_take, length_cons, length_fmap, Hcl. lia.
  - intros k n Hk. apply lookup_take_Some in Hk as [Hk _].
    destruct k as [|k'].
    + cbn in Hk. by injection Hk.
    + change ((?x :: ?l) !! S k') with (l !! k') in Hk.
      rewrite list_lookup_fmap in Hk.
      destruct (frame_configs SliderInt (fst <$> frames) initial_config !! k')
        as [c|]; [|done].
      exists c. split; [done|]. cbn in Hk. by injection Hk.
Qed.

(** ** The added theorems at concrete inputs *)

Ltac pair_solve :=
  lazymatch goal with
  | |- fair id => exact fair_id
  | |- fair demo_reverse => exact fair_demo_reverse
  | |- slider_keeps_range _ => exact clamping_slider_keeps_range
  | |- pos_dist_contract _ => intros rng; repeat split; reflexivity
  | |- Forall _ demo_run =>
      repeat (apply Forall_cons; split; [first [exact fair_id | exact fair_demo_reverse]|]);
      apply Forall_nil_2
  | |- Forall _ _ =>
      repeat first [apply Forall_nil_2 | apply Forall_cons; split | split | reflexivity]
  | |- _ = true => reflexivity
  | |- _ = false => reflexivity
  | |- _ =>
      cbn [initial_state set_uniforms memory instances demo_pair demo_pair_state
           demo_flag_set length];
      rewrite ?demo_instances_length, ?MAX_ELEMENTS_eq; lia
  end.

(** The hypotheses of [visible_iff_inside_view] hold on the two-element
    store. *)
Lemma visible_iff_inside_view_witness :
  (Forall valid_position demo_pair) ∧
  (1 ∈ visible_elements 2 frame_projection demo_pair ↔
   0 ≤ 1 < 2 ∧
   ∃ inst, demo_pair !! Z.to_nat 1 = Some inst ∧
           inside_view (InstanceData.position inst) = true).
Proof.
  split; [pair_solve|].
  apply (visible_iff_inside_view 2 demo_pair 1); pair_solve.
Defined.

(** The hypothesis of [non_finite_position_culled] holds for the first
    element of the demo store. *)
Lemma non_finite_position_culled_witness :
  (is_visible (clip_position frame_projection demo_first) = true) ∧
  (is_finite_float (vec2_x (InstanceData.position demo_first)) = true ∧
   is_finite_float (vec2_y (InstanceData.position demo_first)) = true).
Proof.
  split; [pair_solve|].
  apply (non_finite_position_culled demo_first); pair_solve.
Defined.

(** The hypotheses of [generated_data_never_culled] hold on the
    two-element store. *)
Lemma generated_data_never_culled_witness :
  (fair demo_reverse) ∧
  (0 ≤ 2 ≤ MAX_ELEMENTS) ∧
  (2 ≤ Z.of_nat (length (instances (memory demo_pair_state)))) ∧
  (Forall position_in_range (instances (memory demo_pair_state))) ∧
  (∃ st' out,
    cull_stage demo_reverse (mkConfig INSTANCED_INDIRECT 2) demo_pair_state =
      Some (tt, st') ∧
    final_count (memory st') = Some 2 ∧
    output_elements INSTANCED_INDIRECT (memory st') = Some out ∧
    out ≡ₚ seqZ 0 2).
Proof.
  split; [pair_solve|].
  split; [pair_solve|].
  split; [pair_solve|].
  split; [pair_solve|].
  apply (generated_data_never_culled INSTANCED_INDIRECT demo_reverse 2
           demo_pair_state); pair_solve.
Defined.

(** The hypotheses of [microbatch_frame_draws_visible] hold on the
    two-element store. *)
Lemma microbatch_frame_draws_visible_witness :
  (fair demo_reverse) ∧
  (0 ≤ 2 ≤ MAX_ELEMENTS) ∧
  (2 ≤ Z.of_nat (length (instances (memory demo_pair_state)))) ∧
  (let visible :=
     visible_elements 2 frame_projection (instances (memory demo_pair_state)) in
   ∃ st',
     frame demo_reverse (mkConfig MICRO_BATCH_INDIRECT 2) demo_pair_state =
       Some (Z.of_nat (length visible), st') ∧
     framebuffer st' ≡ₚ
       element_quad_at frame_projection (instances (memory demo_pair_state)) <$>
         visible).
Proof.
  split; [pair_solve|].
  split; [pair_solve|].
  split; [pair_solve|].
  apply (microbatch_frame_draws_visible demo_reverse 2 demo_pair_state); pair_solve.
Defined.

(** The hypotheses of [instanced_frame_draws_first_element] hold for the
    demo run followed by a frame in which the instanced button is
    pressed. *)
Lemma instanced_frame_draws_first_element_witness :
  (slider_keeps_range clamping_slider) ∧
  (Forall (λ f : UserInput * Scheduler, fair f.2) demo_run) ∧
  (fair demo_reverse) ∧
  (MAX_ELEMENTS ≤ Z.of_nat (length demo_instances)) ∧
  (press_instanced demo_press_instanced = true) ∧
  (∃ cfg st st',
    main_loop clamping_slider demo_run initial_config (initial_state demo_instances) =
      Some (cfg, st) ∧
    current_mode (ui clamping_slider demo_press_instanced cfg) = INSTANCED_INDIRECT ∧
    frame demo_reverse (ui clamping_slider demo_press_instanced cfg) st =
      Some (1, st') ∧
    framebuffer st' =
      replicate
        (length (visible_elements
                   (element_count (ui clamping_slider demo_press_instanced cfg))
                   frame_projection demo_instances))
        (element_quad_at frame_projection demo_instances 0)).
Proof.
  split; [pair_solve|].
  split; [pair_solve|].
  split; [pair_solve|].
  split; [pair_solve|].
  split; [pair_solve|].
  apply (instanced_frame_draws_first_element clamping_slider demo_run
           demo_press_instanced demo_reverse demo_instances); pair_solve.
Defined.

(** The hypotheses of [microbatch_frame_keeps_rest] hold on the
    two-element store. *)
Lemma microbatch_frame_keeps_rest_witness :
  (fair id) ∧
  (0 ≤ 2 ≤ MAX_ELEMENTS) ∧
  (2 ≤ Z.of_nat (length (instances (memory demo_pair_state)))) ∧
  (∃ gpu_draw_calls st',
    frame id (mkConfig MICRO_BATCH_INDIRECT 2) demo_pair_state =
      Some (gpu_draw_calls, st') ∧
    (∀ i, 5 * gpu_draw_calls ≤ i →
       command_words (memory st') !! i = command_words (memory demo_pair_state) !! i) ∧
    visible_id_words (memory st') = visible_id_words (memory demo_pair_state) ∧
    instances (memory st') = instances (memory demo_pair_state)).
Proof.
  split; [pair_solve|].
  split; [pair_solve|].
  split; [pair_solve|].
  apply (microbatch_frame_keeps_rest id 2 demo_pair_state); pair_solve.
Defined.

(** The hypotheses of [instanced_frame_keeps_rest] hold on the
    two-element store. *)
Lemma instanced_frame_keeps_rest_witness :
  (fair id) ∧
  (0 < 2 ≤ MAX_ELEMENTS) ∧
  (2 ≤ Z.of_nat (length (instances (memory demo_pair_state)))) ∧
  (let visible :=
     visible_elements 2 frame_projection (instances (memory demo_pair_state)) in
   ∃ st',
     frame id (mkConfig INSTANCED_INDIRECT 2) demo_pair_state = Some (1, st') ∧
     (∀ i, 5 ≤ i →
        command_words (memory st') !! i = command_words (memory demo_pair_state) !! i) ∧
     (∀ i, Z.of_nat (length visible) ≤ i →
        visible_id_words (memory st') !! i =
          visible_id_words (memory demo_pair_state) !! i) ∧
     instances (memory st') = instances (memory demo_pair_state)).
Proof.
  split; [pair_solve|].
  split; [pair_solve|].
  split; [pair_solve|].
  apply (instanced_frame_keeps_rest id 2 demo_pair_state); pair_solve.
Defined.

(** The hypothesis of [dispatch_covers_active_elements] holds for 1000
    active elements. *)
Lemma dispatch_covers_active_elements_witness :
  (0 ≤ 1000 ≤ MAX_ELEMENTS) ∧
  ((∀ gid, 0 ≤ gid < 1000 → gid ∈ work_items (num_groups 1000)) ∧
   Z.of_nat (length (work_items (num_groups 1000))) < 1000 + local_size_x ∧
   (∀ bs projection gid m,
      gid ∈ work_items (num_groups 1000) → 1000 ≤ gid → gid ≠ 0 →
      cull_microbatch_main bs 1000 projection gid m = Some m ∧
      cull_instanced_main bs 1000 projection gid m = Some m)).
Proof.
  split; [pair_solve|].
  apply (dispatch_covers_active_elements 1000); pair_solve.
Defined.

(** The hypothesis of [empty_dispatch] holds for the reversing scheduler. *)
Lemma empty_dispatch_witness :
  (fair demo_reverse) ∧
  (∃ st',
    cull_stage demo_reverse (mkConfig INSTANCED_INDIRECT 0) demo_pair_state =
      Some (tt, st') ∧
    final_count (memory st') = Some 0 ∧
    store_log (memory st') = store_log (memory demo_pair_state) ∧
    command_words (memory st') = command_words (memory demo_pair_state) ∧
    visible_id_words (memory st') = visible_id_words (memory demo_pair_state)).
Proof.
  split; [pair_solve|].
  apply (empty_dispatch INSTANCED_INDIRECT demo_reverse demo_pair_state); pair_solve.
Defined.

(** The hypotheses of [dispatch_store_count] hold on the two-element
    store. *)
Lemma dispatch_store_count_witness :
  (fair id) ∧
  (0 < 2 ≤ MAX_ELEMENTS) ∧
  (2 ≤ Z.of_nat (length (instances (memory demo_pair_state)))) ∧
  (let visible :=
     visible_elements 2 frame_projection (instances (memory demo_pair_state)) in
   ∃ st' new,
     cull_stage id (mkConfig INSTANCED_INDIRECT 2) demo_pair_state = Some (tt, st') ∧
     store_log (memory st') = store_log (memory demo_pair_state) ++ new ∧
     length new = (5 + length visible)%nat).
Proof.
  split; [pair_solve|].
  split; [pair_solve|].
  split; [pair_solve|].
  apply (dispatch_store_count INSTANCED_INDIRECT id 2 demo_pair_state); pair_solve.
Defined.

(** The hypotheses of [compaction_follows_retirement] hold on the
    two-element store. *)
Lemma compaction_follows_retirement_witness :
  (fair demo_reverse) ∧
  (0 ≤ 2 ≤ MAX_ELEMENTS) ∧
  (2 ≤ Z.of_nat (length (instances (memory demo_pair_state)))) ∧
  (let visible :=
     visible_elements 2 frame_projection (instances (memory demo_pair_state)) in
   let schedule := demo_reverse (work_items (num_groups 2)) in
   ∃ st',
     cull_stage demo_reverse (mkConfig MICRO_BATCH_INDIRECT 2) demo_pair_state =
       Some (tt, st') ∧
     output_elements MICRO_BATCH_INDIRECT (memory st') =
       Some (filter (λ gid, gid ∈ visible) schedule) ∧
     (schedule = work_items (num_groups 2) →
      output_elements MICRO_BATCH_INDIRECT (memory st') = Some visible)).
Proof.
  split; [pair_solve|].
  split; [pair_solve|].
  split; [pair_solve|].
  apply (compaction_follows_retirement MICRO_BATCH_INDIRECT demo_reverse 2
           demo_pair_state); pair_solve.
Defined.

(** The hypotheses of [instanced_frame_with_flag_set] hold in the state
    with the flag set. *)
Lemma instanced_frame_with_flag_set_witness :
  (fair id) ∧
  (0 < 2 ≤ MAX_ELEMENTS) ∧
  (2 ≤ Z.of_nat (length (instances (memory demo_flag_set)))) ∧
  (uniform_bool demo_flag_set render_program "is_instanced_mode" = true) ∧
  (∃ st',
    frame id (mkConfig INSTANCED_INDIRECT 2) demo_flag_set = Some (1, st') ∧
    framebuffer st' ≡ₚ
      element_quad_at frame_projection (instances (memory demo_flag_set)) <$>
        visible_elements 2 frame_projection (instances (memory demo_flag_set))).
Proof.
  split; [pair_solve|].
  split; [pair_solve|].
  split; [pair_solve|].
  split; [pair_solve|].
  apply (instanced_frame_with_flag_set id 2 demo_flag_set); pair_solve.
Defined.

(** The hypotheses of [program_never_culls] hold for the constant
    distribution and the demo run. *)
Lemma program_never_culls_witness :
  (pos_dist_contract demo_dist) ∧
  (slider_keeps_range clamping_slider) ∧
  (Forall (λ f : UserInput * Scheduler, fair f.2) demo_run) ∧
  (fair demo_reverse) ∧
  (press_micro_batch demo_press_micro_batch = true) ∧
  (press_instanced demo_press_micro_batch = false) ∧
  (∃ cfg st st',
    main_loop clamping_slider demo_run initial_config
      (initial_state (prepare_instance_data demo_dist demo_dist demo_dist tt)) =
      Some (cfg, st) ∧
    current_mode (ui clamping_slider demo_press_micro_batch cfg) =
      MICRO_BATCH_INDIRECT ∧
    frame demo_reverse (ui clamping_slider demo_press_micro_batch cfg) st =
      Some (element_count (ui clamping_slider demo_press_micro_batch cfg), st')).
Proof.
  split; [pair_solve|].
  split; [pair_solve|].
  split; [pair_solve|].
  split; [pair_solve|].
  split; [pair_solve|].
  split; [pair_solve|].
  apply (program_never_culls demo_dist demo_dist demo_dist tt clamping_slider
           demo_run demo_press_micro_batch demo_reverse); pair_solve.
Defined.

(** The hypotheses of [overlay_shows_previous_frame] hold for the demo
    run. *)
Lemma overlay_shows_previous_frame_witness :
  (slider_keeps_range clamping_slider) ∧
  (Forall (λ f : UserInput * Scheduler, fair f.2) demo_run) ∧
  (MAX_ELEMENTS ≤ Z.of_nat (length demo_instances)) ∧
  (∃ shown,
    main_loop_overlay clamping_slider demo_run initial_config 0
      (initial_state demo_instances) = Some shown ∧
    length shown = length demo_run ∧
    (∀ k n, shown !! k = Some n →
       match k with
       | O => n = 0
       | S k' =>
           ∃ cfg, frame_configs clamping_slider (fst <$> demo_run) initial_config !! k'
                    = Some cfg ∧
                  n = draw_commands cfg demo_instances
       end)).
Proof.
  split; [pair_solve|].
  split; [pair_solve|].
  split; [pair_solve|].
  apply (overlay_shows_previous_frame clamping_slider demo_run demo_instances);
    pair_solve.
Defined.
